(** * CGAL: kinetic shape reconstruction driver and point/triangle distance

    A shallow embedding of

    - [Distance_3/include/CGAL/squared_distance_Point_3_Triangle_3.h]
      (module [Distance_3]), and
    - [Kinetic_shape_reconstruction/include/CGAL/Kinetic_shape_reconstruction_3.h]
      (module [KSR]),

    over the rationals: the number type [FT] of the kernel is [Q], and the
    comparisons of the source ([<], [<=], [==] on [FT]) are the boolean
    comparisons of [Q], which respect [Qeq].

    The driver is a class template over a kernel and it uses
    [KSR_3::Data_structure], [KSR_3::Event], [KSR_3::Event_queue] and
    [KSR/utils.h], none of which is among the sources.  It is embedded over
    two interfaces, [KSR.Geom_traits] and [KSR.Data_structure], that list
    what it calls; the event and the queue follow the specification.  The
    definitions come first; the properties ([Distance_3_facts],
    [KSR_facts]) follow them. *)

From Stdlib Require Import QArith Qabs ZArith NArith List Bool String Lia Lqa PeanoNat
  Permutation.
Import ListNotations.

Local Open Scope string_scope.
Local Open Scope list_scope.
Local Open Scope Q_scope.

(** ** Number type *)

Definition FT := Q.

Definition FT_lt (x y : FT) : bool := negb (Qle_bool y x).
Definition FT_le (x y : FT) : bool := Qle_bool x y.
Definition FT_eq (x y : FT) : bool := Qeq_bool x y.

(** [(std::min)(a, b)] is [(b < a) ? b : a]. *)
Definition std_min (a b : FT) : FT := if FT_lt b a then b else a.

(** ** Kernel objects (Cartesian coordinates) *)

Record Point_2 : Type := mkPoint_2 { p2x : FT; p2y : FT }.
Record Vector_2 : Type := mkVector_2 { v2x : FT; v2y : FT }.
Record Segment_2 : Type := mkSegment_2 { source_2 : Point_2; target_2 : Point_2 }.
Record Bbox_2 : Type := mkBbox_2 { bxmin : FT; bymin : FT; bxmax : FT; bymax : FT }.

Record Point_3 : Type := mkPoint_3 { px : FT; py : FT; pz : FT }.
Record Vector_3 : Type := mkVector_3 { vx : FT; vy : FT; vz : FT }.
Record Segment_3 : Type := mkSegment_3 { ssource : Point_3; starget : Point_3 }.
Record Triangle_3 : Type := mkTriangle_3 { tv0 : Point_3; tv1 : Point_3; tv2 : Point_3 }.

(** ** Point to triangle distance *)

Module Distance_3.

(** [k.construct_vector_3_object()(p, q)]: the vector [q - p]. *)
Definition vector (p q : Point_3) : Vector_3 :=
  mkVector_3 (px q - px p) (py q - py p) (pz q - pz p).

(** [k.construct_segment_3_object()]. *)
Definition segment (p q : Point_3) : Segment_3 := mkSegment_3 p q.

(** [k.construct_vertex_3_object()(t, i)], the index taken modulo 3. *)
Definition vertex (t : Triangle_3) (i : nat) : Point_3 :=
  match Nat.modulo i 3 with
  | O => tv0 t
  | S O => tv1 t
  | _ => tv2 t
  end.

(** Modelled from the spec: [wcross] and [wdot] of
    [CGAL/internal/squared_distance_utils_3.h], which is not among the
    sources; the spec lists them under the kernel's "point/vector/segment
    arithmetic".  For a Cartesian kernel they are the cross and the dot
    product. *)
Definition wcross (u v : Vector_3) : Vector_3 :=
  mkVector_3 (vy u * vz v - vz u * vy v)
             (vz u * vx v - vx u * vz v)
             (vx u * vy v - vy u * vx v).

Definition wdot (u v : Vector_3) : FT :=
  vx u * vx v + vy u * vy v + vz u * vz v.

(** [v == NULL_VECTOR]: every coordinate is zero. *)
Definition is_null_vector (v : Vector_3) : bool :=
  FT_eq (vx v) 0 && FT_eq (vy v) 0 && FT_eq (vz v) 0.

Section Triangle.

(** The two distance helpers the function calls live in headers that are
    not among the sources ([squared_distance_utils_3.h] and
    [squared_distance_Point_3_Segment_3.h]); the function is embedded over
    them. *)
Variable squared_distance_to_plane : Vector_3 -> Vector_3 -> FT.
Variable squared_distance_segment : Point_3 -> Segment_3 -> FT.

(** [on_left_of_triangle_edge]: [pt] is on the negative side of the plane
    through [(ep0, ep1)] spanned with [normal]. *)
Definition on_left_of_triangle_edge
    (pt : Point_3) (normal : Vector_3) (ep0 ep1 : Point_3) : bool :=
  let edge := vector ep0 ep1 in
  let diff := vector ep0 pt in
  FT_le (wdot (wcross edge normal) diff) 0.

(** [squared_distance_to_triangle].  The reference parameter [inside] is
    passed in and returned next to the distance: the first branch sets it,
    the second leaves it alone. *)
Definition squared_distance_to_triangle
    (pt t0 t1 t2 : Point_3) (inside : bool) : FT * bool :=
  let e1 := vector t0 t1 in
  let oe3 := vector t0 t2 in
  let normal := wcross e1 oe3 in
  if negb (is_null_vector normal)
     && on_left_of_triangle_edge pt normal t0 t1
     && on_left_of_triangle_edge pt normal t1 t2
     && on_left_of_triangle_edge pt normal t2 t0
  then
    (squared_distance_to_plane normal (vector t0 pt), true)
  else
    let d1 := squared_distance_segment pt (segment t2 t0) in
    let d2 := squared_distance_segment pt (segment t1 t2) in
    let d3 := squared_distance_segment pt (segment t0 t1) in
    (std_min (std_min d1 d2) d3, inside).

(** [internal::squared_distance(pt, t, k)]; the two public overloads only
    forward to it. *)
Definition squared_distance (pt : Point_3) (t : Triangle_3) : FT :=
  let unused_inside := false in
  fst (squared_distance_to_triangle pt (vertex t 0) (vertex t 1) (vertex t 2)
                                    unused_inside).

End Triangle.

(** Modelled from the spec: the distance from a point to a plane given by a
    normal, and from a point to a segment, of the two absent headers; the
    spec calls them "closed-form formulas" of the kernel.  [diff] is the
    vector from a point of the plane to the query point; a point beyond an
    end of the segment is measured to that end. *)
Definition squared_distance_to_plane_model (normal diff : Vector_3) : FT :=
  let d := wdot normal diff in (d * d) / wdot normal normal.

Definition squared_distance_segment_model (pt : Point_3) (seg : Segment_3) : FT :=
  let diff := vector (ssource seg) pt in
  let segvec := vector (ssource seg) (starget seg) in
  let d := wdot diff segvec in
  if FT_le d 0 then wdot diff diff
  else
    let e := wdot segvec segvec in
    if FT_lt e d then
      let diff' := vector (starget seg) pt in wdot diff' diff'
    else
      let wcr := wcross segvec diff in wdot wcr wcr / e.

End Distance_3.

(** ** Kinetic shape reconstruction *)

Module KSR.

(** *** Index types

    Modelled from the spec: the descriptors of [KSR_3/Data_structure.h],
    which is not among the sources.  The spec asks for "arenas (stable
    indices)"; a [PVertex] and a [PFace] are "(support-plane index, local
    id)" pairs, and the driver reads the plane of a vertex as
    [pvertex.first]. *)
Definition size_t := nat.
Definition PVertex := (size_t * nat)%type.
Definition PFace := (size_t * nat)%type.
Definition IVertex := nat.
Definition IEdge := nat.
Definition Idx_set := list size_t.

Definition PVertex_eqb (a b : PVertex) : bool :=
  Nat.eqb (fst a) (fst b) && Nat.eqb (snd a) (snd b).
Definition IEdge_eqb (a b : IEdge) : bool := Nat.eqb a b.
Definition IVertex_eqb (a b : IVertex) : bool := Nat.eqb a b.

(** *** Two-dimensional kernel arithmetic

    Modelled from the spec: the kernel's "2D/3D point-vector-segment types"
    in Cartesian coordinates.  A [Bbox_2] of the library has [double]
    bounds that enclose the exact ones; here the bounds are exact. *)
Definition Vector_2_of (p q : Point_2) : Vector_2 :=
  mkVector_2 (p2x q - p2x p) (p2y q - p2y p).
Definition to_vector (s : Segment_2) : Vector_2 :=
  Vector_2_of (source_2 s) (target_2 s).
Definition dot_2 (u v : Vector_2) : FT := v2x u * v2x v + v2y u * v2y v.
Definition squared_distance_2 (p q : Point_2) : FT :=
  let v := Vector_2_of p q in dot_2 v v.
Definition squared_length (s : Segment_2) : FT :=
  squared_distance_2 (source_2 s) (target_2 s).
Definition Segment_2_bbox (s : Segment_2) : Bbox_2 :=
  mkBbox_2 (std_min (p2x (source_2 s)) (p2x (target_2 s)))
           (std_min (p2y (source_2 s)) (p2y (target_2 s)))
           (Qopp (std_min (Qopp (p2x (source_2 s))) (Qopp (p2x (target_2 s)))))
           (Qopp (std_min (Qopp (p2y (source_2 s))) (Qopp (p2y (target_2 s))))).
Definition do_overlap (a b : Bbox_2) : bool :=
  if FT_lt (bxmax a) (bxmin b) || FT_lt (bxmax b) (bxmin a) then false
  else if FT_lt (bymax a) (bymin b) || FT_lt (bymax b) (bymin a) then false
  else true.

(** Modelled from the spec: [CGAL::centroid] of a range of points, a
    uniform scaling and a translation ([Aff_transformation_3]), part of the
    kernel's point and vector arithmetic. *)
Definition centroid (ps : list Point_3) : Point_3 :=
  let n := inject_Z (Z.of_nat (List.length ps)) in
  mkPoint_3 (fold_right (fun p a => px p + a) 0 ps / n)
            (fold_right (fun p a => py p + a) 0 ps / n)
            (fold_right (fun p a => pz p + a) 0 ps / n).
Definition scale_transform (s : FT) (p : Point_3) : Point_3 :=
  mkPoint_3 (s * px p) (s * py p) (s * pz p).
Definition translate_transform (v : Vector_3) (p : Point_3) : Point_3 :=
  mkPoint_3 (px p + vx v) (py p + vy v) (pz p + vz v).
Definition Point_3_minus (a b : Point_3) : Vector_3 :=
  mkVector_3 (px a - px b) (py a - py b) (pz a - pz b).
Definition ORIGIN : Point_3 := mkPoint_3 0 0 0.

(** *** The kernel and the utilities of [KSR/utils.h]

    What the driver calls and the sources do not contain: the inexact square
    root, [KSR::intersection] of two segments (the [bool] result and the
    output point are an [option]), [KSR::distance], and [Bbox_3], whose
    bounds are [double]s and whose default value is the empty box. *)
Class Geom_traits : Type := {
  approximate_sqrt : FT -> FT;
  intersection : Segment_2 -> Segment_2 -> option Point_2;
  distance : Point_3 -> Point_3 -> FT;
  Bbox_3 : Type;
  Bbox_3_default : Bbox_3;
  bbox_3 : list Point_3 -> Bbox_3;
  Bbox_3_plus : Bbox_3 -> Bbox_3 -> Bbox_3;
  xmin : Bbox_3 -> FT;
  ymin : Bbox_3 -> FT;
  zmin : Bbox_3 -> FT;
  xmax : Bbox_3 -> FT;
  ymax : Bbox_3 -> FT;
  zmax : Bbox_3 -> FT
}.

(** *** The interface of [KSR_3::Data_structure] and [Polygon_splitter]

    Neither header is among the sources.  The driver is embedded over the
    member functions it calls: [const] queries are functions of the data,
    mutators return the new data next to their result.  A reference
    returned by [m_data.k(pface)] is a getter and a setter. *)
Class Data_structure : Type := {
  Data : Type;
  null_pvertex : PVertex;
  null_iedge : IEdge;
  null_ivertex : IVertex;
  (* sizes and ranges *)
  number_of_support_planes : Data -> size_t;
  ivertices : Data -> list IVertex;
  iedges : Data -> list IEdge;
  iedges_of : Data -> size_t -> list IEdge;
  pvertices : Data -> size_t -> list PVertex;
  pfaces : Data -> size_t -> list PFace;
  (* intersection graph *)
  is_mesh_valid : Data -> size_t -> bool;
  intersected_planes : Data -> IEdge -> Idx_set;
  intersected_planes_of_ivertex : Data -> IVertex -> bool -> Idx_set;
  source : Data -> IEdge -> IVertex;
  target : Data -> IEdge -> IVertex;
  is_active_ivertex : Data -> IVertex -> bool;
  is_active_iedge : Data -> IEdge -> bool;
  point_3_of_ivertex : Data -> IVertex -> Point_3;
  segment_2 : Data -> size_t -> IEdge -> Segment_2;
  to_2d_ivertex : Data -> size_t -> IVertex -> Point_2;
  to_2d_segment : Data -> size_t -> Segment_3 -> Segment_2;
  to_3d : Data -> size_t -> Point_2 -> Point_3;
  (* polygon vertices *)
  is_frozen : Data -> PVertex -> bool;
  is_active : Data -> PVertex -> bool;
  has_iedge : Data -> PVertex -> bool;
  iedge_of : Data -> PVertex -> IEdge;
  prev : Data -> PVertex -> PVertex;
  next : Data -> PVertex -> PVertex;
  prev_and_next : Data -> PVertex -> PVertex * PVertex;
  border_prev_and_next : Data -> PVertex -> PVertex * PVertex;
  point_2 : Data -> PVertex -> FT -> Point_2;
  speed : Data -> PVertex -> FT;
  pface_of_pvertex : Data -> PVertex -> PFace;
  pvertices_around_ivertex : Data -> PVertex -> IVertex -> list PVertex;
  collision_occured : Data -> PVertex -> IEdge -> bool * bool;
  is_occupied : Data -> PVertex -> IEdge -> bool * bool;
  current_time : Data -> FT;
  (* the crossing budget of a face: [m_data.k(pface)] read and written *)
  pface_k : Data -> PFace -> N;
  set_pface_k : PFace -> N -> Data -> Data;
  (* mutators *)
  reserve : nat -> Data -> Data;
  add_bbox_polygon : list Point_3 -> Data -> Data;
  add_input_polygon : list Point_3 -> size_t -> Data -> Data;
  add_ivertex : Point_3 -> Idx_set -> Data -> IVertex * Data;
  add_iedge : Idx_set -> list IVertex -> Data -> Data;
  split_support_plane : size_t -> Data -> Data;
  check_bbox : Data -> Data;
  update_positions : FT -> Data -> Data;
  deactivate : PVertex -> Data -> Data;
  activate : PVertex -> Data -> Data;
  set_last_event_time : PVertex -> FT -> Data -> Data;
  transfer_vertex : PVertex -> PVertex -> Data -> bool * Data;
  crop_polygon : PVertex -> IEdge -> Data -> PVertex * Data;
  crop_polygon_pair : PVertex -> PVertex -> IEdge -> Data -> Data;
  propagate_polygon : N -> PVertex -> IEdge -> Data -> list PVertex * Data;
  propagate_polygon_pair :
    N -> PVertex -> PVertex -> IEdge -> Data -> (PVertex * PVertex) * Data;
  merge_pvertices_on_ivertex :
    FT -> FT -> list PVertex -> IVertex -> Data ->
    (list PVertex * list IEdge) * Data
}.

(** *** Events and the event queue

    Modelled from the spec: [KSR_3/Event.h] and [KSR_3/Event_queue.h] are
    not among the sources.  An event is "a closed sum type" of three kinds
    that "carries the participants and a scalar event time"; the first
    constructor argument of the source ([true] for a constrained vertex) is
    kept.  The queue is a "multiset of Events ordered by time" with
    "insertion, extraction-of-minimum, and bulk erase of all events
    referencing a given PVertex or a given (IEdge, support-plane) pair": a
    list in insertion order whose [pop] takes the first event of least
    time. *)
Inductive Event : Type :=
| pvertex_to_pvertex (is_constrained : bool) (pvertex pother : PVertex) (time : FT)
| pvertex_to_iedge (is_constrained : bool) (pvertex : PVertex) (iedge : IEdge) (time : FT)
| pvertex_to_ivertex (is_constrained : bool) (pvertex : PVertex) (ivertex : IVertex) (time : FT).

Definition ev_pvertex (e : Event) : PVertex :=
  match e with
  | pvertex_to_pvertex _ pv _ _ => pv
  | pvertex_to_iedge _ pv _ _ => pv
  | pvertex_to_ivertex _ pv _ _ => pv
  end.

Definition ev_time (e : Event) : FT :=
  match e with
  | pvertex_to_pvertex _ _ _ t => t
  | pvertex_to_iedge _ _ _ t => t
  | pvertex_to_ivertex _ _ _ t => t
  end.

Definition is_pvertex_to_ivertex (e : Event) : bool :=
  match e with pvertex_to_ivertex _ _ _ _ => true | _ => false end.

Definition Event_queue := list Event.

Definition push (e : Event) (q : Event_queue) : Event_queue := q ++ [e].

Definition empty (q : Event_queue) : bool :=
  match q with [] => true | _ => false end.

Fixpoint pop_min (e : Event) (q : Event_queue) : Event * Event_queue :=
  match q with
  | [] => (e, [])
  | e' :: r =>
      let '(m, rest) := pop_min e' r in
      if FT_lt (ev_time m) (ev_time e) then (m, e :: rest) else (e, e' :: r)
  end.

Definition pop (q : Event_queue) : option (Event * Event_queue) :=
  match q with
  | [] => None
  | e :: r => Some (pop_min e r)
  end.

Definition references_pvertex (pv : PVertex) (e : Event) : bool :=
  match e with
  | pvertex_to_pvertex _ p o _ => PVertex_eqb p pv || PVertex_eqb o pv
  | pvertex_to_iedge _ p _ _ => PVertex_eqb p pv
  | pvertex_to_ivertex _ p _ _ => PVertex_eqb p pv
  end.

Definition references_iedge (ie : IEdge) (support_plane_idx : size_t) (e : Event) : bool :=
  match e with
  | pvertex_to_iedge _ p i _ => IEdge_eqb i ie && Nat.eqb (fst p) support_plane_idx
  | _ => false
  end.

Definition erase_vertex_events (pv : PVertex) (q : Event_queue) : Event_queue :=
  filter (fun e => negb (references_pvertex pv e)) q.

Definition erase_iedge_events (ie : IEdge) (support_plane_idx : size_t)
    (q : Event_queue) : Event_queue :=
  filter (fun e => negb (references_iedge ie support_plane_idx e)) q.

(** *** The state of a [Kinetic_shape_reconstruction_3] object and the
    control effects of its member functions

    [World] holds the data members; [warnings] collects the messages of
    failed [CGAL_warning_msg] checks, the only output that is modelled
    (neither [std::cout] nor the [dump] files are).  A member function runs
    in [M]: it returns, ends the process through [exit], or stops at a
    failed [CGAL_assertion]; assertions are checked, as in a build without
    [NDEBUG].  [OutOfFuel] is the model's answer when a [while] loop is cut
    off by the bound on its iterations. *)
Section State.

Context {DS : Data_structure}.

Record World : Type := mkWorld {
  m_data : Data;
  m_queue : Event_queue;
  m_min_time : FT;
  m_max_time : FT;
  m_verbose : bool;
  warnings : list string
}.

Inductive Outcome (A : Type) : Type :=
| Returned (a : A) (w : World)
| Exited (status : Z) (w : World)
| AssertionFailed (msg : string) (w : World)
| OutOfFuel.

Arguments Returned {A} a w.
Arguments Exited {A} status w.
Arguments AssertionFailed {A} msg w.
Arguments OutOfFuel {A}.

(** The state an outcome leaves behind, when there is one. *)
Definition final_world {A : Type} (o : Outcome A) : option World :=
  match o with
  | Returned _ w => Some w
  | Exited _ w => Some w
  | AssertionFailed _ w => Some w
  | OutOfFuel => None
  end.

Definition M (A : Type) : Type := World -> Outcome A.

Definition ret {A : Type} (a : A) : M A := fun w => Returned a w.

Definition bind {A B : Type} (m : M A) (f : A -> M B) : M B :=
  fun w =>
    match m w with
    | Returned a w' => f a w'
    | Exited s w' => Exited s w'
    | AssertionFailed msg w' => AssertionFailed msg w'
    | OutOfFuel => OutOfFuel
    end.

Definition with_data (d : Data) (w : World) : World :=
  mkWorld d (m_queue w) (m_min_time w) (m_max_time w) (m_verbose w) (warnings w).
Definition with_queue (q : Event_queue) (w : World) : World :=
  mkWorld (m_data w) q (m_min_time w) (m_max_time w) (m_verbose w) (warnings w).
Definition with_min_time (t : FT) (w : World) : World :=
  mkWorld (m_data w) (m_queue w) t (m_max_time w) (m_verbose w) (warnings w).
Definition with_max_time (t : FT) (w : World) : World :=
  mkWorld (m_data w) (m_queue w) (m_min_time w) t (m_verbose w) (warnings w).
Definition with_warning (msg : string) (w : World) : World :=
  mkWorld (m_data w) (m_queue w) (m_min_time w) (m_max_time w) (m_verbose w)
          (warnings w ++ [msg]).

Definition get : M World := fun w => Returned w w.
Definition modify (f : World -> World) : M unit := fun w => Returned tt (f w).

(** A mutator of [m_data] without a result, and one with a result. *)
Definition data_do (f : Data -> Data) : M unit :=
  modify (fun w => with_data (f (m_data w)) w).
Definition data_call {A : Type} (f : Data -> A * Data) : M A :=
  fun w => let '(a, d) := f (m_data w) in Returned a (with_data d w).

(** [exit(status)], [CGAL_assertion(_msg)] and [CGAL_warning_msg]. *)
Definition exit {A : Type} (status : Z) : M A := fun w => Exited status w.
Definition EXIT_SUCCESS : Z := 0%Z.
Definition CGAL_assertion_msg (cond : bool) (msg : string) : M unit :=
  fun w => if cond then Returned tt w else AssertionFailed msg w.
Definition CGAL_warning_msg (cond : bool) (msg : string) : M unit :=
  fun w => if cond then Returned tt w else Returned tt (with_warning msg w).

Fixpoint for_each {A : Type} (l : list A) (body : A -> M unit) : M unit :=
  match l with
  | [] => ret tt
  | x :: r => bind (body x) (fun _ => for_each r body)
  end.

End State.

Arguments Returned {DS A} a w.
Arguments Exited {DS A} status w.
Arguments AssertionFailed {DS A} msg w.
Arguments OutOfFuel {DS A}.

Declare Scope ksr_scope.
Delimit Scope ksr_scope with ksr.
Notation "x <- c ;; k" := (bind c (fun x => k))
  (at level 61, c at next level, right associativity) : ksr_scope.
Notation "' p <- c ;; k" := (bind c (fun p => k))
  (at level 61, p pattern, c at next level, right associativity) : ksr_scope.
Notation "c ;; k" := (bind c (fun _ => k))
  (at level 61, right associativity) : ksr_scope.
Local Open Scope ksr_scope.

(** *** The member functions of [Kinetic_shape_reconstruction_3] *)

Section Driver.

Context {GT : Geom_traits} {DS : Data_structure}.

Definition CGAL_assertion (cond : bool) (expr : string) : M unit :=
  CGAL_assertion_msg cond expr.

Definition set_min_time (t : FT) : M unit := modify (with_min_time t).
Definition set_max_time (t : FT) : M unit := modify (with_max_time t).

(** [m_queue.push(ev)]. *)
Definition push_event (e : Event) : M unit :=
  modify (fun w => with_queue (push e (m_queue w)) w).

(** The two overloads of [remove_events]. *)
Definition remove_events (pvertex : PVertex) : M unit :=
  modify (fun w => with_queue (erase_vertex_events pvertex (m_queue w)) w).
Definition remove_events_of_iedge (iedge : IEdge) (support_plane_idx : size_t) : M unit :=
  modify (fun w => with_queue (erase_iedge_events iedge support_plane_idx (m_queue w)) w).

(** [init_search_structures]: the three vectors it fills are empty at every
    call, so they are its result. *)
Definition init_search_structures (d : Data) (i : size_t)
    : list IEdge * list Segment_2 * list Bbox_2 :=
  let iedges := iedges_of d i in
  let segments_2 := map (segment_2 d i) iedges in
  (iedges, segments_2, map Segment_2_bbox segments_2).

(** [compute_events_of_vertex], constrained vertex, body of the loop over
    [{ prev, next }] (lines 624-649). *)
Definition events_with_neighbour (d : Data) (min_time max_time : FT)
    (pvertex : PVertex) (sv : Segment_2) (sv_bbox : Bbox_2) (pother : PVertex)
    : M unit :=
  if PVertex_eqb pother null_pvertex
     || negb (is_active d pother)
     || has_iedge d pother
  then ret tt
  else
    let so := mkSegment_2 (point_2 d pother min_time) (point_2 d pother max_time) in
    let so_bbox := Segment_2_bbox so in
    if negb (do_overlap sv_bbox so_bbox) then ret tt
    else
      match intersection sv so with
      | None => ret tt
      | Some point =>
          let dist := approximate_sqrt (squared_distance_2 (source_2 sv) point) in
          let time := dist / speed d pvertex in
          push_event (pvertex_to_pvertex true pvertex pother (min_time + time))
      end.

(** Constrained vertex, body of the loop over the end vertices of its
    intersection edge (lines 653-670). *)
Definition events_with_end_vertex (d : Data) (min_time max_time : FT)
    (pvertex : PVertex) (sv : Segment_2) (ivertex : IVertex) : M unit :=
  if negb (is_active_ivertex d ivertex) then ret tt
  else
    let pi := to_2d_ivertex d (fst pvertex) ivertex in
    if FT_lt (dot_2 (to_vector sv) (Vector_2_of (source_2 sv) pi)) 0 then ret tt
    else
      let dist := approximate_sqrt (squared_distance_2 (source_2 sv) pi) in
      let time := dist / speed d pvertex in
      if FT_lt time (max_time - min_time)
      then push_event (pvertex_to_ivertex true pvertex ivertex (min_time + time))
      else ret tt.

(** Free vertex, body of the loop over the intersection edges of the plane
    (lines 678-702); [seg] and [seg_bbox] are [segments_2[j]] and
    [segment_bboxes[j]]. *)
Definition events_with_iedge (d : Data) (min_time : FT)
    (pvertex pprev pnext : PVertex) (sv : Segment_2) (sv_bbox : Bbox_2)
    (j : IEdge * (Segment_2 * Bbox_2)) : M unit :=
  let '(iedge, (seg, seg_bbox)) := j in
  if IEdge_eqb (iedge_of d pprev) iedge || IEdge_eqb (iedge_of d pnext) iedge
  then ret tt
  else if negb (is_active_iedge d iedge) then ret tt
  else if negb (do_overlap sv_bbox seg_bbox) then ret tt
  else
    match intersection sv seg with
    | None => ret tt
    | Some point =>
        let dist :=
          approximate_sqrt (squared_distance_2 (point_2 d pvertex min_time) point) in
        let time := dist / speed d pvertex in
        push_event (pvertex_to_iedge false pvertex iedge (min_time + time))
    end.

(** [compute_events_of_vertex].  The three vectors have one entry per
    intersection edge ([init_search_structures] builds them so); the loop
    over [j] walks them together. *)
Definition compute_events_of_vertex (pvertex : PVertex)
    (iedges : list IEdge) (segments_2 : list Segment_2)
    (segment_bboxes : list Bbox_2) : M bool :=
  w <- get ;;
  let d := m_data w in
  if is_frozen d pvertex then ret false
  else
    let sv := mkSegment_2 (point_2 d pvertex (m_min_time w))
                          (point_2 d pvertex (m_max_time w)) in
    let sv_bbox := Segment_2_bbox sv in
    (if has_iedge d pvertex then
       let '(pprev, pnext) := prev_and_next d pvertex in
       for_each [pprev; pnext]
         (events_with_neighbour d (m_min_time w) (m_max_time w) pvertex sv sv_bbox) ;;
       let iedge := iedge_of d pvertex in
       for_each [source d iedge; target d iedge]
         (events_with_end_vertex d (m_min_time w) (m_max_time w) pvertex sv)
     else
       let pprev := prev d pvertex in
       let pnext := next d pvertex in
       for_each (combine iedges (combine segments_2 segment_bboxes))
         (events_with_iedge d (m_min_time w) pvertex pprev pnext sv sv_bbox)) ;;
    ret true.

(** [are_parallel]. *)
Definition are_parallel (seg1 seg2 : Segment_2) : bool :=
  let tol := 1 / 100000 in
  let d1 := p2x (target_2 seg1) - p2x (source_2 seg1) in
  let d2 := p2x (target_2 seg2) - p2x (source_2 seg2) in
  let m1 := if FT_lt tol (Qabs d1)
            then (p2y (target_2 seg1) - p2y (source_2 seg1)) / d1 else 100000 in
  let m2 := if FT_lt tol (Qabs d2)
            then (p2y (target_2 seg2) - p2y (source_2 seg2)) / d2 else 100000 in
  if FT_lt (Qabs (m1 - m2)) tol then true else false.

(** [compute_events_of_vertices].  [pvertices.front()] of an empty range is
    undefined in the source; every caller passes a non-empty one. *)
Definition compute_events_of_vertices (last_event_time : FT)
    (pvertices : list PVertex) : M unit :=
  w <- get ;;
  set_min_time (current_time (m_data w)) ;;
  data_do (update_positions (m_max_time w)) ;;
  w <- get ;;
  let '(iedges, segments_2, segment_bboxes) :=
    init_search_structures (m_data w) (fst (hd null_pvertex pvertices)) in
  for_each pvertices (fun pvertex => data_do (deactivate pvertex)) ;;
  for_each pvertices (fun pvertex =>
    data_do (set_last_event_time pvertex last_event_time) ;;
    _ <- compute_events_of_vertex pvertex iedges segments_2 segment_bboxes ;;
    ret tt) ;;
  for_each pvertices (fun pvertex => data_do (activate pvertex)) ;;
  w <- get ;;
  data_do (update_positions (m_min_time w)).

(** [apply], event [pvertex_to_iedge]: the block run for a neighbour
    [pother] whose common boundary edge is parallel to the intersection
    edge (lines 849-908). *)
Definition two_vertex_crossing (time : FT) (pvertex pother : PVertex)
    (iedge : IEdge) (pface : PFace) : M unit :=
  remove_events pvertex ;;
  remove_events pother ;;
  w <- get ;;
  let d := m_data w in
  let '(collision, bbox_reached) := collision_occured d pvertex iedge in
  let '(collision_other, bbox_reached_other) := collision_occured d pother iedge in
  stop <-
    (if bbox_reached then
       CGAL_assertion bbox_reached_other "bbox_reached_other" ;;
       ret true
     else if bbox_reached_other then
       CGAL_assertion bbox_reached "bbox_reached" ;;
       ret true
     else if (collision || collision_other) && N.eqb (pface_k d pface) 1 then
       ret true
     else if (collision || collision_other) && N.ltb 1 (pface_k d pface) then
       data_do (set_pface_k pface (N.pred (pface_k d pface))) ;;
       ret false
     else
       CGAL_assertion (IEdge_eqb (iedge_of d pvertex) (iedge_of d pother))
         "m_data.iedge(pvertex) == m_data.iedge(pother)" ;;
       (if fst (is_occupied d pvertex iedge)
        then CGAL_assertion_msg false
               "TODO: TWO PVERTICES SNEAK ON THE OTHER SIDE EVEN WHEN WE HAVE A POLYGON!"
        else ret tt) ;;
       ret false) ;;
  w <- get ;;
  CGAL_assertion (N.leb 1 (pface_k (m_data w) pface)) "m_data.k(pface) >= 1" ;;
  if stop then
    data_do (crop_polygon_pair pvertex pother iedge) ;;
    remove_events_of_iedge iedge (fst pvertex) ;;
    compute_events_of_vertices time [pvertex; pother]
  else
    ' (pv0, pv1) <-
      data_call (propagate_polygon_pair (pface_k (m_data w) pface) pvertex pother iedge) ;;
    remove_events_of_iedge iedge (fst pvertex) ;;
    compute_events_of_vertices time [pvertex; pother; pv0; pv1].

(** The loop over [{ prev, next }] (lines 834-913); its result is the flag
    [done].  The loop does not change [m_data] before it breaks, so the
    segments are read from the data [d] of its start. *)
Fixpoint parallel_neighbour_loop (d : Data) (time : FT) (pvertex : PVertex)
    (iedge : IEdge) (pface : PFace) (seg_edge : Segment_2)
    (pothers : list PVertex) : M bool :=
  match pothers with
  | [] => ret false
  | pother :: rest =>
      let seg := mkSegment_2 (point_2 d pother time) (point_2 d pvertex time) in
      CGAL_assertion (negb (FT_eq (squared_length seg) 0))
        "seg.squared_length() != 0" ;;
      let both_are_free :=
        if negb (IEdge_eqb (iedge_of d pvertex) null_iedge)
           || negb (IEdge_eqb (iedge_of d pother) null_iedge)
        then false else true in
      if both_are_free && are_parallel seg seg_edge then
        two_vertex_crossing time pvertex pother iedge pface ;;
        ret true
      else
        parallel_neighbour_loop d time pvertex iedge pface seg_edge rest
  end.

(** The block run when no neighbour was handled together with [pvertex]
    (lines 917-957). *)
Definition single_vertex_crossing (time : FT) (pvertex : PVertex)
    (iedge : IEdge) (pface : PFace) : M unit :=
  remove_events pvertex ;;
  w <- get ;;
  let d := m_data w in
  let '(collision, bbox_reached) := collision_occured d pvertex iedge in
  stop <-
    (if bbox_reached then ret true
     else if collision && N.eqb (pface_k d pface) 1 then ret true
     else if collision && N.ltb 1 (pface_k d pface) then
       data_do (set_pface_k pface (N.pred (pface_k d pface))) ;;
       ret false
     else ret false) ;;
  w <- get ;;
  CGAL_assertion (N.leb 1 (pface_k (m_data w) pface)) "m_data.k(pface) >= 1" ;;
  if stop then
    pvnew <- data_call (crop_polygon pvertex iedge) ;;
    remove_events_of_iedge iedge (fst pvertex) ;;
    compute_events_of_vertices time [pvertex; pvnew]
  else
    pvnew <- data_call (propagate_polygon (pface_k (m_data w) pface) pvertex iedge) ;;
    remove_events_of_iedge iedge (fst pvertex) ;;
    compute_events_of_vertices time pvnew.

(** Event [pvertex_to_pvertex], a constrained vertex meets a free one
    (lines 794-821). *)
Definition constrained_meets_free (time : FT) (pvertex pother : PVertex) : M unit :=
  transferred <- data_call (transfer_vertex pvertex pother) ;;
  if transferred : bool then
    w <- get ;;
    (if has_iedge (m_data w) pvertex
     then remove_events_of_iedge (iedge_of (m_data w) pvertex) (fst pvertex)
     else ret tt) ;;
    (if has_iedge (m_data w) pother
     then remove_events_of_iedge (iedge_of (m_data w) pother) (fst pother)
     else ret tt) ;;
    compute_events_of_vertices time [pvertex; pother] ;;
    w <- get ;;
    let '(pprev, pnext) := border_prev_and_next (m_data w) pvertex in
    let pthird := if PVertex_eqb pprev pother then pnext else pprev in
    (if PVertex_eqb pprev pother then ret tt
     else CGAL_assertion (PVertex_eqb pnext pother) "next == pother") ;;
    (if has_iedge (m_data w) pthird
     then remove_events_of_iedge (iedge_of (m_data w) pthird) (fst pthird)
     else ret tt) ;;
    compute_events_of_vertices time [pthird]
  else
    w <- get ;;
    (if has_iedge (m_data w) pvertex
     then remove_events_of_iedge (iedge_of (m_data w) pvertex) (fst pvertex)
     else ret tt) ;;
    compute_events_of_vertices time [pvertex].

(** [apply].  The parameter [k] is not read by the body.  The last [else]
    of the source, an event of no kind, has no counterpart in [Event].  In
    the third branch the loop runs over the indices [1 <= i < size - 1],
    the interior of [pvertices] (undefined in the source when the range is
    empty, where [size - 1] wraps around). *)
Definition apply (k : N) (ev : Event) : M unit :=
  match ev with
  | pvertex_to_pvertex _ pvertex pother time =>
      remove_events pvertex ;;
      remove_events pother ;;
      w <- get ;;
      CGAL_assertion (has_iedge (m_data w) pvertex) "m_data.has_iedge(pvertex)" ;;
      if has_iedge (m_data w) pother then
        CGAL_assertion_msg false "TODO: ADD CASE TWO CONSTRAINED PVERTICES MEET!"
      else
        constrained_meets_free time pvertex pother
  | pvertex_to_iedge _ pvertex iedge time =>
      w <- get ;;
      let d := m_data w in
      let pprev := prev d pvertex in
      let pnext := next d pvertex in
      let pface := pface_of_pvertex d pvertex in
      let seg_edge := segment_2 d (fst pvertex) iedge in
      done <- parallel_neighbour_loop d time pvertex iedge pface seg_edge
                [pprev; pnext] ;;
      if negb done then single_vertex_crossing time pvertex iedge pface
      else ret tt
  | pvertex_to_ivertex _ pvertex ivertex time =>
      w <- get ;;
      let pvertices := pvertices_around_ivertex (m_data w) pvertex ivertex in
      for_each (removelast (tl pvertices)) remove_events ;;
      ' (new_pvertices, crossed) <-
        data_call (merge_pvertices_on_ivertex (m_min_time w) (m_max_time w)
                     pvertices ivertex) ;;
      for_each crossed (fun iedge => remove_events_of_iedge iedge (fst pvertex)) ;;
      CGAL_assertion (Nat.ltb 0 (List.length new_pvertices))
        "new_pvertices.size() > 0" ;;
      compute_events_of_vertices time new_pvertices
  end.

(** A loop that carries a value through its iterations. *)
Fixpoint fold_each {A S : Type} (l : list A) (body : A -> S -> M S) (s : S) : M S :=
  match l with
  | [] => ret s
  | x :: r => s' <- body x s ;; fold_each r body s'
  end.

(** [check_integrity]: the first violation in the order of the loops, if
    any.  The messages of the source also name the plane and the edge. *)
Definition support_plane_violation (d : Data) (i : size_t) : option string :=
  if negb (is_mesh_valid d i) then Some "ERROR: mesh is not valid!"
  else if existsb (fun iedge => negb (existsb (Nat.eqb i) (intersected_planes d iedge)))
                  (iedges_of d i)
  then Some "ERROR: support_plane is intersected by an iedge but it claims it does not intersect it!"
  else None.

Definition iedge_violation (d : Data) (iedge : IEdge) : option string :=
  if existsb (fun support_plane_idx =>
                negb (existsb (IEdge_eqb iedge) (iedges_of d support_plane_idx)))
             (intersected_planes d iedge)
  then Some "ERROR: iedge intersects a support plane but it claims it is not intersected by it!"
  else None.

Fixpoint first_violation {A : Type} (f : A -> option string) (l : list A)
    : option string :=
  match l with
  | [] => None
  | x :: r => match f x with Some msg => Some msg | None => first_violation f r end
  end.

Definition check_integrity : M bool :=
  w <- get ;;
  let d := m_data w in
  let violation :=
    match first_violation (support_plane_violation d)
            (seq 0 (number_of_support_planes d)) with
    | Some msg => Some msg
    | None => first_violation (iedge_violation d) (iedges d)
    end in
  match violation with
  | Some msg =>
      (if m_verbose w then CGAL_assertion_msg false msg else ret tt) ;;
      ret false
  | None => ret true
  end.

(** [set_k_intersections]. *)
Definition set_k_intersections (k : N) : M unit :=
  data_do (fun d =>
    fold_left (fun d i =>
                 fold_left (fun d pface => set_pface_k pface k d) (pfaces d i) d)
              (seq 0 (number_of_support_planes d)) d).

(** [initialize_queue]: the body of the loop over the support planes, and
    the function. *)
Definition initialize_queue_of_plane (i : size_t) (still_running : bool) : M bool :=
  w <- get ;;
  let '(iedges, segments_2, segment_bboxes) := init_search_structures (m_data w) i in
  fold_each (pvertices (m_data w) i)
    (fun pvertex still_running =>
       found <- compute_events_of_vertex pvertex iedges segments_2 segment_bboxes ;;
       ret (if found : bool then true else still_running))
    still_running.

Definition initialize_queue : M bool :=
  w <- get ;;
  data_do (update_positions (m_max_time w)) ;;
  w <- get ;;
  still_running <-
    fold_each (seq 0 (number_of_support_planes (m_data w)))
              initialize_queue_of_plane false ;;
  w <- get ;;
  data_do (update_positions (m_min_time w)) ;;
  ret still_running.

(** [run]: at most [fuel] events are unstacked. *)
Fixpoint run (fuel : nat) (k : N) : M unit :=
  w <- get ;;
  match pop (m_queue w) with
  | None => ret tt
  | Some (ev, q) =>
      match fuel with
      | O => fun _ => OutOfFuel
      | S fuel' =>
          modify (with_queue q) ;;
          let current_time := ev_time ev in
          data_do (update_positions current_time) ;;
          apply k ev ;;
          _ <- check_integrity ;;
          run fuel' k
      end
  end.

(** The [while (initialize_queue())] loop of [partition]: at most [fuel]
    time windows, each with at most [fuel] events. *)
Fixpoint propagation_loop (fuel : nat) (k : N) (time_step : FT) : M unit :=
  still_running <- initialize_queue ;;
  if still_running : bool then
    match fuel with
    | O => fun _ => OutOfFuel
    | S fuel' =>
        run fuel k ;;
        w <- get ;;
        set_min_time (m_max_time w) ;;
        set_max_time (m_max_time w + time_step) ;;
        _ <- check_integrity ;;
        propagation_loop fuel' k time_step
    end
  else ret tt.

(** [make_polygons_intersection_free].  A [KSR::Idx_set] is a sorted list
    without repetition; [std::map] keeps its keys in the lexicographic
    order of the sets. *)
Fixpoint Idx_set_compare (a b : Idx_set) : comparison :=
  match a, b with
  | [], [] => Eq
  | [], _ :: _ => Lt
  | _ :: _, [] => Gt
  | x :: a', y :: b' =>
      match Nat.compare x y with
      | Eq => Idx_set_compare a' b'
      | c => c
      end
  end.

Fixpoint Idx_set_insert (x : size_t) (s : Idx_set) : Idx_set :=
  match s with
  | [] => [x]
  | y :: r =>
      match Nat.compare x y with
      | Lt => x :: s
      | Eq => s
      | Gt => y :: Idx_set_insert x r
      end
  end.

Definition Map_p2vv := list (Idx_set * (IVertex * IVertex)).

(** [map_p2vv.insert(make_pair(key, make_pair(ivertex, IVertex())))], and
    the update of the second vertex when the key is there already. *)
Fixpoint register_ivertex (key : Idx_set) (ivertex : IVertex) (m : Map_p2vv)
    : Map_p2vv :=
  match m with
  | [] => [(key, (ivertex, null_ivertex))]
  | (key', (v1, v2)) :: r =>
      match Idx_set_compare key key' with
      | Lt => (key, (ivertex, null_ivertex)) :: m
      | Eq => (key', (v1, ivertex)) :: r
      | Gt => (key', (v1, v2)) :: register_ivertex key ivertex r
      end
  end.

(** The output iterator of [std::set_intersection] overwrites
    [common_plane_idx] with every common index: the last one remains, and
    [KSR::no_element()] when there is none. *)
Definition common_plane_idx (set_a set_b : Idx_set) : option size_t :=
  fold_left (fun acc idx => if existsb (Nat.eqb idx) set_b then Some idx else acc)
            set_a None.

(** The loop over [it_b] for one [it_a] (lines 493-527). *)
Definition cross_lines (a b : Idx_set * (IVertex * IVertex))
    (st : list IVertex * list Idx_set * Data) : list IVertex * list Idx_set * Data :=
  let '(crossed_vertices, done, d) := st in
  match common_plane_idx (fst a) (fst b) with
  | None => st
  | Some common =>
      let union_set := fold_left (fun s x => Idx_set_insert x s) (fst b) (fst a) in
      if existsb (fun s => match Idx_set_compare s union_set with Eq => true | _ => false end)
                 done
      then st
      else
        let done := union_set :: done in
        let seg_of (vv : IVertex * IVertex) :=
          to_2d_segment d common
            (mkSegment_3 (point_3_of_ivertex d (fst vv)) (point_3_of_ivertex d (snd vv))) in
        match intersection (seg_of (snd a)) (seg_of (snd b)) with
        | None => (crossed_vertices, done, d)
        | Some inter =>
            let '(ivertex, d') := add_ivertex (to_3d d common inter) union_set d in
            (crossed_vertices ++ [ivertex], done, d')
        end
  end.

Definition make_polygons_intersection_free : M unit :=
  data_do (fun d =>
    let map_p2vv :=
      fold_left (fun m ivertex =>
                   let key := intersected_planes_of_ivertex d ivertex false in
                   if Nat.ltb (List.length key) 2 then m
                   else register_ivertex key ivertex m)
                (ivertices d) [] in
    let '(todo, d) :=
      fold_left (fun '(todo, d) a =>
                   let '(crossed_vertices, _, d') :=
                     fold_left (fun st b => cross_lines a b st) map_p2vv
                               ([fst (snd a)], [], d) in
                   (todo ++ [(fst a, crossed_vertices ++ [snd (snd a)])], d'))
                map_p2vv ([], d) in
    let d := fold_left (fun d t => add_iedge (fst t) (snd t) d) todo d in
    fold_left (fun d i => split_support_plane i d)
              (seq 0 (number_of_support_planes d)) d).

(** The bounding box is a [std::array<Point_3, 8>]. *)
Definition initialize_optimal_box : M (list Point_3) :=
  CGAL_assertion_msg false "TODO: IMPLEMENT THE ORIENTED OPTIMAL BBOX!" ;;
  ret (repeat ORIGIN 8).

Definition initialize_axis_aligned_box {Item : Type} (input_range : list Item)
    (polygon_map : Item -> list Point_3) : list Point_3 :=
  let box := fold_left (fun box item => Bbox_3_plus box (bbox_3 (polygon_map item)))
                       input_range Bbox_3_default in
  [ mkPoint_3 (xmin box) (ymin box) (zmin box);
    mkPoint_3 (xmax box) (ymin box) (zmin box);
    mkPoint_3 (xmax box) (ymax box) (zmin box);
    mkPoint_3 (xmin box) (ymax box) (zmin box);
    mkPoint_3 (xmin box) (ymax box) (zmax box);
    mkPoint_3 (xmin box) (ymin box) (zmax box);
    mkPoint_3 (xmax box) (ymin box) (zmax box);
    mkPoint_3 (xmax box) (ymax box) (zmax box) ].

Definition enlarge_bounding_box (enlarge_bbox_ratio : FT) (bbox : list Point_3)
    : M (list Point_3) :=
  CGAL_assertion_msg (FT_lt 1 enlarge_bbox_ratio)
    "TODO: HANDLE THE CASE ENLARGE_BBOX_RATIO = FT(1)" ;;
  let a := centroid bbox in
  let bbox := map (scale_transform enlarge_bbox_ratio) bbox in
  let b := centroid bbox in
  ret (map (translate_transform (Point_3_minus a b)) bbox).

Definition create_bounding_box {Item : Type} (input_range : list Item)
    (polygon_map : Item -> list Point_3) (enlarge_bbox_ratio : FT)
    (reorient : bool) : M (list Point_3 * FT) :=
  bbox <- (if reorient then initialize_optimal_box
           else ret (initialize_axis_aligned_box input_range polygon_map)) ;;
  CGAL_assertion (Nat.eqb (List.length bbox) 8) "bbox.size() == 8" ;;
  let time_step := distance (hd ORIGIN bbox) (last bbox ORIGIN) / 50 in
  bbox <- enlarge_bounding_box enlarge_bbox_ratio bbox ;;
  ret (bbox, time_step).

(** [bounding_box_to_polygons]: the six faces; the assertion that there are
    six of them cannot fail. *)
Definition bounding_box_to_polygons (bbox : list Point_3) : list (list Point_3) :=
  let b i := nth i bbox ORIGIN in
  [ [b 0; b 1; b 2; b 3]; [b 0; b 1; b 6; b 5]; [b 1; b 2; b 7; b 6];
    [b 2; b 3; b 4; b 7]; [b 3; b 0; b 5; b 4]; [b 5; b 6; b 7; b 4] ]%nat.

Definition add_bbox_faces (bbox_faces : list (list Point_3)) : M unit :=
  for_each bbox_faces (fun bbox_face => data_do (add_bbox_polygon bbox_face)) ;;
  w <- get ;;
  CGAL_assertion (Nat.eqb (number_of_support_planes (m_data w)) 6)
    "m_data.number_of_support_planes() == 6" ;;
  CGAL_assertion (Nat.eqb (List.length (ivertices (m_data w))) 8)
    "m_data.ivertices().size() == 8" ;;
  CGAL_assertion (Nat.eqb (List.length (iedges (m_data w))) 12)
    "m_data.iedges().size() == 12".

Definition add_input_polygons {Item : Type} (input_range : list Item)
    (polygon_map : Item -> list Point_3) : M unit :=
  _ <- fold_each input_range
         (fun item input_index =>
            data_do (add_input_polygon (polygon_map item) input_index) ;;
            ret (S input_index))
         O ;;
  w <- get ;;
  CGAL_assertion (Nat.ltb 6 (number_of_support_planes (m_data w)))
    "m_data.number_of_support_planes() > 6".

Definition add_polygons {Item : Type} (input_range : list Item)
    (polygon_map : Item -> list Point_3) (bbox_faces : list (list Point_3))
    : M unit :=
  data_do (reserve (List.length input_range)) ;;
  add_bbox_faces bbox_faces ;;
  add_input_polygons input_range polygon_map.

(** [partition].  [k] is an [unsigned int]; [fuel] bounds the two [while]
    loops of the propagation. *)
Definition partition {Item : Type} (fuel : nat) (input_range : list Item)
    (polygon_map : Item -> list Point_3) (k : N) (enlarge_bbox_ratio : FT)
    (reorient : bool) : M bool :=
  if Nat.eqb (List.length input_range) 0 then
    CGAL_warning_msg (negb (Nat.eqb (List.length input_range) 0))
      "WARNING: YOUR INPUT IS EMPTY. RETURN WITH NO CHANGE!" ;;
    ret false
  else if N.eqb k 0 then
    CGAL_warning_msg (negb (N.eqb k 0))
      "WARNING: YOU SET K TO 0. THE VALID VALUES ARE {1,2,...}. RETURN WITH NO CHANGE!" ;;
    ret false
  else if FT_lt enlarge_bbox_ratio 1 then
    CGAL_warning_msg (FT_le 1 enlarge_bbox_ratio)
      "WARNING: YOU SET ENLARGE_BBOX_RATIO < 1. THE VALID RANGE IS [1, +INF). RETURN WITH NO CHANGE!" ;;
    ret false
  else
    ' (bbox, time_step) <-
      create_bounding_box input_range polygon_map enlarge_bbox_ratio reorient ;;
    let bbox_faces := bounding_box_to_polygons bbox in
    add_polygons input_range polygon_map bbox_faces ;;
    _ <- check_integrity ;;
    make_polygons_intersection_free ;;
    _ <- check_integrity ;;
    set_k_intersections k ;;
    data_do check_bbox ;;
    _ <- (exit EXIT_SUCCESS : M unit) ;;
    set_min_time 0 ;;
    set_max_time time_step ;;
    w <- get ;;
    CGAL_assertion (FT_le 0 (m_min_time w) && FT_le (m_min_time w) (m_max_time w))
      "m_min_time >= FT(0) && m_max_time >= m_min_time" ;;
    propagation_loop fuel k time_step ;;
    _ <- check_integrity ;;
    ret true.

(** *** Vocabulary of the statements *)

(** A computation that only pushes events: it returns [a] and appends
    [evs] to the queue. *)
Definition pushes {A : Type} (m : M A) (w : World) (a : A) (evs : list Event) : Prop :=
  m w = Returned a (with_queue (m_queue w ++ evs) w).

(** The arrival time of a constrained vertex at an intersection vertex, as
    the source computes it. *)
Definition arrival_time (d : Data) (pvertex : PVertex) (from : Point_2)
    (ivertex : IVertex) : FT :=
  approximate_sqrt
    (squared_distance_2 from (to_2d_ivertex d (fst pvertex) ivertex))
  / speed d pvertex.

(** The three tests of the loop over the end vertices. *)
Definition reaches (d : Data) (tmin tmax : FT) (pvertex : PVertex)
    (sv : Segment_2) (ivertex : IVertex) : Prop :=
  is_active_ivertex d ivertex = true
  /\ 0 <= dot_2 (to_vector sv)
                (Vector_2_of (source_2 sv) (to_2d_ivertex d (fst pvertex) ivertex))
  /\ arrival_time d pvertex (source_2 sv) ivertex < tmax - tmin.

(** Some vertex of some support plane is not frozen. *)
Definition some_vertex_moves (d : Data) : bool :=
  existsb (fun i => existsb (fun pvertex => negb (is_frozen d pvertex)) (pvertices d i))
          (seq 0 (number_of_support_planes d)).

(** The two ways a single-vertex crossing ends (lines 946-957): the polygon
    stops at the edge, or goes on beyond it with the budget [k]. *)
Definition polygon_stops (time : FT) (pvertex : PVertex) (iedge : IEdge) : M unit :=
  pvnew <- data_call (crop_polygon pvertex iedge) ;;
  remove_events_of_iedge iedge (fst pvertex) ;;
  compute_events_of_vertices time [pvertex; pvnew].

Definition polygon_continues (time : FT) (k : N) (pvertex : PVertex)
    (iedge : IEdge) : M unit :=
  pvnew <- data_call (propagate_polygon k pvertex iedge) ;;
  remove_events_of_iedge iedge (fst pvertex) ;;
  compute_events_of_vertices time pvnew.

(** The part of [partition] between the three checks of its arguments and
    the call of [exit] (lines 118-157); its result is [time_step]. *)
Definition preprocessing {Item : Type} (input_range : list Item)
    (polygon_map : Item -> list Point_3) (k : N) (enlarge_bbox_ratio : FT)
    (reorient : bool) : M FT :=
  ' (bbox, time_step) <-
    create_bounding_box input_range polygon_map enlarge_bbox_ratio reorient ;;
  let bbox_faces := bounding_box_to_polygons bbox in
  add_polygons input_range polygon_map bbox_faces ;;
  _ <- check_integrity ;;
  make_polygons_intersection_free ;;
  _ <- check_integrity ;;
  set_k_intersections k ;;
  data_do check_bbox ;;
  ret time_step.

(** Two states that differ at most in [m_data]. *)
Definition same_but_data (w w' : World) : Prop :=
  m_queue w' = m_queue w
  /\ m_min_time w' = m_min_time w
  /\ m_max_time w' = m_max_time w
  /\ m_verbose w' = m_verbose w
  /\ warnings w' = warnings w.

(** A computation that returns or stops at an assertion, and changes
    nothing but [m_data]. *)
Definition data_only {A : Type} (m : M A) : Prop :=
  forall w,
    match m w with
    | Returned _ w' => same_but_data w w'
    | AssertionFailed _ w' => same_but_data w w'
    | _ => False
    end.






End Driver.

End KSR.

(** ** A small instance of the two interfaces

    The theorems below hold for every kernel and every data structure; this
    instance is the one they are evaluated on.  Vertex [(i, n)] of plane
    [i] moves along the line [y = n] with speed one, intersection edge [e]
    is the vertical segment at [x = e], and intersection vertex [v] lies at
    [(v, 0)].  The square root is exact on 0, 1 and 4. *)
Module Toy.

Import KSR.

Record Toy_data : Type := mkToy {
  toy_planes : nat;
  toy_k : PFace -> N;
  toy_frozen : PVertex -> bool;
  toy_iedge : PVertex -> IEdge;
  toy_collision : bool * bool;
  toy_time : FT
}.

Definition toy_set_k (f : PFace) (v : N) (d : Toy_data) : Toy_data :=
  mkToy (toy_planes d)
        (fun g => if PVertex_eqb g f then v else toy_k d g)
        (toy_frozen d) (toy_iedge d) (toy_collision d) (toy_time d).

Definition toy_add_plane (d : Toy_data) : Toy_data :=
  mkToy (S (toy_planes d)) (toy_k d) (toy_frozen d) (toy_iedge d)
        (toy_collision d) (toy_time d).

Definition toy_set_time (t : FT) (d : Toy_data) : Toy_data :=
  mkToy (toy_planes d) (toy_k d) (toy_frozen d) (toy_iedge d)
        (toy_collision d) t.

Definition toy_point (n : nat) : FT := inject_Z (Z.of_nat n).

#[local] Instance toy_traits : Geom_traits := {|
  approximate_sqrt := fun x => if FT_eq x 4 then 2 else x;
  intersection := fun _ _ => None;
  distance := fun _ _ => 50;
  Bbox_3 := unit;
  Bbox_3_default := tt;
  bbox_3 := fun _ => tt;
  Bbox_3_plus := fun _ _ => tt;
  xmin := fun _ => 0;
  ymin := fun _ => 0;
  zmin := fun _ => 0;
  xmax := fun _ => 1;
  ymax := fun _ => 1;
  zmax := fun _ => 1
|}.

#[local] Instance toy_structure : Data_structure := {|
  Data := Toy_data;
  null_pvertex := (O, O);
  null_iedge := O;
  null_ivertex := O;
  number_of_support_planes := toy_planes;
  ivertices := fun _ => seq 1 8;
  iedges := fun _ => seq 1 12;
  iedges_of := fun _ _ => [];
  pvertices := fun _ i => [(i, 5%nat)];
  pfaces := fun _ i => [(i, O)];
  is_mesh_valid := fun _ _ => true;
  intersected_planes := fun _ _ => [];
  intersected_planes_of_ivertex := fun _ _ _ => [];
  source := fun _ e => e;
  target := fun _ e => S e;
  is_active_ivertex := fun _ _ => true;
  is_active_iedge := fun _ _ => true;
  point_3_of_ivertex := fun _ v => mkPoint_3 (toy_point v) 0 0;
  segment_2 := fun _ _ e =>
    mkSegment_2 (mkPoint_2 (toy_point e) (-(1))) (mkPoint_2 (toy_point e) 1);
  to_2d_ivertex := fun _ _ v => mkPoint_2 (toy_point v) 0;
  to_2d_segment := fun _ _ s =>
    mkSegment_2 (mkPoint_2 (px (ssource s)) (py (ssource s)))
                (mkPoint_2 (px (starget s)) (py (starget s)));
  to_3d := fun _ _ p => mkPoint_3 (p2x p) (p2y p) 0;
  is_frozen := fun d pv => toy_frozen d pv;
  is_active := fun _ _ => true;
  has_iedge := fun d pv => negb (IEdge_eqb (toy_iedge d pv) O);
  iedge_of := fun d pv => toy_iedge d pv;
  prev := fun _ pv => (fst pv, Nat.pred (snd pv));
  next := fun _ pv => (fst pv, S (snd pv));
  prev_and_next := fun _ pv => ((fst pv, Nat.pred (snd pv)), (fst pv, S (snd pv)));
  border_prev_and_next := fun _ pv =>
    ((fst pv, Nat.pred (snd pv)), (fst pv, S (snd pv)));
  point_2 := fun _ pv t => mkPoint_2 t (toy_point (snd pv));
  speed := fun _ _ => 1;
  pface_of_pvertex := fun _ pv => (fst pv, O);
  pvertices_around_ivertex := fun _ pv _ => [pv];
  collision_occured := fun d _ _ => toy_collision d;
  is_occupied := fun _ _ _ => (false, false);
  current_time := toy_time;
  pface_k := toy_k;
  set_pface_k := toy_set_k;
  reserve := fun _ d => d;
  add_bbox_polygon := fun _ d => toy_add_plane d;
  add_input_polygon := fun _ _ d => toy_add_plane d;
  add_ivertex := fun _ _ d => (9%nat, d);
  add_iedge := fun _ _ d => d;
  split_support_plane := fun _ d => d;
  check_bbox := fun d => d;
  update_positions := toy_set_time;
  deactivate := fun _ d => d;
  activate := fun _ d => d;
  set_last_event_time := fun _ _ d => d;
  transfer_vertex := fun _ _ d => (false, d);
  crop_polygon := fun pv _ d => ((fst pv, (snd pv + 10)%nat), d);
  crop_polygon_pair := fun _ _ _ d => d;
  propagate_polygon := fun _ pv _ d =>
    ([pv; (fst pv, (snd pv + 10)%nat); (fst pv, (snd pv + 20)%nat)], d);
  propagate_polygon_pair := fun _ pv po _ d =>
    (((fst pv, (snd pv + 10)%nat), (fst po, (snd po + 10)%nat)), d);
  merge_pvertices_on_ivertex := fun _ _ pvs _ d => ((pvs, []), d)
|}.

(** A data structure without planes, every face with budget [k], every
    vertex moving; [constrained] gives the intersection edge of a vertex
    ([0] for none). *)
Definition toy_initial (k : N) (constrained : PVertex -> IEdge)
    (collision : bool * bool) : Toy_data :=
  mkToy 0 (fun _ => k) (fun _ => false) constrained collision 0.

(** Seven planes, every face with budget [k], no vertex frozen, and only
    vertex [(6, 5)] on an intersection edge (edge 1) when [constrained]. *)
Definition toy_scene (k : N) (constrained : bool) (collision : bool * bool)
    : Toy_data :=
  mkToy 7 (fun _ => k) (fun _ => false)
        (fun pv => if constrained && PVertex_eqb pv (6%nat, 5%nat) then 1%nat else O)
        collision 0.

(** The object after construction: both times are [-1]. *)
Definition toy_world (d : Toy_data) (q : Event_queue) (verbose : bool) : World :=
  mkWorld d q (-(1)) (-(1)) verbose [].

End Toy.

(** ** Further vocabulary for the driver *)

Module KSR_terms.

Import KSR.
Local Open Scope ksr_scope.

(** [Segment_2::opposite()]: the segment with its end points swapped. *)
Definition opposite (s : Segment_2) : Segment_2 :=
  mkSegment_2 (target_2 s) (source_2 s).

(** The horizontal extent of a segment and, when it is not zero, its
    slope. *)
Definition run_of (s : Segment_2) : FT := p2x (target_2 s) - p2x (source_2 s).
Definition slope_of (s : Segment_2) : FT :=
  (p2y (target_2 s) - p2y (source_2 s)) / run_of s.

(** The first constructor argument of an event. *)
Definition ev_is_constrained (e : Event) : bool :=
  match e with
  | pvertex_to_pvertex c _ _ _ => c
  | pvertex_to_iedge c _ _ _ => c
  | pvertex_to_ivertex c _ _ _ => c
  end.

Section Terms.

Context {GT : Geom_traits} {DS : Data_structure}.

(** The two-way consistency between the support planes and the
    intersection graph that [check_integrity] tests. *)
Definition integrity (d : Data) : Prop :=
  (forall i, (i < number_of_support_planes d)%nat ->
             is_mesh_valid d i = true
             /\ forall iedge, In iedge (iedges_of d i) ->
                              In i (intersected_planes d iedge))
  /\ (forall iedge, In iedge (iedges d) ->
      forall support_plane_idx,
        In support_plane_idx (intersected_planes d iedge) ->
        In iedge (iedges_of d support_plane_idx)).

(** The motion segment of a vertex over the window [[tmin, tmax]]. *)
Definition motion_segment (d : Data) (tmin tmax : FT) (pvertex : PVertex)
    : Segment_2 :=
  mkSegment_2 (point_2 d pvertex tmin) (point_2 d pvertex tmax).

(** The time at which a vertex that left [from] at [tmin] is at [point],
    as the source computes it. *)
Definition time_at (d : Data) (tmin : FT) (pvertex : PVertex)
    (from point : Point_2) : FT :=
  tmin + approximate_sqrt (squared_distance_2 from point) / speed d pvertex.

(** [e] is the event of the constrained vertex [pvertex] meeting its
    neighbour [pother] (lines 626-645): the neighbour exists, is active and
    free, the boxes of the two motion segments overlap and the segments
    intersect. *)
Definition meets_neighbour (d : Data) (tmin tmax : FT) (pvertex pother : PVertex)
    (e : Event) : Prop :=
  let sv := motion_segment d tmin tmax pvertex in
  let so := motion_segment d tmin tmax pother in
  pother <> null_pvertex
  /\ is_active d pother = true
  /\ has_iedge d pother = false
  /\ do_overlap (Segment_2_bbox sv) (Segment_2_bbox so) = true
  /\ exists point,
       intersection sv so = Some point
       /\ e = pvertex_to_pvertex true pvertex pother
                (time_at d tmin pvertex (source_2 sv) point).

(** [e] is the event of the constrained vertex [pvertex] reaching the end
    [ivertex] of its intersection edge (lines 655-665). *)
Definition reaches_end_vertex (d : Data) (tmin tmax : FT) (pvertex : PVertex)
    (ivertex : IVertex) (e : Event) : Prop :=
  let sv := motion_segment d tmin tmax pvertex in
  reaches d tmin tmax pvertex sv ivertex
  /\ e = pvertex_to_ivertex true pvertex ivertex
           (tmin + arrival_time d pvertex (source_2 sv) ivertex).

(** [e] is the event of the free vertex [pvertex] crossing the
    intersection edge [iedge], whose segment is [seg] with box [seg_bbox]
    (lines 682-698): the edge is not that of a neighbour, it is active, the
    boxes overlap and the motion segment intersects the edge. *)
Definition crosses_iedge (d : Data) (tmin tmax : FT) (pvertex : PVertex)
    (j : IEdge * (Segment_2 * Bbox_2)) (e : Event) : Prop :=
  let sv := motion_segment d tmin tmax pvertex in
  iedge_of d (prev d pvertex) <> fst j
  /\ iedge_of d (next d pvertex) <> fst j
  /\ is_active_iedge d (fst j) = true
  /\ do_overlap (Segment_2_bbox sv) (snd (snd j)) = true
  /\ exists point,
       intersection sv (fst (snd j)) = Some point
       /\ e = pvertex_to_iedge false pvertex (fst j)
                (time_at d tmin pvertex (point_2 d pvertex tmin) point).

(** Two states with the same [m_max_time], [m_verbose] and warnings. *)
Definition same_window_end (w w' : World) : Prop :=
  m_max_time w' = m_max_time w
  /\ m_verbose w' = m_verbose w
  /\ warnings w' = warnings w.

(** Every state in which the computation [m], started in [w], can end is
    related to [w] by [R]. *)
Definition respects (R : World -> World -> Prop) {A : Type} (m : M A)
    (w : World) : Prop :=
  forall w', final_world (m w) = Some w' -> R w w'.

(** [compute_events_of_vertices]: the data structure it leaves, and the
    state it leaves when it has pushed [evs]. *)
Definition data_after_events (last_event_time : FT) (pvertices : list PVertex)
    (w : World) : Data :=
  let d1 := update_positions (m_max_time w) (m_data w) in
  let d2 := fold_left (fun d pvertex => deactivate pvertex d) pvertices d1 in
  let d3 := fold_left (fun d pvertex => set_last_event_time pvertex last_event_time d)
                      pvertices d2 in
  let d4 := fold_left (fun d pvertex => activate pvertex d) pvertices d3 in
  update_positions (current_time (m_data w)) d4.

(** The two ways a joint crossing of two vertices ends (lines 893-905):
    the polygon stops at the edge, or goes on beyond it with the budget
    [k]. *)
Definition pair_stops (time : FT) (pvertex pother : PVertex) (iedge : IEdge)
    : M unit :=
  data_do (crop_polygon_pair pvertex pother iedge) ;;
  remove_events_of_iedge iedge (fst pvertex) ;;
  compute_events_of_vertices time [pvertex; pother].

Definition pair_continues (time : FT) (k : N) (pvertex pother : PVertex)
    (iedge : IEdge) : M unit :=
  ' (pv0, pv1) <- data_call (propagate_polygon_pair k pvertex pother iedge) ;;
  remove_events_of_iedge iedge (fst pvertex) ;;
  compute_events_of_vertices time [pvertex; pother; pv0; pv1].

Definition world_after_events (last_event_time : FT) (pvertices : list PVertex)
    (evs : list Event) (w : World) : World :=
  mkWorld (data_after_events last_event_time pvertices w)
          (m_queue w ++ evs)
          (current_time (m_data w)) (m_max_time w) (m_verbose w) (warnings w).

(** [KSR::Idx_set] is a [std::set<KSR::size_t>]: its elements are in
    strictly increasing order. *)
Fixpoint is_Idx_set (s : Idx_set) : bool :=
  match s with
  | [] => true
  | x :: r =>
      match r with [] => true | y :: _ => Nat.ltb x y end && is_Idx_set r
  end.

Definition Idx_set_eqb (a b : Idx_set) : bool :=
  match Idx_set_compare a b with Eq => true | _ => false end.

(** [std::map::find] on a [Map_p2vv], and the order of the keys of a
    [std::map]: strictly increasing. *)
Definition Map_find (key : Idx_set) (m : Map_p2vv) : option (IVertex * IVertex) :=
  match find (fun e => Idx_set_eqb key (fst e)) m with
  | Some e => Some (snd e)
  | None => None
  end.

Fixpoint Map_is_sorted (m : Map_p2vv) : bool :=
  match m with
  | [] => true
  | e :: r =>
      match r with
      | [] => true
      | e' :: _ =>
          match Idx_set_compare (fst e) (fst e') with Lt => true | _ => false end
      end && Map_is_sorted r
  end.

(** The first loop of [make_polygons_intersection_free] (lines 465-480):
    the map from the sets of at least two support planes to two of the
    intersection vertices they meet in; and the rest of the function (lines
    482-540), run on that map. *)
Definition transverse_lines (d : Data) : Map_p2vv :=
  fold_left (fun m ivertex =>
               let key := intersected_planes_of_ivertex d ivertex false in
               if Nat.ltb (List.length key) 2 then m
               else register_ivertex key ivertex m)
            (ivertices d) [].

Definition refine_along (map_p2vv : Map_p2vv) (d : Data) : Data :=
  let '(todo, d) :=
    fold_left (fun '(todo, d) a =>
                 let '(crossed_vertices, _, d') :=
                   fold_left (fun st b => cross_lines a b st) map_p2vv
                             ([fst (snd a)], [], d) in
                 (todo ++ [(fst a, crossed_vertices ++ [snd (snd a)])], d'))
              map_p2vv ([], d) in
  let d := fold_left (fun d t => add_iedge (fst t) (snd t) d) todo d in
  fold_left (fun d i => split_support_plane i d)
            (seq 0 (number_of_support_planes d)) d.

(** The intersection vertices that meet exactly the support planes of
    [key], in the order of [ivertices]. *)
Definition vertices_of_line (d : Data) (key : Idx_set) : list IVertex :=
  filter (fun ivertex =>
            Idx_set_eqb (intersected_planes_of_ivertex d ivertex false) key)
         (ivertices d).

End Terms.

End KSR_terms.

(** ** Variants of the small instance

    The same data structure with a choice of which meshes are valid, which
    intersection edges a support plane has and which planes an edge claims
    to meet; and a kernel whose [intersection] meets a horizontal segment
    with a vertical one. *)
Module Toy2.

Import KSR.

Definition between (a x b : FT) : bool :=
  (FT_le a x && FT_le x b) || (FT_le b x && FT_le x a).

Definition axis_intersection (s1 s2 : Segment_2) : option Point_2 :=
  if FT_eq (p2y (source_2 s1)) (p2y (target_2 s1))
     && FT_eq (p2x (source_2 s2)) (p2x (target_2 s2))
     && between (p2x (source_2 s1)) (p2x (source_2 s2)) (p2x (target_2 s1))
     && between (p2y (source_2 s2)) (p2y (source_2 s1)) (p2y (target_2 s2))
  then Some (mkPoint_2 (p2x (source_2 s2)) (p2y (source_2 s1)))
  else None.

Definition traits : Geom_traits := {|
  approximate_sqrt := @approximate_sqrt Toy.toy_traits;
  intersection := axis_intersection;
  distance := @distance Toy.toy_traits;
  Bbox_3 := @Bbox_3 Toy.toy_traits;
  Bbox_3_default := @Bbox_3_default Toy.toy_traits;
  bbox_3 := @bbox_3 Toy.toy_traits;
  Bbox_3_plus := @Bbox_3_plus Toy.toy_traits;
  xmin := @xmin Toy.toy_traits;
  ymin := @ymin Toy.toy_traits;
  zmin := @zmin Toy.toy_traits;
  xmax := @xmax Toy.toy_traits;
  ymax := @ymax Toy.toy_traits;
  zmax := @zmax Toy.toy_traits
|}.

Definition structure (valid : size_t -> bool)
    (plane_iedges : size_t -> list IEdge)
    (planes_of_iedge : IEdge -> Idx_set) : Data_structure :=
  let T := Toy.toy_structure in {|
  Data := @Data T;
  null_pvertex := @null_pvertex T;
  null_iedge := @null_iedge T;
  null_ivertex := @null_ivertex T;
  number_of_support_planes := @number_of_support_planes T;
  ivertices := @ivertices T;
  iedges := @iedges T;
  iedges_of := fun _ i => plane_iedges i;
  pvertices := @pvertices T;
  pfaces := @pfaces T;
  is_mesh_valid := fun _ i => valid i;
  intersected_planes := fun _ e => planes_of_iedge e;
  intersected_planes_of_ivertex := @intersected_planes_of_ivertex T;
  source := @source T;
  target := @target T;
  is_active_ivertex := @is_active_ivertex T;
  is_active_iedge := @is_active_iedge T;
  point_3_of_ivertex := @point_3_of_ivertex T;
  segment_2 := @segment_2 T;
  to_2d_ivertex := @to_2d_ivertex T;
  to_2d_segment := @to_2d_segment T;
  to_3d := @to_3d T;
  is_frozen := @is_frozen T;
  is_active := @is_active T;
  has_iedge := @has_iedge T;
  iedge_of := @iedge_of T;
  prev := @prev T;
  next := @next T;
  prev_and_next := @prev_and_next T;
  border_prev_and_next := @border_prev_and_next T;
  point_2 := @point_2 T;
  speed := @speed T;
  pface_of_pvertex := @pface_of_pvertex T;
  pvertices_around_ivertex := @pvertices_around_ivertex T;
  collision_occured := @collision_occured T;
  is_occupied := @is_occupied T;
  current_time := @current_time T;
  pface_k := @pface_k T;
  set_pface_k := @set_pface_k T;
  reserve := @reserve T;
  add_bbox_polygon := @add_bbox_polygon T;
  add_input_polygon := @add_input_polygon T;
  add_ivertex := @add_ivertex T;
  add_iedge := @add_iedge T;
  split_support_plane := @split_support_plane T;
  check_bbox := @check_bbox T;
  update_positions := @update_positions T;
  deactivate := @deactivate T;
  activate := @activate T;
  set_last_event_time := @set_last_event_time T;
  transfer_vertex := @transfer_vertex T;
  crop_polygon := @crop_polygon T;
  crop_polygon_pair := @crop_polygon_pair T;
  propagate_polygon := @propagate_polygon T;
  propagate_polygon_pair := @propagate_polygon_pair T;
  merge_pvertices_on_ivertex := @merge_pvertices_on_ivertex T
|}.

(** No intersection edge on any plane, every mesh valid but that of plane
    [bad]. *)
Definition broken (bad : size_t) : Data_structure :=
  structure (fun i => negb (Nat.eqb i bad)) (fun _ => []) (fun _ => []).

(** Every mesh valid; every plane has the edges 1, 2 and 3, and each of
    them claims the planes 0 to 6 (the other edges claim none). *)
Definition crossed : Data_structure :=
  structure (fun _ => true) (fun _ => [1; 2; 3]%nat)
            (fun e => if Nat.leb e 3 then seq 0 7 else []).

(** The data structure of [Toy] with a choice of which vertices are
    frozen and of what [collision_occured] answers. *)
Definition variant (frozen : Toy.Toy_data -> PVertex -> bool)
    (collision : Toy.Toy_data -> PVertex -> IEdge -> bool * bool)
    : Data_structure :=
  let T := Toy.toy_structure in {|
  Data := @Data T;
  null_pvertex := @null_pvertex T;
  null_iedge := @null_iedge T;
  null_ivertex := @null_ivertex T;
  number_of_support_planes := @number_of_support_planes T;
  ivertices := @ivertices T;
  iedges := @iedges T;
  iedges_of := @iedges_of T;
  pvertices := @pvertices T;
  pfaces := @pfaces T;
  is_mesh_valid := @is_mesh_valid T;
  intersected_planes := @intersected_planes T;
  intersected_planes_of_ivertex := @intersected_planes_of_ivertex T;
  source := @source T;
  target := @target T;
  is_active_ivertex := @is_active_ivertex T;
  is_active_iedge := @is_active_iedge T;
  point_3_of_ivertex := @point_3_of_ivertex T;
  segment_2 := @segment_2 T;
  to_2d_ivertex := @to_2d_ivertex T;
  to_2d_segment := @to_2d_segment T;
  to_3d := @to_3d T;
  is_frozen := frozen;
  is_active := @is_active T;
  has_iedge := @has_iedge T;
  iedge_of := @iedge_of T;
  prev := @prev T;
  next := @next T;
  prev_and_next := @prev_and_next T;
  border_prev_and_next := @border_prev_and_next T;
  point_2 := @point_2 T;
  speed := @speed T;
  pface_of_pvertex := @pface_of_pvertex T;
  pvertices_around_ivertex := @pvertices_around_ivertex T;
  collision_occured := collision;
  is_occupied := @is_occupied T;
  current_time := @current_time T;
  pface_k := @pface_k T;
  set_pface_k := @set_pface_k T;
  reserve := @reserve T;
  add_bbox_polygon := @add_bbox_polygon T;
  add_input_polygon := @add_input_polygon T;
  add_ivertex := @add_ivertex T;
  add_iedge := @add_iedge T;
  split_support_plane := @split_support_plane T;
  check_bbox := @check_bbox T;
  update_positions := @update_positions T;
  deactivate := @deactivate T;
  activate := @activate T;
  set_last_event_time := @set_last_event_time T;
  transfer_vertex := @transfer_vertex T;
  crop_polygon := @crop_polygon T;
  crop_polygon_pair := @crop_polygon_pair T;
  propagate_polygon := @propagate_polygon T;
  propagate_polygon_pair := @propagate_polygon_pair T;
  merge_pvertices_on_ivertex := @merge_pvertices_on_ivertex T
|}.

(** Every vertex is frozen once the positions are those of time [stop] or
    later. *)
Definition stopping (stop : FT) : Data_structure :=
  variant (fun d _ => FT_le stop (Toy.toy_time d))
          (@collision_occured Toy.toy_structure).

(** Only the vertices numbered 5 have reached the bounding box; no
    collision occurred. *)
Definition one_sided : Data_structure :=
  variant (@is_frozen Toy.toy_structure)
          (fun _ pvertex _ => (false, Nat.eqb (snd pvertex) 5)).

End Toy2.

(** * Properties *)

Lemma FT_lt_iff (x y : FT) : FT_lt x y = true <-> x < y.
Proof.
  unfold FT_lt. rewrite negb_true_iff.
  split; intro H.
  - apply Qnot_le_lt. intro L. apply Qle_bool_iff in L. congruence.
  - destruct (Qle_bool y x) eqn:E; [|reflexivity].
    apply Qle_bool_iff in E. exfalso. apply (Qlt_not_le _ _ H E).
Qed.

Lemma FT_lt_false_iff (x y : FT) : FT_lt x y = false <-> y <= x.
Proof.
  unfold FT_lt. rewrite negb_false_iff. apply Qle_bool_iff.
Qed.

(** ** Point to triangle distance *)

Module Distance_3_facts.

Import Distance_3.

(** C8 (as amended).  For a triangle whose normal is the null vector,
    [squared_distance_to_triangle] does not call the projection onto the
    supporting plane: whatever the two helpers are, it returns the minimum
    (not the sum) of the distances from the point to the three edge
    segments and leaves [inside] alone; [squared_distance] returns that
    minimum.  The function is total: no error is raised. *)
Theorem degenerate_triangle_min_of_edge_distances :
  forall (to_plane : Vector_3 -> Vector_3 -> FT)
         (to_segment : Point_3 -> Segment_3 -> FT)
         (pt t0 t1 t2 : Point_3) (inside : bool),
    is_null_vector (wcross (vector t0 t1) (vector t0 t2)) = true ->
    squared_distance_to_triangle to_plane to_segment pt t0 t1 t2 inside =
      (std_min (std_min (to_segment pt (segment t2 t0))
                        (to_segment pt (segment t1 t2)))
               (to_segment pt (segment t0 t1)),
       inside)
    /\ squared_distance to_plane to_segment pt (mkTriangle_3 t0 t1 t2) =
         std_min (std_min (to_segment pt (segment t2 t0))
                          (to_segment pt (segment t1 t2)))
                 (to_segment pt (segment t0 t1)).
Proof.
  intros to_plane to_segment pt t0 t1 t2 inside Hnull.
  assert (Hgen : forall b,
    squared_distance_to_triangle to_plane to_segment pt t0 t1 t2 b =
      (std_min (std_min (to_segment pt (segment t2 t0))
                        (to_segment pt (segment t1 t2)))
               (to_segment pt (segment t0 t1)), b)).
  { intro b. unfold squared_distance_to_triangle.
    rewrite Hnull. reflexivity. }
  split.
  - apply Hgen.
  - unfold squared_distance. cbn [vertex Nat.modulo tv0 tv1 tv2].
    change (vertex (mkTriangle_3 t0 t1 t2) 0) with t0.
    change (vertex (mkTriangle_3 t0 t1 t2) 1) with t1.
    change (vertex (mkTriangle_3 t0 t1 t2) 2) with t2.
    rewrite Hgen. reflexivity.
Qed.

(** The collinear triangle [(0,0,0), (1,0,0), (2,0,0)] seen from
    [(0,1,0)]. *)
Lemma degenerate_triangle_min_of_edge_distances_witness :
  let pt := mkPoint_3 0 1 0 in
  let t0 := mkPoint_3 0 0 0 in
  let t1 := mkPoint_3 1 0 0 in
  let t2 := mkPoint_3 2 0 0 in
  let edges_min :=
    std_min (std_min (squared_distance_segment_model pt (segment t2 t0))
                     (squared_distance_segment_model pt (segment t1 t2)))
            (squared_distance_segment_model pt (segment t0 t1)) in
  is_null_vector (wcross (vector t0 t1) (vector t0 t2)) = true
  /\ squared_distance_to_triangle squared_distance_to_plane_model
       squared_distance_segment_model pt t0 t1 t2 false = (edges_min, false)
  /\ squared_distance squared_distance_to_plane_model squared_distance_segment_model
       pt (mkTriangle_3 t0 t1 t2) = edges_min.
Proof.
  intros pt t0 t1 t2 edges_min.
  split; [reflexivity|].
  apply (degenerate_triangle_min_of_edge_distances
           squared_distance_to_plane_model squared_distance_segment_model
           pt t0 t1 t2 false).
  reflexivity.
Defined.

(** C8 as stated fails: on that triangle the normal is null, the three
    edge distances are 1, 2 and 1, and the function returns 1, not their
    sum 4. *)
Lemma degenerate_triangle_is_not_sum :
  let pt := mkPoint_3 0 1 0 in
  let t0 := mkPoint_3 0 0 0 in
  let t1 := mkPoint_3 1 0 0 in
  let t2 := mkPoint_3 2 0 0 in
  let d := squared_distance squared_distance_to_plane_model
                            squared_distance_segment_model in
  is_null_vector (wcross (vector t0 t1) (vector t0 t2)) = true
  /\ d pt (mkTriangle_3 t0 t1 t2) == 1
  /\ squared_distance_segment_model pt (segment t2 t0)
     + squared_distance_segment_model pt (segment t1 t2)
     + squared_distance_segment_model pt (segment t0 t1) == 4
  /\ ~ d pt (mkTriangle_3 t0 t1 t2) ==
       squared_distance_segment_model pt (segment t2 t0)
       + squared_distance_segment_model pt (segment t1 t2)
       + squared_distance_segment_model pt (segment t0 t1).
Proof.
  cbv zeta.
  repeat split; try (vm_compute; reflexivity).
  vm_compute. discriminate.
Qed.

End Distance_3_facts.

(** ** The reconstruction driver *)

Module KSR_facts.

Import KSR.
Local Open Scope ksr_scope.

Section Facts.

Context {GT : Geom_traits} {DS : Data_structure}.

(** *** The state *)

Lemma with_queue_same (w : World) : with_queue (m_queue w) w = w.
Proof. destruct w; reflexivity. Qed.

Lemma with_queue_twice (q1 q2 : Event_queue) (w : World) :
  with_queue q2 (with_queue q1 w) = with_queue q2 w.
Proof. reflexivity. Qed.

Lemma with_data_same (w : World) : with_data (m_data w) w = w.
Proof. destruct w; reflexivity. Qed.

Lemma m_data_with_queue (q : Event_queue) (w : World) :
  m_data (with_queue q w) = m_data w.
Proof. reflexivity. Qed.

Lemma m_data_with_data (d : Data) (w : World) : m_data (with_data d w) = d.
Proof. reflexivity. Qed.

Lemma m_queue_with_data (d : Data) (w : World) :
  m_queue (with_data d w) = m_queue w.
Proof. reflexivity. Qed.

Lemma m_queue_with_queue (q : Event_queue) (w : World) :
  m_queue (with_queue q w) = q.
Proof. reflexivity. Qed.


Lemma pushes_ret {A : Type} (a : A) (w : World) : pushes (ret a) w a [].
Proof.
  unfold pushes, ret. rewrite app_nil_r, with_queue_same. reflexivity.
Qed.

Lemma pushes_push_event (e : Event) (w : World) : pushes (push_event e) w tt [e].
Proof. reflexivity. Qed.

Lemma pushes_bind {A B : Type} (m : M A) (f : A -> M B) (w : World)
    (a : A) (b : B) (evs1 evs2 : list Event) :
  pushes m w a evs1 ->
  pushes (f a) (with_queue (m_queue w ++ evs1) w) b evs2 ->
  pushes (bind m f) w b (evs1 ++ evs2).
Proof.
  unfold pushes, bind. intros -> ->. cbn [m_queue with_queue].
  rewrite app_assoc. reflexivity.
Qed.

(** The data, the times and the flags are those of [w] after any number of
    pushes. *)
Lemma for_each_pushes {A : Type} (body : A -> M unit) (l : list A)
    (P : Event -> Prop) :
  (forall x w, exists evs, pushes (body x) w tt evs /\ Forall P evs) ->
  forall w, exists evs, pushes (for_each l body) w tt evs /\ Forall P evs.
Proof.
  intros Hbody. induction l as [|x r IH]; intro w; cbn [for_each].
  - exists []. split; [apply pushes_ret | constructor].
  - destruct (Hbody x w) as (evs1 & H1 & P1).
    destruct (IH (with_queue (m_queue w ++ evs1) w)) as (evs2 & H2 & P2).
    exists (evs1 ++ evs2). split.
    + eapply pushes_bind; eassumption.
    + apply Forall_app. split; assumption.
Qed.

Lemma for_each_pushes_any {A : Type} (body : A -> M unit) (l : list A) :
  (forall x w, exists evs, pushes (body x) w tt evs) ->
  forall w, exists evs, pushes (for_each l body) w tt evs.
Proof.
  intros Hbody w.
  destruct (for_each_pushes body l (fun _ => True)) with (w := w) as (evs & H & _).
  - intros x w0. destruct (Hbody x w0) as (evs & H). exists evs. split; [exact H|].
    apply Forall_forall. intros; exact I.
  - exists evs. exact H.
Qed.

Lemma events_with_neighbour_pushes d tmin tmax pvertex sv sv_bbox pother w :
  exists evs,
    pushes (events_with_neighbour d tmin tmax pvertex sv sv_bbox pother) w tt evs
    /\ Forall (fun e => is_pvertex_to_ivertex e = false) evs.
Proof.
  unfold events_with_neighbour.
  destruct (_ || _ || _).
  { exists []. split; [apply pushes_ret | constructor]. }
  destruct (negb _).
  { exists []. split; [apply pushes_ret | constructor]. }
  destruct (intersection _ _).
  - eexists. split; [apply pushes_push_event |].
    constructor; [reflexivity | constructor].
  - exists []. split; [apply pushes_ret | constructor].
Qed.

Lemma events_with_iedge_pushes d tmin pvertex pprev pnext sv sv_bbox j w :
  exists evs,
    pushes (events_with_iedge d tmin pvertex pprev pnext sv sv_bbox j) w tt evs
    /\ Forall (fun e => is_pvertex_to_ivertex e = false) evs.
Proof.
  unfold events_with_iedge. destruct j as (ie & seg & bb).
  destruct (_ || _).
  { exists []. split; [apply pushes_ret | constructor]. }
  destruct (negb (is_active_iedge _ _)).
  { exists []. split; [apply pushes_ret | constructor]. }
  destruct (negb (do_overlap _ _)).
  { exists []. split; [apply pushes_ret | constructor]. }
  destruct (intersection _ _).
  - eexists. split; [apply pushes_push_event |].
    constructor; [reflexivity | constructor].
  - exists []. split; [apply pushes_ret | constructor].
Qed.



Lemma events_with_end_vertex_pushes d tmin tmax pvertex sv ivertex w :
  exists evs,
    pushes (events_with_end_vertex d tmin tmax pvertex sv ivertex) w tt evs
    /\ forall e, In e evs <->
         reaches d tmin tmax pvertex sv ivertex
         /\ e = pvertex_to_ivertex true pvertex ivertex
                  (tmin + arrival_time d pvertex (source_2 sv) ivertex).
Proof.
  unfold events_with_end_vertex, reaches, arrival_time.
  destruct (is_active_ivertex d ivertex) eqn:Ha; cbn [negb].
  2:{ exists []. split; [apply pushes_ret |].
      intro e. split; [intros [] | intros ((Hf & _) & _); discriminate]. }
  destruct (FT_lt (dot_2 _ _) 0) eqn:Hd.
  { exists []. split; [apply pushes_ret |].
    intro e. split; [intros [] |].
    intros ((_ & Hpos & _) & _). apply FT_lt_iff in Hd.
    exfalso. exact (Qlt_not_le _ _ Hd Hpos). }
  apply FT_lt_false_iff in Hd.
  destruct (FT_lt _ (tmax - tmin)) eqn:Ht.
  - apply FT_lt_iff in Ht.
    eexists. split; [apply pushes_push_event |].
    intro e. cbn [In]. split.
    + intros [<- | []]. repeat split; assumption.
    + intros (_ & ->). left. reflexivity.
  - exists []. split; [apply pushes_ret |].
    intro e. split; [intros [] |].
    intros ((_ & _ & Hlt) & _). apply FT_lt_false_iff in Ht.
    exfalso. exact (Qlt_not_le _ _ Hlt Ht).
Qed.

End Facts.

(** *** Events of one vertex *)

Section Events_of_vertex.

Context {GT : Geom_traits} {DS : Data_structure}.

(** What [compute_events_of_vertex] does for a vertex that is not frozen:
    it returns [true] and only pushes events. *)
Lemma compute_events_of_vertex_moving pvertex iedges segments_2 segment_bboxes w :
  is_frozen (m_data w) pvertex = false ->
  exists evs,
    pushes (compute_events_of_vertex pvertex iedges segments_2 segment_bboxes)
           w true evs.
Proof.
  intro Hfrozen. unfold compute_events_of_vertex.
  unfold pushes, bind at 1, get. cbv beta iota. rewrite Hfrozen.
  set (sv := mkSegment_2 _ _).
  set (body := if has_iedge _ _ then _ else _).
  assert (Hbody : exists evs, pushes body w tt evs).
  { subst body. destruct (has_iedge (m_data w) pvertex).
    - destruct (prev_and_next (m_data w) pvertex) as (pprev, pnext).
      destruct (for_each_pushes
                  (events_with_neighbour (m_data w) (m_min_time w) (m_max_time w)
                     pvertex sv (Segment_2_bbox sv))
                  [pprev; pnext] _
                  (fun x w => events_with_neighbour_pushes _ _ _ _ _ _ x w) w)
        as (evs1 & H1 & _).
      destruct (for_each_pushes_any
                  (events_with_end_vertex (m_data w) (m_min_time w) (m_max_time w)
                     pvertex sv)
                  [source (m_data w) (iedge_of (m_data w) pvertex);
                   target (m_data w) (iedge_of (m_data w) pvertex)]
                  (fun x w0 =>
                     let (evs, H) := events_with_end_vertex_pushes
                                       (m_data w) (m_min_time w) (m_max_time w)
                                       pvertex sv x w0 in
                     ex_intro _ evs (proj1 H))
                  (with_queue (m_queue w ++ evs1) w))
        as (evs2 & H2).
      exists (evs1 ++ evs2). eapply pushes_bind; eassumption.
    - destruct (for_each_pushes
                  (events_with_iedge (m_data w) (m_min_time w) pvertex
                     (prev (m_data w) pvertex) (next (m_data w) pvertex)
                     sv (Segment_2_bbox sv))
                  (combine iedges (combine segments_2 segment_bboxes)) _
                  (fun x w => events_with_iedge_pushes _ _ _ _ _ _ _ x w) w)
        as (evs & H & _).
      exists evs. exact H. }
  destruct Hbody as (evs & Hevs).
  exists evs. unfold bind. unfold pushes in Hevs. rewrite Hevs. reflexivity.
Qed.

Lemma compute_events_of_vertex_frozen pvertex iedges segments_2 segment_bboxes w :
  is_frozen (m_data w) pvertex = true ->
  compute_events_of_vertex pvertex iedges segments_2 segment_bboxes w
  = Returned false w.
Proof.
  intro Hfrozen. unfold compute_events_of_vertex, bind, get.
  rewrite Hfrozen. reflexivity.
Qed.

Lemma compute_events_of_vertex_pushes pvertex iedges segments_2 segment_bboxes w :
  exists evs,
    pushes (compute_events_of_vertex pvertex iedges segments_2 segment_bboxes)
           w (negb (is_frozen (m_data w) pvertex)) evs.
Proof.
  destruct (is_frozen (m_data w) pvertex) eqn:Hfrozen.
  - exists []. unfold pushes.
    rewrite compute_events_of_vertex_frozen by assumption.
    rewrite app_nil_r, with_queue_same. reflexivity.
  - apply compute_events_of_vertex_moving. assumption.
Qed.

(** The loop of [initialize_queue] over the vertices of one plane. *)
Lemma vertices_loop_pushes iedges segments_2 segment_bboxes pvs :
  forall still_running w,
  exists evs,
    pushes
      (fold_each pvs
         (fun pvertex still_running =>
            found <- compute_events_of_vertex pvertex iedges segments_2 segment_bboxes ;;
            ret (if found : bool then true else still_running))
         still_running)
      w
      (still_running || existsb (fun pvertex => negb (is_frozen (m_data w) pvertex)) pvs)
      evs.
Proof.
  induction pvs as [|pv r IH]; intros still_running w; cbn [fold_each existsb].
  - exists []. rewrite orb_false_r. apply pushes_ret.
  - destruct (compute_events_of_vertex_pushes pv iedges segments_2 segment_bboxes w)
      as (evs1 & H1).
    set (sr := if negb (is_frozen (m_data w) pv) then true else still_running).
    destruct (IH sr (with_queue (m_queue w ++ evs1) w)) as (evs2 & H2).
    exists (evs1 ++ evs2).
    replace (still_running || (negb (is_frozen (m_data w) pv) || _))
      with (sr || existsb (fun pvertex => negb (is_frozen (m_data w) pvertex)) r)
      by (subst sr; destruct (is_frozen (m_data w) pv), still_running; reflexivity).
    eapply pushes_bind; [|exact H2].
    rewrite <- (app_nil_r evs1).
    eapply pushes_bind; [exact H1|].
    subst sr. apply pushes_ret.
Qed.

Lemma initialize_queue_of_plane_pushes i still_running w :
  exists evs,
    pushes (initialize_queue_of_plane i still_running) w
      (still_running
       || existsb (fun pvertex => negb (is_frozen (m_data w) pvertex))
                  (pvertices (m_data w) i))
      evs.
Proof.
  unfold initialize_queue_of_plane, pushes, bind at 1, get. cbv beta iota.
  destruct (init_search_structures (m_data w) i) as ((ies & segs) & bbs).
  apply vertices_loop_pushes.
Qed.

Lemma planes_loop_pushes planes :
  forall still_running w,
  exists evs,
    pushes (fold_each planes initialize_queue_of_plane still_running) w
      (still_running
       || existsb (fun i => existsb (fun pvertex => negb (is_frozen (m_data w) pvertex))
                                    (pvertices (m_data w) i))
                  planes)
      evs.
Proof.
  induction planes as [|i r IH]; intros still_running w; cbn [fold_each existsb].
  - exists []. rewrite orb_false_r. apply pushes_ret.
  - destruct (initialize_queue_of_plane_pushes i still_running w) as (evs1 & H1).
    destruct (IH (still_running
                  || existsb (fun pvertex => negb (is_frozen (m_data w) pvertex))
                             (pvertices (m_data w) i))
                 (with_queue (m_queue w ++ evs1) w)) as (evs2 & H2).
    exists (evs1 ++ evs2). rewrite orb_assoc.
    eapply pushes_bind; eassumption.
Qed.

Lemma initialize_queue_returns w :
  let d1 := update_positions (m_max_time w) (m_data w) in
  exists evs,
    initialize_queue w =
      Returned (some_vertex_moves d1)
               (with_data (update_positions (m_min_time w) d1)
                          (with_queue (m_queue w ++ evs) w)).
Proof.
  intro d1.
  destruct (planes_loop_pushes (seq 0 (number_of_support_planes d1)) false
                               (with_data d1 w)) as (evs & H).
  exists evs. unfold pushes in H. unfold initialize_queue.
  cbv [bind get data_do modify ret]. cbv beta iota.
  change (m_data (with_data (update_positions (m_max_time w) (m_data w)) w)) with d1.
  match goal with
  | |- match ?x with _ => _ end = _ =>
      replace x with
        (Returned
           (false || some_vertex_moves d1)
           (with_queue (m_queue (with_data d1 w) ++ evs) (with_data d1 w)))
        by (symmetry; exact H)
  end.
  reflexivity.
Qed.

End Events_of_vertex.

Section Claims_on_events.

Context {GT : Geom_traits} {DS : Data_structure}.

(** C10.  For a frozen vertex [compute_events_of_vertex] returns [false]
    and leaves the queue (the whole state) unchanged, whatever its
    neighbours and the intersection edges passed in; a support plane all
    of whose vertices are frozen leaves the queue and the flag
    [still_running] of [initialize_queue] as they were. *)
Theorem frozen_vertex_pushes_nothing :
  (forall pvertex iedges segments_2 segment_bboxes w,
      is_frozen (m_data w) pvertex = true ->
      compute_events_of_vertex pvertex iedges segments_2 segment_bboxes w
      = Returned false w)
  /\ (forall i still_running w,
         (forall pvertex, In pvertex (pvertices (m_data w) i) ->
                          is_frozen (m_data w) pvertex = true) ->
         initialize_queue_of_plane i still_running w = Returned still_running w).
Proof.
  split.
  - intros. apply compute_events_of_vertex_frozen. assumption.
  - intros i still_running w Hall.
    unfold initialize_queue_of_plane, bind at 1, get. cbv beta iota.
    destruct (init_search_structures (m_data w) i) as ((ies & segs) & bbs).
    induction (pvertices (m_data w) i) as [|pv r IH]; cbn [fold_each].
    + reflexivity.
    + unfold bind at 1. unfold bind at 1.
      rewrite compute_events_of_vertex_frozen by (apply Hall; left; reflexivity).
      unfold ret at 1. apply IH. intros p Hp. apply Hall. right. exact Hp.
Qed.

(** C4 (as amended).  [compute_events_of_vertex] always returns, and
    returns [true] exactly when the vertex is not frozen, whether or not
    it pushed an event; it changes nothing but the queue, to which it only
    adds.  [initialize_queue] returns [true] exactly when some vertex of
    some support plane is not frozen at [m_max_time], and the loop of
    [partition] goes on exactly when it does. *)
Theorem compute_events_of_vertex_true_iff_not_frozen :
  (forall pvertex iedges segments_2 segment_bboxes w,
      exists evs,
        compute_events_of_vertex pvertex iedges segments_2 segment_bboxes w
        = Returned (negb (is_frozen (m_data w) pvertex))
                   (with_queue (m_queue w ++ evs) w))
  /\ (forall w,
         exists evs,
           initialize_queue w
           = Returned
               (some_vertex_moves (update_positions (m_max_time w) (m_data w)))
               (with_data
                  (update_positions (m_min_time w)
                     (update_positions (m_max_time w) (m_data w)))
                  (with_queue (m_queue w ++ evs) w)))
  /\ (forall fuel k time_step w,
         propagation_loop (S fuel) k time_step w
         = match initialize_queue w with
           | Returned true w' =>
               (run (S fuel) k ;;
                w <- get ;;
                set_min_time (m_max_time w) ;;
                set_max_time (m_max_time w + time_step) ;;
                _ <- check_integrity ;;
                propagation_loop fuel k time_step) w'
           | Returned false w' => Returned tt w'
           | Exited s w' => Exited s w'
           | AssertionFailed msg w' => AssertionFailed msg w'
           | OutOfFuel => OutOfFuel
           end).
Proof.
  split; [|split].
  - intros. apply compute_events_of_vertex_pushes.
  - intro w. apply initialize_queue_returns.
  - intros fuel k time_step w. cbn [propagation_loop]. unfold bind at 1.
    destruct (initialize_queue w) as [[|] w'| | |]; reflexivity.
Qed.

(** C6.  For a constrained vertex that is not frozen,
    [compute_events_of_vertex] pushes a [pvertex_to_ivertex] event exactly
    for every end vertex of its intersection edge that is active, lies
    ahead (the dot product of the motion vector with the vector from the
    position at [m_min_time] to the end vertex is not negative) and is
    reached strictly within the window; the time of the event is
    [m_min_time] plus the arrival time. *)
Theorem constrained_vertex_ivertex_events :
  forall pvertex iedges segments_2 segment_bboxes w,
    let d := m_data w in
    let sv := mkSegment_2 (point_2 d pvertex (m_min_time w))
                          (point_2 d pvertex (m_max_time w)) in
    let arrival ivertex :=
      approximate_sqrt
        (squared_distance_2 (point_2 d pvertex (m_min_time w))
                            (to_2d_ivertex d (fst pvertex) ivertex))
      / speed d pvertex in
    is_frozen d pvertex = false ->
    has_iedge d pvertex = true ->
    exists evs,
      compute_events_of_vertex pvertex iedges segments_2 segment_bboxes w
      = Returned true (with_queue (m_queue w ++ evs) w)
      /\ forall e,
           is_pvertex_to_ivertex e = true ->
           (In e evs <->
            exists ivertex,
              (ivertex = source d (iedge_of d pvertex)
               \/ ivertex = target d (iedge_of d pvertex))
              /\ is_active_ivertex d ivertex = true
              /\ 0 <= dot_2 (to_vector sv)
                            (Vector_2_of (point_2 d pvertex (m_min_time w))
                                         (to_2d_ivertex d (fst pvertex) ivertex))
              /\ arrival ivertex < m_max_time w - m_min_time w
              /\ e = pvertex_to_ivertex true pvertex ivertex
                       (m_min_time w + arrival ivertex)).
Proof.
  intros pvertex iedges segments_2 segment_bboxes w d sv arrival Hfrozen Hedge.
  unfold compute_events_of_vertex, bind at 1, get. cbv beta iota.
  fold d. rewrite Hfrozen, Hedge. fold sv.
  destruct (prev_and_next d pvertex) as (pprev, pnext).
  destruct (for_each_pushes
              (events_with_neighbour d (m_min_time w) (m_max_time w)
                 pvertex sv (Segment_2_bbox sv))
              [pprev; pnext] _
              (fun x w => events_with_neighbour_pushes _ _ _ _ _ _ x w) w)
    as (evs1 & H1 & P1).
  set (w1 := with_queue (m_queue w ++ evs1) w) in *.
  destruct (events_with_end_vertex_pushes d (m_min_time w) (m_max_time w)
              pvertex sv (source d (iedge_of d pvertex)) w1) as (ea & Ha & Ia).
  set (w2 := with_queue (m_queue w1 ++ ea) w1) in *.
  destruct (events_with_end_vertex_pushes d (m_min_time w) (m_max_time w)
              pvertex sv (target d (iedge_of d pvertex)) w2) as (eb & Hb & Ib).
  exists (evs1 ++ (ea ++ (eb ++ []))). split.
  - rewrite <- (app_nil_r (evs1 ++ _)).
    change (pushes
              ((for_each [pprev; pnext]
                  (events_with_neighbour d (m_min_time w) (m_max_time w)
                     pvertex sv (Segment_2_bbox sv)) ;;
                for_each [source d (iedge_of d pvertex);
                          target d (iedge_of d pvertex)]
                  (events_with_end_vertex d (m_min_time w) (m_max_time w)
                     pvertex sv)) ;;
               ret true) w true ((evs1 ++ ea ++ eb ++ []) ++ [])).
    eapply pushes_bind; [|apply pushes_ret].
    eapply pushes_bind; [exact H1|]. fold w1. cbn [for_each].
    eapply pushes_bind; [exact Ha|]. fold w2.
    eapply pushes_bind; [exact Hb|]. apply pushes_ret.
  - intros e He. rewrite app_nil_r, !in_app_iff, Ia, Ib.
    unfold reaches, arrival_time. split.
    + intros [Hin | [(R & E) | (R & E)]].
      * rewrite Forall_forall in P1. rewrite (P1 e Hin) in He. discriminate.
      * exists (source d (iedge_of d pvertex)).
        destruct R as (A & B & C). repeat split; auto.
      * exists (target d (iedge_of d pvertex)).
        destruct R as (A & B & C). repeat split; auto.
    + intros (iv & [-> | ->] & A & B & C & E).
      * right. left. repeat split; assumption.
      * right. right. repeat split; assumption.
Qed.

End Claims_on_events.

(** A plane of the small instance whose vertex [(6, 5)] is frozen. *)
Lemma frozen_vertex_pushes_nothing_witness :
  let d := Toy.mkToy 7 (fun _ => 1%N) (fun _ => true) (fun _ => O) (false, false) 0 in
  let w := Toy.toy_world d [] false in
  is_frozen (Data_structure := Toy.toy_structure) (m_data w) (6%nat, 5%nat) = true
  /\ compute_events_of_vertex (GT := Toy.toy_traits) (6%nat, 5%nat) [] [] [] w
     = Returned false w
  /\ initialize_queue_of_plane (GT := Toy.toy_traits) 6%nat false w = Returned false w.
Proof.
  intros d w. split; [reflexivity|]. split.
  - apply (proj1 (frozen_vertex_pushes_nothing (GT := Toy.toy_traits)
                    (DS := Toy.toy_structure))).
    reflexivity.
  - apply (proj2 (frozen_vertex_pushes_nothing (GT := Toy.toy_traits)
                    (DS := Toy.toy_structure))).
    intros pvertex Hin. reflexivity.
Defined.

(** C4 as stated fails: a free vertex that is not frozen, on a plane
    without intersection edges, makes [compute_events_of_vertex] return
    [true] although no event is pushed (the queue stays empty). *)
Lemma moving_vertex_without_event :
  let d := Toy.toy_initial 1 (fun _ => O) (false, false) in
  let w := Toy.toy_world d [] false in
  compute_events_of_vertex (GT := Toy.toy_traits) (DS := Toy.toy_structure)
    (6%nat, 5%nat) [] [] [] w = Returned true w
  /\ m_queue w = [].
Proof.
  split; reflexivity.
Qed.

(** The vertex [(6, 0)] slides along the edge 1 from [x = 0] to [x = 2]:
    the end vertex at [x = 1] is reached at time 1, inside the window; the
    one at [x = 2] would be reached at time 2, the length of the window,
    and gets no event. *)
Lemma constrained_vertex_ivertex_events_witness :
  let d := Toy.toy_initial 1 (fun _ => 1%nat) (false, false) in
  let w := mkWorld (DS := Toy.toy_structure) d [] 0 2 false [] in
  let pvertex := (6%nat, O) in
  is_frozen (m_data w) pvertex = false
  /\ has_iedge (m_data w) pvertex = true
  /\ exists evs,
       compute_events_of_vertex (GT := Toy.toy_traits) pvertex [] [] [] w
       = Returned true (with_queue (m_queue w ++ evs) w)
       /\ In (pvertex_to_ivertex true pvertex 1%nat (0 + 1 / 1)) evs
       /\ forall t, ~ In (pvertex_to_ivertex true pvertex 2%nat t) evs.
Proof.
  intros d w pvertex. split; [reflexivity|]. split; [reflexivity|].
  destruct (constrained_vertex_ivertex_events (GT := Toy.toy_traits)
              (DS := Toy.toy_structure) pvertex [] [] [] w
              eq_refl eq_refl) as (evs & Hrun & Hevs).
  exists evs. split; [exact Hrun|]. split.
  - apply (Hevs (pvertex_to_ivertex true pvertex 1%nat (0 + 1 / 1)) eq_refl).
    exists 1%nat. split; [left; reflexivity|].
    split; [reflexivity|].
    split; [vm_compute; discriminate|].
    split; [vm_compute; reflexivity|].
    reflexivity.
  - intros t Hin.
    apply (Hevs (pvertex_to_ivertex true pvertex 2%nat t) eq_refl) in Hin.
    destruct Hin as (iv & _ & _ & _ & Hlt & Heq).
    injection Heq as <- _. vm_compute in Hlt. discriminate Hlt.
Defined.

(** *** Applying an event *)

Section Claims_on_apply.

Context {GT : Geom_traits} {DS : Data_structure}.



(** C7.  A [pvertex_to_pvertex] event between two constrained vertices
    stops at the assertion of the unimplemented case: [apply] does not
    return, and the state it leaves differs from the one it found only by
    the pending events of the two vertices, which are removed from the
    queue; the data structure is untouched.  [run] stops with it. *)
Theorem two_constrained_vertices_abort :
  (forall k c pvertex pother time w,
      has_iedge (m_data w) pvertex = true ->
      has_iedge (m_data w) pother = true ->
      apply k (pvertex_to_pvertex c pvertex pother time) w
      = AssertionFailed "TODO: ADD CASE TWO CONSTRAINED PVERTICES MEET!"
          (with_queue
             (erase_vertex_events pother (erase_vertex_events pvertex (m_queue w)))
             w))
  /\ (forall fuel k c pvertex pother time q w,
         pop (m_queue w) = Some (pvertex_to_pvertex c pvertex pother time, q) ->
         has_iedge (update_positions time (m_data w)) pvertex = true ->
         has_iedge (update_positions time (m_data w)) pother = true ->
         run (S fuel) k w
         = AssertionFailed "TODO: ADD CASE TWO CONSTRAINED PVERTICES MEET!"
             (with_data (update_positions time (m_data w))
                (with_queue
                   (erase_vertex_events pother (erase_vertex_events pvertex q))
                   w))).
Proof.
  assert (Happly : forall k c pvertex pother time w,
      has_iedge (m_data w) pvertex = true ->
      has_iedge (m_data w) pother = true ->
      apply k (pvertex_to_pvertex c pvertex pother time) w
      = AssertionFailed "TODO: ADD CASE TWO CONSTRAINED PVERTICES MEET!"
          (with_queue
             (erase_vertex_events pother (erase_vertex_events pvertex (m_queue w)))
             w)).
  { intros k c pvertex pother time w Hv Ho.
    cbv [apply bind remove_events modify get CGAL_assertion CGAL_assertion_msg].
    cbn [m_data with_queue m_queue]. rewrite Hv, Ho. reflexivity. }
  split; [exact Happly|].
  intros fuel k c pvertex pother time q w Hpop Hv Ho.
  cbn [run]. unfold bind at 1, get. rewrite Hpop.
  unfold bind at 1, modify. unfold bind at 1, data_do, modify.
  unfold bind at 1. cbn [ev_time].
  rewrite Happly by assumption. reflexivity.
Qed.


(** When the loop over the neighbours ends without a joint crossing,
    [apply] runs the single-vertex block. *)
Lemma apply_single_vertex k c pvertex iedge time w :
  parallel_neighbour_loop (m_data w) time pvertex iedge
    (pface_of_pvertex (m_data w) pvertex)
    (segment_2 (m_data w) (fst pvertex) iedge)
    [prev (m_data w) pvertex; next (m_data w) pvertex] w
  = Returned false w ->
  apply k (pvertex_to_iedge c pvertex iedge time) w
  = single_vertex_crossing time pvertex iedge
      (pface_of_pvertex (m_data w) pvertex) w.
Proof.
  intro Hloop. unfold apply. unfold bind at 1, get. cbv beta iota.
  unfold bind at 1. rewrite Hloop. reflexivity.
Qed.

(** C3.  The stop/continue policy of a single-vertex [pvertex_to_iedge]
    event, for a face whose budget is at least 1.  After the events of the
    vertex are removed: when the bounding box is reached the polygon
    stops ([crop_polygon], no propagation); otherwise, when a collision
    occurred at the edge and the budget is 1 the polygon stops; when a
    collision occurred and the budget is above 1 the budget is first
    decremented by exactly 1 and the polygon continues
    ([propagate_polygon] with the new budget); without a collision the
    polygon continues and the budget is not touched. *)
Theorem single_vertex_stop_or_continue :
  forall k c pvertex iedge time w,
    let d := m_data w in
    let pface := pface_of_pvertex d pvertex in
    let w1 := with_queue (erase_vertex_events pvertex (m_queue w)) w in
    let collision := fst (collision_occured d pvertex iedge) in
    let bbox_reached := snd (collision_occured d pvertex iedge) in
    parallel_neighbour_loop d time pvertex iedge pface
      (segment_2 d (fst pvertex) iedge) [prev d pvertex; next d pvertex] w
    = Returned false w ->
    (1 <= pface_k d pface)%N ->
    (bbox_reached = true ->
     apply k (pvertex_to_iedge c pvertex iedge time) w
     = polygon_stops time pvertex iedge w1)
    /\ (bbox_reached = false -> collision = true -> pface_k d pface = 1%N ->
        apply k (pvertex_to_iedge c pvertex iedge time) w
        = polygon_stops time pvertex iedge w1)
    /\ (bbox_reached = false -> collision = true -> (1 < pface_k d pface)%N ->
        pface_k (set_pface_k pface (pface_k d pface - 1) d) pface
        = (pface_k d pface - 1)%N ->
        apply k (pvertex_to_iedge c pvertex iedge time) w
        = polygon_continues time (pface_k d pface - 1) pvertex iedge
            (with_data (set_pface_k pface (pface_k d pface - 1) d) w1))
    /\ (bbox_reached = false -> collision = false ->
        apply k (pvertex_to_iedge c pvertex iedge time) w
        = polygon_continues time (pface_k d pface) pvertex iedge w1).
Proof.
  intros k c pvertex iedge time w d pface w1 collision bbox_reached Hloop Hk.
  rewrite (apply_single_vertex k c pvertex iedge time w Hloop).
  subst d pface w1 collision bbox_reached.
  assert (Hleb : N.leb 1 (pface_k (m_data w) (pface_of_pvertex (m_data w) pvertex))
                 = true) by (apply N.leb_le; exact Hk).
  unfold single_vertex_crossing.
  cbv [bind remove_events modify get ret data_do CGAL_assertion CGAL_assertion_msg].
  rewrite !m_data_with_queue.
  destruct (collision_occured (m_data w) pvertex iedge) as (collision, bbox_reached).
  cbn [fst snd].
  repeat split.
  - intros ->. cbv beta iota. rewrite ?m_data_with_queue, Hleb. reflexivity.
  - intros -> -> Hone.
    rewrite Hone. cbn [andb N.eqb Pos.eqb]. cbv beta iota.
    rewrite ?m_data_with_queue, Hone. reflexivity.
  - intros -> -> Hlt Hset.
    assert (Hne : N.eqb (pface_k (m_data w) (pface_of_pvertex (m_data w) pvertex)) 1
                  = false) by (apply N.eqb_neq; lia).
    assert (Hltb : N.ltb 1 (pface_k (m_data w) (pface_of_pvertex (m_data w) pvertex))
                   = true) by (apply N.ltb_lt; exact Hlt).
    rewrite Hne, Hltb. cbn [andb]. cbv beta iota.
    rewrite ?m_data_with_data, ?m_data_with_queue.
    rewrite <- !N.sub_1_r. rewrite Hset.
    assert (Hleb' : N.leb 1 (pface_k (m_data w) (pface_of_pvertex (m_data w) pvertex) - 1)
                    = true) by (apply N.leb_le; lia).
    rewrite Hleb'. reflexivity.
  - intros -> ->. cbn [andb]. cbv beta iota.
    rewrite ?m_data_with_queue, Hleb. reflexivity.
Qed.

End Claims_on_apply.

(** Vertices [(6, 5)] and [(6, 6)] both slide along edge 1 and meet; the
    queue also holds an event of another vertex. *)
Lemma two_constrained_vertices_abort_witness :
  let d := Toy.toy_initial 1 (fun _ => 1%nat) (false, false) in
  let pvertex := (6%nat, 5%nat) in
  let pother := (6%nat, 6%nat) in
  let ev := pvertex_to_pvertex true pvertex pother 1 in
  let ev' := pvertex_to_ivertex true (7%nat, 5%nat) 2%nat 3 in
  let w := Toy.toy_world d [pvertex_to_ivertex true pvertex 1%nat 2; ev; ev'] false in
  has_iedge (Data_structure := Toy.toy_structure) (m_data w) pvertex = true
  /\ has_iedge (Data_structure := Toy.toy_structure) (m_data w) pother = true
  /\ apply (GT := Toy.toy_traits) 1 ev w
     = AssertionFailed "TODO: ADD CASE TWO CONSTRAINED PVERTICES MEET!"
         (with_queue [ev'] w)
  /\ run (GT := Toy.toy_traits) 1 1 w
     = AssertionFailed "TODO: ADD CASE TWO CONSTRAINED PVERTICES MEET!"
         (with_data (DS := Toy.toy_structure) (Toy.toy_set_time 1 d)
            (with_queue [ev'] w)).
Proof.
  intros d pvertex pother ev ev' w.
  split; [reflexivity|]. split; [reflexivity|]. split.
  - apply (proj1 (two_constrained_vertices_abort (GT := Toy.toy_traits)
                    (DS := Toy.toy_structure)) 1%N true pvertex pother 1 w);
      reflexivity.
  - apply (proj2 (two_constrained_vertices_abort (GT := Toy.toy_traits)
                    (DS := Toy.toy_structure)) O 1%N true pvertex pother 1
                 [pvertex_to_ivertex true pvertex 1%nat 2; ev'] w);
      reflexivity.
Defined.


(** The same crossing with a collision at the edge and a budget of 2: the
    budget drops to 1 and the polygon continues. *)
Lemma single_vertex_stop_or_continue_witness :
  let d := Toy.toy_scene 2 true (true, false) in
  let w := Toy.toy_world d [] false in
  let pvertex := (6%nat, 5%nat) in
  let pface := (6%nat, O) in
  (1 <= pface_k (Data_structure := Toy.toy_structure) d pface)%N
  /\ apply (GT := Toy.toy_traits) 1 (pvertex_to_iedge false pvertex 3%nat 3) w
     = polygon_continues (GT := Toy.toy_traits) 3 (2 - 1) pvertex 3%nat
         (with_data (DS := Toy.toy_structure) (Toy.toy_set_k pface (2 - 1) d) w).
Proof.
  intros d w pvertex pface.
  split; [vm_compute; discriminate|].
  destruct (single_vertex_stop_or_continue (GT := Toy.toy_traits)
              (DS := Toy.toy_structure) 1%N false pvertex 3%nat 3 w)
    as (_ & _ & Hcontinue & _).
  - reflexivity.
  - vm_compute; discriminate.
  - apply Hcontinue; reflexivity.
Defined.

(** *** [partition] *)

Section Claims_on_partition.

Context {GT : Geom_traits} {DS : Data_structure}.

Lemma same_but_data_refl w : same_but_data w w.
Proof. repeat split. Qed.

Lemma same_but_data_trans w1 w2 w3 :
  same_but_data w1 w2 -> same_but_data w2 w3 -> same_but_data w1 w3.
Proof.
  unfold same_but_data. intros (A1 & B1 & C1 & D1 & E1) (A2 & B2 & C2 & D2 & E2).
  repeat split; congruence.
Qed.

Lemma data_only_ret {A : Type} (a : A) : data_only (ret a).
Proof. intro w. apply same_but_data_refl. Qed.

Lemma data_only_get : data_only get.
Proof. intro w. apply same_but_data_refl. Qed.

Lemma data_only_data_do f : data_only (data_do f).
Proof. intro w. repeat split. Qed.

Lemma data_only_assertion cond msg : data_only (CGAL_assertion_msg cond msg).
Proof.
  intro w. unfold CGAL_assertion_msg. destruct cond; apply same_but_data_refl.
Qed.

Lemma data_only_bind {A B : Type} (m : M A) (f : A -> M B) :
  data_only m -> (forall a, data_only (f a)) -> data_only (bind m f).
Proof.
  intros Hm Hf w. unfold bind. specialize (Hm w).
  destruct (m w) as [a w1 | s w1 | msg w1 |]; try contradiction; [|exact Hm].
  specialize (Hf a w1).
  destruct (f a w1) as [b w2 | s w2 | msg w2 |]; try contradiction;
    eapply same_but_data_trans; eassumption.
Qed.

Lemma data_only_for_each {A : Type} (l : list A) (body : A -> M unit) :
  (forall x, data_only (body x)) -> data_only (for_each l body).
Proof.
  intro Hbody. induction l as [|x r IH]; cbn [for_each].
  - apply data_only_ret.
  - apply data_only_bind; [apply Hbody | intros _; exact IH].
Qed.

Lemma data_only_fold_each {A S : Type} (l : list A) (body : A -> S -> M S) :
  (forall x s, data_only (body x s)) -> forall s, data_only (fold_each l body s).
Proof.
  intro Hbody. induction l as [|x r IH]; intro s; cbn [fold_each].
  - apply data_only_ret.
  - apply data_only_bind; [apply Hbody | intro s'; apply IH].
Qed.

Lemma data_only_check_integrity : data_only check_integrity.
Proof.
  unfold check_integrity. apply data_only_bind; [apply data_only_get|].
  intro w. destruct (match first_violation _ _ with Some _ => _ | None => _ end).
  - apply data_only_bind; [|intros _; apply data_only_ret].
    destruct (m_verbose w); [apply data_only_assertion | apply data_only_ret].
  - apply data_only_ret.
Qed.

Lemma data_only_create_bounding_box {Item : Type} (input_range : list Item)
    polygon_map enlarge_bbox_ratio reorient :
  data_only (create_bounding_box input_range polygon_map enlarge_bbox_ratio reorient).
Proof.
  unfold create_bounding_box, initialize_optimal_box, enlarge_bounding_box,
    CGAL_assertion.
  repeat first
    [ apply data_only_bind; [|intro]
    | apply data_only_ret
    | apply data_only_assertion
    | destruct reorient ].
Qed.

Lemma data_only_add_polygons {Item : Type} (input_range : list Item)
    polygon_map bbox_faces :
  data_only (add_polygons input_range polygon_map bbox_faces).
Proof.
  unfold add_polygons, add_bbox_faces, add_input_polygons, CGAL_assertion.
  repeat first
    [ apply data_only_bind; [|intro]
    | apply data_only_ret
    | apply data_only_get
    | apply data_only_assertion
    | apply data_only_data_do
    | apply data_only_for_each; intro
    | apply data_only_fold_each; intros ].
Qed.

Lemma data_only_preprocessing {Item : Type} (input_range : list Item)
    polygon_map k enlarge_bbox_ratio reorient :
  data_only (preprocessing input_range polygon_map k enlarge_bbox_ratio reorient).
Proof.
  unfold preprocessing, make_polygons_intersection_free, set_k_intersections.
  apply data_only_bind; [apply data_only_create_bounding_box|].
  intros (bbox, time_step).
  repeat first
    [ apply data_only_ret
    | apply data_only_add_polygons
    | apply data_only_check_integrity
    | apply data_only_data_do
    | apply data_only_bind; [|intro] ].
Qed.

(** C2.  Called with an empty input range, with [k = 0] or with
    [enlarge_bbox_ratio < 1], [partition] returns [false]; it does not
    stop at an assertion, it emits one warning, and the data structure, the
    queue and the two times are those of before the call: in particular
    [number_of_support_planes()] is the same before and after (so 0 after
    the call when it was 0 before, as for a fresh object). *)
Theorem partition_rejects_invalid_arguments :
  forall (Item : Type) fuel (input_range : list Item) polygon_map k
         enlarge_bbox_ratio reorient w,
    input_range = [] \/ k = 0%N \/ enlarge_bbox_ratio < 1 ->
    exists msg,
      partition fuel input_range polygon_map k enlarge_bbox_ratio reorient w
      = Returned false (with_warning msg w)
      /\ m_data (with_warning msg w) = m_data w
      /\ m_queue (with_warning msg w) = m_queue w
      /\ m_min_time (with_warning msg w) = m_min_time w
      /\ m_max_time (with_warning msg w) = m_max_time w
      /\ number_of_support_planes (m_data (with_warning msg w))
         = number_of_support_planes (m_data w)
      /\ (number_of_support_planes (m_data w) = O ->
          number_of_support_planes (m_data (with_warning msg w)) = O).
Proof.
  intros Item fuel input_range polygon_map k enlarge_bbox_ratio reorient w Hbad.
  unfold partition.
  destruct (Nat.eqb (List.length input_range) 0) eqn:Hempty.
  { eexists. repeat split. intro H; exact H. }
  destruct (N.eqb k 0) eqn:Hk.
  { eexists. repeat split. intro H; exact H. }
  destruct (FT_lt enlarge_bbox_ratio 1) eqn:Hratio.
  { assert (Hle : FT_le 1 enlarge_bbox_ratio = false).
    { apply FT_lt_iff in Hratio. unfold FT_le.
      destruct (Qle_bool 1 enlarge_bbox_ratio) eqn:E; [|reflexivity].
      apply Qle_bool_iff in E. exfalso. exact (Qlt_not_le _ _ Hratio E). }
    eexists. unfold bind, CGAL_warning_msg, ret. rewrite Hle.
    repeat split. intro H; exact H. }
  exfalso. destruct Hbad as [-> | [-> | Hlt]].
  - discriminate Hempty.
  - discriminate Hk.
  - apply FT_lt_iff in Hlt. congruence.
Qed.

(** With valid arguments [partition] is its preprocessing followed by
    [exit]: nothing after the call of [exit] is run. *)
Lemma partition_is_preprocessing_then_exit {Item : Type} fuel
    (input_range : list Item) polygon_map k enlarge_bbox_ratio reorient w :
  input_range <> [] -> k <> 0%N -> 1 <= enlarge_bbox_ratio ->
  partition fuel input_range polygon_map k enlarge_bbox_ratio reorient w
  = (_ <- preprocessing input_range polygon_map k enlarge_bbox_ratio reorient ;;
     exit EXIT_SUCCESS) w.
Proof.
  intros Hinput Hk Hratio. unfold partition.
  destruct input_range as [|item input_range]; [contradiction|].
  cbn [List.length Nat.eqb].
  destruct (N.eqb k 0) eqn:Ek; [apply N.eqb_eq in Ek; contradiction|].
  destruct (FT_lt enlarge_bbox_ratio 1) eqn:Er.
  { apply FT_lt_iff in Er. exfalso. exact (Qlt_not_le _ _ Er Hratio). }
  unfold preprocessing. cbv [bind exit ret].
  destruct (create_bounding_box _ _ _ _ w) as [(bbox, time_step) w1 | | |];
    try reflexivity.
  destruct (add_polygons _ _ _ w1) as [[] w2 | | |]; try reflexivity.
  destruct (check_integrity w2) as [b3 w3 | | |]; try reflexivity.
  destruct (make_polygons_intersection_free w3) as [[] w4 | | |]; try reflexivity.
  destruct (check_integrity w4) as [b5 w5 | | |]; reflexivity.
Qed.

(** C1 (as amended).  Called with a non-empty input range, [k >= 1] and
    [enlarge_bbox_ratio >= 1], [partition] never returns and never reaches
    the propagation loop: it runs the preprocessing and then either stops
    at an assertion of the preprocessing, or ends the process through
    [exit(EXIT_SUCCESS)] right after it, whatever the bound on the loops;
    the queue and the two times are untouched either way.  It stops at an
    assertion, and does not reach [exit], whenever [reorient] is set or
    [enlarge_bbox_ratio] is 1. *)
Theorem partition_exits_after_preprocessing :
  forall (Item : Type) fuel (input_range : list Item) polygon_map k
         enlarge_bbox_ratio reorient w,
    input_range <> [] -> k <> 0%N -> 1 <= enlarge_bbox_ratio ->
    let run_partition :=
      partition fuel input_range polygon_map k enlarge_bbox_ratio reorient w in
    let run_preprocessing :=
      preprocessing input_range polygon_map k enlarge_bbox_ratio reorient w in
    ((exists msg w',
         run_preprocessing = AssertionFailed msg w'
         /\ run_partition = AssertionFailed msg w'
         /\ same_but_data w w')
     \/ (exists time_step w',
           run_preprocessing = Returned time_step w'
           /\ run_partition = Exited EXIT_SUCCESS w'
           /\ same_but_data w w'))
    /\ (reorient = true ->
        run_partition
        = AssertionFailed "TODO: IMPLEMENT THE ORIENTED OPTIMAL BBOX!" w)
    /\ (reorient = false -> enlarge_bbox_ratio == 1 ->
        run_partition
        = AssertionFailed "TODO: HANDLE THE CASE ENLARGE_BBOX_RATIO = FT(1)" w).
Proof.
  intros Item fuel input_range polygon_map k enlarge_bbox_ratio reorient w
         Hinput Hk Hratio run_partition run_preprocessing.
  subst run_partition run_preprocessing.
  rewrite partition_is_preprocessing_then_exit by assumption.
  split; [|split].
  - pose proof (data_only_preprocessing input_range polygon_map k
                  enlarge_bbox_ratio reorient w) as Hpre.
    unfold bind.
    destruct (preprocessing input_range polygon_map k enlarge_bbox_ratio reorient w)
      as [time_step w' | s w' | msg w' |]; try contradiction.
    + right. exists time_step, w'. repeat split; apply Hpre.
    + left. exists msg, w'. repeat split; apply Hpre.
  - intros ->. reflexivity.
  - intros -> Hone.
    assert (Hlt : FT_lt 1 enlarge_bbox_ratio = false).
    { apply FT_lt_false_iff. rewrite Hone. apply Qle_refl. }
    unfold preprocessing, create_bounding_box, enlarge_bounding_box.
    unfold bind at 1. unfold bind at 1. unfold bind at 1.
    cbv [ret initialize_axis_aligned_box CGAL_assertion CGAL_assertion_msg
         List.length Nat.eqb bind].
    rewrite Hlt. reflexivity.
Qed.

End Claims_on_partition.

(** A fresh object of the small instance, called with [k = 0]. *)
Lemma partition_rejects_invalid_arguments_witness :
  let w := Toy.toy_world (Toy.toy_initial 1 (fun _ => O) (false, false)) [] false in
  let run_partition :=
    partition (GT := Toy.toy_traits) (DS := Toy.toy_structure)
      5 [tt] (fun _ => [ORIGIN]) 0 (11 # 10) false w in
  ([tt] = [] \/ 0%N = 0%N \/ (11 # 10) < 1)
  /\ exists msg,
       run_partition = Returned false (with_warning msg w)
       /\ number_of_support_planes (m_data (with_warning msg w)) = O.
Proof.
  intros w run_partition. split; [right; left; reflexivity|].
  destruct (partition_rejects_invalid_arguments (GT := Toy.toy_traits)
              (DS := Toy.toy_structure) unit 5 [tt] (fun _ => [ORIGIN])
              0%N (11 # 10) false w) as (msg & Hrun & _ & _ & _ & _ & _ & Hzero).
  - right; left; reflexivity.
  - exists msg. split; [exact Hrun | apply Hzero; reflexivity].
Defined.

(** One input polygon, [k = 1] and the default ratio 11/10: the process
    ends through [exit] with seven support planes built. *)
Lemma partition_exits_after_preprocessing_witness :
  let w := Toy.toy_world (Toy.toy_initial 1 (fun _ => O) (false, false)) [] false in
  let run_partition :=
    partition (GT := Toy.toy_traits) (DS := Toy.toy_structure)
      5 [tt] (fun _ => [ORIGIN]) 1 (11 # 10) false w in
  [tt] <> [] /\ 1%N <> 0%N /\ 1 <= 11 # 10
  /\ exists w',
       run_partition = Exited EXIT_SUCCESS w'
       /\ same_but_data w w'.
Proof.
  intros w run_partition.
  split; [discriminate|]. split; [discriminate|]. split; [vm_compute; discriminate|].
  destruct (partition_exits_after_preprocessing (GT := Toy.toy_traits)
              (DS := Toy.toy_structure) unit 5 [tt] (fun _ => [ORIGIN])
              1%N (11 # 10) false w) as ([Hfail | Hexit] & _).
  - discriminate.
  - discriminate.
  - vm_compute; discriminate.
  - destruct Hfail as (msg & w' & Hpre & _). vm_compute in Hpre. discriminate Hpre.
  - destruct Hexit as (time_step & w' & _ & Hrun & Hsame).
    exists w'. split; assumption.
Defined.

(** C1 as stated fails: with a non-empty input, [k = 1] and
    [enlarge_bbox_ratio = 1] the call stops at the assertion of
    [enlarge_bounding_box]; it does not end through [exit]. *)
Lemma partition_ratio_one_does_not_exit :
  let w := Toy.toy_world (Toy.toy_initial 1 (fun _ => O) (false, false)) [] false in
  let run_partition :=
    partition (GT := Toy.toy_traits) (DS := Toy.toy_structure)
      5 [tt] (fun _ => [ORIGIN]) 1 1 false w in
  [tt] <> [] /\ (1 <= 1)%N /\ 1 <= 1
  /\ run_partition
     = AssertionFailed "TODO: HANDLE THE CASE ENLARGE_BBOX_RATIO = FT(1)" w
  /\ forall status w', run_partition <> Exited status w'.
Proof.
  intros w run_partition.
  assert (Hrun : run_partition
                 = AssertionFailed "TODO: HANDLE THE CASE ENLARGE_BBOX_RATIO = FT(1)" w)
    by reflexivity.
  split; [discriminate|]. split; [vm_compute; discriminate|].
  split; [vm_compute; discriminate|]. split; [exact Hrun|].
  intros status w'. rewrite Hrun. discriminate.
Qed.

(** *** The crossing budget *)

Section Budget.

Context {GT : Geom_traits} {DS : Data_structure}.

































End Budget.

(** The small instance obeys the laws and its mutators do not touch the
    budgets. *)
Lemma PVertex_eqb_eq (a b : PVertex) : PVertex_eqb a b = true <-> a = b.
Proof.
  destruct a as (a1, a2), b as (b1, b2). unfold PVertex_eqb. cbn [fst snd].
  rewrite andb_true_iff, !Nat.eqb_eq. split.
  - intros (-> & ->). reflexivity.
  - intro H. injection H as -> ->. split; reflexivity.
Qed.




End KSR_facts.

(** * Further properties of the driver *)

Module KSR_more_facts.

Import KSR KSR_terms KSR_facts.
Local Open Scope ksr_scope.

(** *** [are_parallel] *)

Lemma FT_lt_compat (x x' y y' : FT) :
  x == x' -> y == y' -> FT_lt x y = FT_lt x' y'.
Proof.
  intros Hx Hy. destruct (FT_lt x' y') eqn:E.
  - apply FT_lt_iff. apply FT_lt_iff in E. rewrite Hx, Hy. exact E.
  - apply FT_lt_false_iff. apply FT_lt_false_iff in E. rewrite Hx, Hy. exact E.
Qed.

(** The slope the function works with: the true slope, or the sentinel
    100000 for a segment whose horizontal extent is at most 1/100000. *)
Lemma are_parallel_slopes (seg1 seg2 : Segment_2) :
  let tol := 1 / 100000 in
  let m s := if FT_lt tol (Qabs (run_of s)) then slope_of s else 100000 in
  are_parallel seg1 seg2 = FT_lt (Qabs (m seg1 - m seg2)) tol.
Proof.
  cbv zeta. unfold are_parallel, slope_of, run_of.
  destruct (FT_lt (Qabs (_ - _)) (1 / 100000)); reflexivity.
Qed.

Lemma guarded_slope_opposite (s : Segment_2) :
  (if FT_lt (1 / 100000) (Qabs (run_of (opposite s)))
   then slope_of (opposite s) else 100000)
  == (if FT_lt (1 / 100000) (Qabs (run_of s)) then slope_of s else 100000).
Proof.
  assert (Hrun : run_of (opposite s) == - run_of s).
  { unfold run_of, opposite. cbn [source_2 target_2]. ring. }
  assert (Habs : Qabs (run_of (opposite s)) == Qabs (run_of s)).
  { rewrite Hrun. apply Qabs_opp. }
  rewrite (FT_lt_compat _ (1 / 100000) _ (Qabs (run_of s)) (Qeq_refl _) Habs).
  destruct (FT_lt (1 / 100000) (Qabs (run_of s))) eqn:E; [|reflexivity].
  apply FT_lt_iff in E.
  assert (Hnz : ~ run_of s == 0).
  { intro Hz. rewrite Hz in E. cbn in E. revert E. apply Qle_not_lt.
    discriminate. }
  unfold slope_of. rewrite Hrun. unfold opposite. cbn [source_2 target_2].
  field. exact Hnz.
Qed.

(** X1.  [are_parallel] does not depend on the order of its arguments nor
    on the orientation of a segment, and every segment is parallel to
    itself. *)
Theorem are_parallel_symmetric :
  forall seg1 seg2 : Segment_2,
    are_parallel seg1 seg2 = are_parallel seg2 seg1
    /\ are_parallel (opposite seg1) seg2 = are_parallel seg1 seg2
    /\ are_parallel seg1 (opposite seg2) = are_parallel seg1 seg2
    /\ are_parallel seg1 seg1 = true.
Proof.
  intros seg1 seg2. rewrite !are_parallel_slopes. cbv zeta.
  repeat split.
  - rewrite Qabs_Qminus. reflexivity.
  - apply FT_lt_compat; [|reflexivity].
    rewrite (guarded_slope_opposite seg1). reflexivity.
  - apply FT_lt_compat; [|reflexivity].
    rewrite (guarded_slope_opposite seg2). reflexivity.
  - apply FT_lt_iff.
    assert (H : Qabs ((if FT_lt (1 / 100000) (Qabs (run_of seg1))
                       then slope_of seg1 else 100000)
                      - (if FT_lt (1 / 100000) (Qabs (run_of seg1))
                         then slope_of seg1 else 100000)) == 0).
    { rewrite Qabs_pos; [ring|]. setoid_replace
        ((if FT_lt (1 / 100000) (Qabs (run_of seg1)) then slope_of seg1 else 100000)
         - (if FT_lt (1 / 100000) (Qabs (run_of seg1)) then slope_of seg1 else 100000))
        with 0 by ring. apply Qle_refl. }
    rewrite H. reflexivity.
Qed.

(** X2.  Two segments whose horizontal extents are both at most 1/100000
    in absolute value are reported parallel whatever their vertical
    extents, segments of length zero included; and a segment of larger
    horizontal extent is reported parallel to such a segment exactly when
    its slope is within 1/100000 of the sentinel 100000. *)
Theorem are_parallel_near_vertical :
  forall seg1 seg2 : Segment_2,
    Qabs (run_of seg1) <= 1 / 100000 ->
    (Qabs (run_of seg2) <= 1 / 100000 -> are_parallel seg1 seg2 = true)
    /\ (1 / 100000 < Qabs (run_of seg2) ->
        (are_parallel seg1 seg2 = true <->
         Qabs (100000 - slope_of seg2) < 1 / 100000)).
Proof.
  intros seg1 seg2 H1. rewrite are_parallel_slopes. cbv zeta.
  apply FT_lt_false_iff in H1. rewrite H1. split.
  - intro H2. apply FT_lt_false_iff in H2. rewrite H2. reflexivity.
  - intro H2. apply FT_lt_iff in H2. rewrite H2. apply FT_lt_iff.
Qed.

Lemma are_parallel_near_vertical_witness :
  let seg1 := mkSegment_2 (mkPoint_2 0 0) (mkPoint_2 0 0) in
  let seg2 := mkSegment_2 (mkPoint_2 1 5) (mkPoint_2 1 (-(7))) in
  let seg3 := mkSegment_2 (mkPoint_2 0 0) (mkPoint_2 1 100000) in
  let seg4 := mkSegment_2 (mkPoint_2 0 0) (mkPoint_2 1 200000) in
  Qabs (run_of seg1) <= 1 / 100000
  /\ are_parallel seg1 seg2 = true
  /\ are_parallel seg1 seg3 = true
  /\ are_parallel seg1 seg4 = false.
Proof.
  intros seg1 seg2 seg3 seg4.
  assert (H1 : Qabs (run_of seg1) <= 1 / 100000) by (vm_compute; discriminate).
  split; [exact H1|].
  destruct (are_parallel_near_vertical seg1 seg2 H1) as (Hv & _).
  destruct (are_parallel_near_vertical seg1 seg3 H1) as (_ & H3).
  destruct (are_parallel_near_vertical seg1 seg4 H1) as (_ & H4).
  split; [apply Hv; vm_compute; discriminate|]. split.
  - apply H3; vm_compute; reflexivity.
  - assert (Hlt : 1 / 100000 < Qabs (run_of seg4)) by (vm_compute; reflexivity).
    apply not_true_is_false. intro E.
    apply (H4 Hlt) in E. vm_compute in E. discriminate E.
Defined.

(** *** [check_integrity] *)

Section Integrity.

Context {GT : Geom_traits} {DS : Data_structure}.

Lemma first_violation_none {A : Type} (f : A -> option string) (l : list A) :
  first_violation f l = None <-> forall x, In x l -> f x = None.
Proof.
  induction l as [|x r IH]; cbn [first_violation In].
  - split; [intros _ x [] | reflexivity].
  - destruct (f x) eqn:E.
    + split; [discriminate|]. intro H. rewrite <- E. apply H. left. reflexivity.
    + rewrite IH. split.
      * intros H y [<- | Hy]; [exact E | apply H; exact Hy].
      * intros H y Hy. apply H. right. exact Hy.
Qed.

Lemma existsb_negb_false {A : Type} (p : A -> bool) (l : list A) :
  existsb (fun x => negb (p x)) l = false <-> forall x, In x l -> p x = true.
Proof.
  induction l as [|x r IH]; cbn [existsb In].
  - split; [intros _ x [] | reflexivity].
  - rewrite orb_false_iff, negb_false_iff, IH. split.
    + intros (Hx & Hr) y [<- | Hy]; [exact Hx | apply Hr; exact Hy].
    + intro H. split; [apply H; left; reflexivity|].
      intros y Hy. apply H. right. exact Hy.
Qed.

Lemma existsb_eqb_In (i : nat) (l : list nat) :
  existsb (Nat.eqb i) l = true <-> In i l.
Proof.
  rewrite existsb_exists. split.
  - intros (x & Hx & E). apply Nat.eqb_eq in E. subst x. exact Hx.
  - intro H. exists i. split; [exact H | apply Nat.eqb_refl].
Qed.

Lemma support_plane_violation_none d i :
  support_plane_violation d i = None <->
  is_mesh_valid d i = true
  /\ forall iedge, In iedge (iedges_of d i) -> In i (intersected_planes d iedge).
Proof.
  unfold support_plane_violation.
  destruct (is_mesh_valid d i); cbn [negb].
  2:{ split; [discriminate | intros (H & _); discriminate H]. }
  destruct (existsb _ (iedges_of d i)) eqn:E.
  - split; [discriminate|]. intros (_ & H).
    assert (E' : existsb (fun iedge => negb (existsb (Nat.eqb i)
                                               (intersected_planes d iedge)))
                         (iedges_of d i) = false).
    { apply existsb_negb_false. intros e He. apply existsb_eqb_In. apply H. exact He. }
    congruence.
  - split; [|reflexivity]. intros _. split; [reflexivity|].
    intros e He. apply existsb_eqb_In.
    apply (proj1 (existsb_negb_false _ _) E e He).
Qed.

Lemma iedge_violation_none d iedge :
  iedge_violation d iedge = None <->
  forall sp, In sp (intersected_planes d iedge) -> In iedge (iedges_of d sp).
Proof.
  unfold iedge_violation.
  destruct (existsb _ (intersected_planes d iedge)) eqn:E.
  - split; [discriminate|]. intro H.
    assert (E' : existsb (fun sp => negb (existsb (IEdge_eqb iedge) (iedges_of d sp)))
                         (intersected_planes d iedge) = false).
    { apply existsb_negb_false. intros sp Hsp. apply existsb_eqb_In.
      apply H. exact Hsp. }
    congruence.
  - split; [|reflexivity]. intros _ sp Hsp. apply existsb_eqb_In.
    apply (proj1 (existsb_negb_false _ _) E sp Hsp).
Qed.

(** X3.  [check_integrity] decides the two-way consistency of the support
    planes and the intersection graph and never changes the object: it
    returns [true] exactly when every mesh is valid, every intersection
    edge of a plane lists that plane and every plane an edge lists has the
    edge.  On a violation it returns [false] when the object is not
    verbose and stops at an assertion when it is. *)
Theorem check_integrity_decides :
  forall w,
    (integrity (m_data w) -> check_integrity w = Returned true w)
    /\ (~ integrity (m_data w) -> m_verbose w = false ->
        check_integrity w = Returned false w)
    /\ (~ integrity (m_data w) -> m_verbose w = true ->
        exists msg, check_integrity w = AssertionFailed msg w).
Proof.
  intro w.
  set (v1 := first_violation (support_plane_violation (m_data w))
               (seq 0 (number_of_support_planes (m_data w)))).
  set (v2 := first_violation (iedge_violation (m_data w)) (iedges (m_data w))).
  assert (Hrun : check_integrity w
                 = match match v1 with Some msg => Some msg | None => v2 end with
                   | Some msg => if m_verbose w then AssertionFailed msg w
                                 else Returned false w
                   | None => Returned true w
                   end).
  { unfold check_integrity, bind at 1, get. cbv beta iota zeta. fold v1 v2.
    destruct (match v1 with Some msg => Some msg | None => v2 end);
      [|reflexivity].
    unfold bind, ret, CGAL_assertion_msg. destruct (m_verbose w); reflexivity. }
  rewrite Hrun. clear Hrun.
  assert (H1 : v1 = None <->
               forall i, (i < number_of_support_planes (m_data w))%nat ->
                 is_mesh_valid (m_data w) i = true
                 /\ forall iedge, In iedge (iedges_of (m_data w) i) ->
                                  In i (intersected_planes (m_data w) iedge)).
  { subst v1. rewrite first_violation_none. split.
    - intros H i Hi. apply support_plane_violation_none. apply H.
      apply in_seq. lia.
    - intros H i Hi. apply support_plane_violation_none. apply H.
      apply in_seq in Hi. lia. }
  assert (H2 : v2 = None <->
               forall iedge, In iedge (iedges (m_data w)) ->
               forall sp, In sp (intersected_planes (m_data w) iedge) ->
                          In iedge (iedges_of (m_data w) sp)).
  { subst v2. rewrite first_violation_none. split.
    - intros H e He. apply iedge_violation_none. apply H. exact He.
    - intros H e He. apply iedge_violation_none. apply H. exact He. }
  assert (Hnone : match v1 with Some msg => Some msg | None => v2 end = None
                  <-> integrity (m_data w)).
  { unfold integrity. rewrite <- H1, <- H2.
    destruct v1; [split; [discriminate | intros (H & _); discriminate H]|].
    split; [intro H; split; [reflexivity | exact H] | intros (_ & H); exact H]. }
  destruct (match v1 with Some msg => Some msg | None => v2 end) as [msg|].
  - assert (Hbad : ~ integrity (m_data w)).
    { intro H. apply Hnone in H. discriminate H. }
    split; [intro H; contradiction|]. split.
    + intros _ Hv. rewrite Hv. reflexivity.
    + intros _ Hv. exists msg. rewrite Hv. reflexivity.
  - assert (Hgood : integrity (m_data w)) by (apply Hnone; reflexivity).
    split; [reflexivity|]. split; intro H; contradiction.
Qed.

End Integrity.

(** Plane 3 of the first variant has an invalid mesh; the second variant
    is consistent. *)
Lemma check_integrity_decides_witness :
  let d := Toy.toy_scene 1 false (false, false) in
  let quiet := mkWorld (DS := Toy2.broken 3%nat) d [] 0 1 false [] in
  let loud := mkWorld (DS := Toy2.broken 3%nat) d [] 0 1 true [] in
  let sound := mkWorld (DS := Toy2.crossed) d [] 0 1 true [] in
  integrity (m_data sound)
  /\ ~ integrity (m_data quiet)
  /\ check_integrity sound = Returned true sound
  /\ check_integrity quiet = Returned false quiet
  /\ exists msg, check_integrity loud = AssertionFailed msg loud.
Proof.
  intros d quiet loud sound.
  assert (Hsound : integrity (m_data sound)).
  { split.
    - intros i Hi. split; [reflexivity|]. intros e He.
      change (In e [1; 2; 3]%nat) in He. change (i < 7)%nat in Hi.
      change (In i (if Nat.leb e 3 then seq 0 7 else [])).
      assert (E : Nat.leb e 3 = true)
        by (apply Nat.leb_le; cbn [In] in He; lia).
      rewrite E. apply in_seq. lia.
    - intros e He sp Hsp.
      change (In sp (if Nat.leb e 3 then seq 0 7 else [])) in Hsp.
      change (In e (seq 1 12)) in He. change (In e [1; 2; 3]%nat).
      apply in_seq in He.
      destruct (Nat.leb e 3) eqn:E; [|destruct Hsp].
      apply Nat.leb_le in E. cbn [In]. lia. }
  assert (Hbroken : ~ integrity (DS := Toy2.broken 3%nat) d).
  { intros (H & _). destruct (H 3%nat) as (Hv & _); [cbn; lia|].
    discriminate Hv. }
  split; [exact Hsound|]. split; [exact Hbroken|].
  split; [apply (check_integrity_decides sound); exact Hsound|].
  split.
  - apply (proj1 (proj2 (check_integrity_decides quiet))); [exact Hbroken|].
    reflexivity.
  - apply (proj2 (proj2 (check_integrity_decides loud))); [exact Hbroken|].
    reflexivity.
Defined.

(** *** The events of a vertex *)

Section Events.

Context {GT : Geom_traits} {DS : Data_structure}.

(** A loop whose body pushes at most one event, described by [S]. *)
Lemma for_each_pushes_spec {A : Type} (body : A -> M unit) (l : list A)
    (S : A -> Event -> Prop) :
  (forall x w, exists evs,
      pushes (body x) w tt evs
      /\ (List.length evs <= 1)%nat
      /\ forall e, In e evs <-> S x e) ->
  forall w, exists evs,
    pushes (for_each l body) w tt evs
    /\ (List.length evs <= List.length l)%nat
    /\ forall e, In e evs <-> exists x, In x l /\ S x e.
Proof.
  intro Hbody. induction l as [|x r IH]; intro w; cbn [for_each].
  - exists []. split; [apply pushes_ret|]. split; [apply Nat.le_refl|].
    intro e. split; [intros [] | intros (x & [] & _)].
  - destruct (Hbody x w) as (evs1 & H1 & L1 & S1).
    destruct (IH (with_queue (m_queue w ++ evs1) w)) as (evs2 & H2 & L2 & S2).
    exists (evs1 ++ evs2). split; [eapply pushes_bind; eassumption|]. split.
    + rewrite length_app. cbn [List.length]. lia.
    + intro e. rewrite in_app_iff, S1, S2. split.
      * intros [H | (y & Hy & H)].
        -- exists x. split; [left; reflexivity | exact H].
        -- exists y. split; [right; exact Hy | exact H].
      * intros (y & [<- | Hy] & H); [left; exact H|].
        right. exists y. split; assumption.
Qed.

Ltac no_event :=
  exists []; split; [apply pushes_ret|]; split; [apply Nat.le_0_l|];
  intro e; split; [intros [] |].

Ltac one_event :=
  eexists; split; [apply pushes_push_event|]; split; [apply Nat.le_refl|];
  intro e; cbn [In]; split.

Lemma events_with_neighbour_spec d tmin tmax pvertex pother w :
  exists evs,
    pushes (events_with_neighbour d tmin tmax pvertex
              (motion_segment d tmin tmax pvertex)
              (Segment_2_bbox (motion_segment d tmin tmax pvertex)) pother)
           w tt evs
    /\ (List.length evs <= 1)%nat
    /\ forall e, In e evs <-> meets_neighbour d tmin tmax pvertex pother e.
Proof.
  unfold events_with_neighbour, meets_neighbour. cbv zeta.
  fold (motion_segment d tmin tmax pother).
  destruct (PVertex_eqb pother null_pvertex) eqn:Enull; cbn [orb].
  { no_event. intros (H & _). apply PVertex_eqb_eq in Enull. contradiction. }
  assert (Hnull : pother <> null_pvertex).
  { intro H. apply PVertex_eqb_eq in H. congruence. }
  destruct (is_active d pother); cbn [negb orb].
  2:{ no_event. intros (_ & H & _). discriminate H. }
  destruct (has_iedge d pother).
  { no_event. intros (_ & _ & H & _). discriminate H. }
  destruct (do_overlap _ _); cbn [negb].
  2:{ no_event. intros (_ & _ & _ & H & _). discriminate H. }
  destruct (intersection _ _) as [point|].
  - one_event.
    + intros [<- | []]. repeat split; auto. exists point. split; reflexivity.
    + intros (_ & _ & _ & _ & p & Hp & ->). injection Hp as <-. left. reflexivity.
  - no_event. intros (_ & _ & _ & _ & p & Hp & _). discriminate Hp.
Qed.

Lemma events_with_end_vertex_spec d tmin tmax pvertex ivertex w :
  exists evs,
    pushes (events_with_end_vertex d tmin tmax pvertex
              (motion_segment d tmin tmax pvertex) ivertex) w tt evs
    /\ (List.length evs <= 1)%nat
    /\ forall e, In e evs <-> reaches_end_vertex d tmin tmax pvertex ivertex e.
Proof.
  unfold events_with_end_vertex, reaches_end_vertex, reaches, arrival_time.
  cbv zeta.
  destruct (is_active_ivertex d ivertex); cbn [negb].
  2:{ no_event. intros ((H & _) & _). discriminate H. }
  destruct (FT_lt (dot_2 _ _) 0) eqn:Hd.
  { no_event. intros ((_ & Hpos & _) & _). apply FT_lt_iff in Hd.
    exact (Qlt_not_le _ _ Hd Hpos). }
  apply FT_lt_false_iff in Hd.
  destruct (FT_lt _ (tmax - tmin)) eqn:Ht.
  - apply FT_lt_iff in Ht. one_event.
    + intros [<- | []]. repeat split; assumption.
    + intros (_ & ->). left. reflexivity.
  - no_event. intros ((_ & _ & Hlt) & _). apply FT_lt_false_iff in Ht.
    exact (Qlt_not_le _ _ Hlt Ht).
Qed.

Lemma events_with_iedge_spec d tmin tmax pvertex j w :
  exists evs,
    pushes (events_with_iedge d tmin pvertex (prev d pvertex) (next d pvertex)
              (motion_segment d tmin tmax pvertex)
              (Segment_2_bbox (motion_segment d tmin tmax pvertex)) j) w tt evs
    /\ (List.length evs <= 1)%nat
    /\ forall e, In e evs <-> crosses_iedge d tmin tmax pvertex j e.
Proof.
  unfold events_with_iedge, crosses_iedge. cbv zeta.
  destruct j as (ie & seg & bb). cbn [fst snd].
  destruct (IEdge_eqb (iedge_of d (prev d pvertex)) ie) eqn:E1; cbn [orb].
  { no_event. intros (H & _). apply Nat.eqb_eq in E1. contradiction. }
  destruct (IEdge_eqb (iedge_of d (next d pvertex)) ie) eqn:E2.
  { no_event. intros (_ & H & _). apply Nat.eqb_eq in E2. contradiction. }
  apply Nat.eqb_neq in E1, E2.
  destruct (is_active_iedge d ie); cbn [negb].
  2:{ no_event. intros (_ & _ & H & _). discriminate H. }
  destruct (do_overlap _ bb); cbn [negb].
  2:{ no_event. intros (_ & _ & _ & H & _). discriminate H. }
  destruct (intersection _ seg) as [point|].
  - one_event.
    + intros [<- | []]. repeat split; auto. exists point. split; reflexivity.
    + intros (_ & _ & _ & _ & p & Hp & ->). injection Hp as <-. left. reflexivity.
  - no_event. intros (_ & _ & _ & _ & p & Hp & _). discriminate Hp.
Qed.

Lemma compute_events_of_constrained_vertex pvertex iedges segments_2 segment_bboxes w :
  let d := m_data w in
  is_frozen d pvertex = false ->
  has_iedge d pvertex = true ->
  exists evs,
    pushes (compute_events_of_vertex pvertex iedges segments_2 segment_bboxes)
           w true evs
    /\ (List.length evs <= 4)%nat
    /\ forall e,
         In e evs <->
         (exists pother,
             In pother [fst (prev_and_next d pvertex); snd (prev_and_next d pvertex)]
             /\ meets_neighbour d (m_min_time w) (m_max_time w) pvertex pother e)
         \/ (exists ivertex,
               In ivertex [source d (iedge_of d pvertex); target d (iedge_of d pvertex)]
               /\ reaches_end_vertex d (m_min_time w) (m_max_time w) pvertex ivertex e).
Proof.
  intros d Hfrozen Hedge.
  unfold compute_events_of_vertex, pushes, bind at 1, get. cbv beta iota.
  fold d. rewrite Hfrozen, Hedge.
  change (mkSegment_2 (point_2 d pvertex (m_min_time w))
                      (point_2 d pvertex (m_max_time w)))
    with (motion_segment d (m_min_time w) (m_max_time w) pvertex).
  destruct (prev_and_next d pvertex) as (pprev, pnext). cbn [fst snd].
  destruct (for_each_pushes_spec _ [pprev; pnext] _
              (events_with_neighbour_spec d (m_min_time w) (m_max_time w) pvertex) w)
    as (evs1 & H1 & L1 & S1).
  destruct (for_each_pushes_spec _
              [source d (iedge_of d pvertex); target d (iedge_of d pvertex)] _
              (events_with_end_vertex_spec d (m_min_time w) (m_max_time w) pvertex)
              (with_queue (m_queue w ++ evs1) w))
    as (evs2 & H2 & L2 & S2).
  exists (evs1 ++ evs2). split; [|split].
  - rewrite <- (app_nil_r (evs1 ++ evs2)).
    apply (pushes_bind _ _ w tt true (evs1 ++ evs2) []); [|apply pushes_ret].
    eapply pushes_bind; eassumption.
  - rewrite length_app. cbn [List.length] in L1, L2. lia.
  - intro e. rewrite in_app_iff, S1, S2. reflexivity.
Qed.

Lemma compute_events_of_free_vertex pvertex iedges segments_2 segment_bboxes w :
  let d := m_data w in
  is_frozen d pvertex = false ->
  has_iedge d pvertex = false ->
  exists evs,
    pushes (compute_events_of_vertex pvertex iedges segments_2 segment_bboxes)
           w true evs
    /\ (List.length evs
        <= List.length (combine iedges (combine segments_2 segment_bboxes)))%nat
    /\ forall e,
         In e evs <->
         exists j,
           In j (combine iedges (combine segments_2 segment_bboxes))
           /\ crosses_iedge d (m_min_time w) (m_max_time w) pvertex j e.
Proof.
  intros d Hfrozen Hedge.
  unfold compute_events_of_vertex, pushes, bind at 1, get. cbv beta iota.
  fold d. rewrite Hfrozen, Hedge.
  change (mkSegment_2 (point_2 d pvertex (m_min_time w))
                      (point_2 d pvertex (m_max_time w)))
    with (motion_segment d (m_min_time w) (m_max_time w) pvertex).
  destruct (for_each_pushes_spec _
              (combine iedges (combine segments_2 segment_bboxes)) _
              (events_with_iedge_spec d (m_min_time w) (m_max_time w) pvertex) w)
    as (evs & H & L & S).
  exists evs. split; [|split; assumption].
  rewrite <- (app_nil_r evs).
  apply (pushes_bind _ _ w tt true evs []); [exact H | apply pushes_ret].
Qed.

Lemma combine_search_structures d i :
  let iedges := iedges_of d i in
  let segments_2 := map (segment_2 d i) iedges in
  combine iedges (combine segments_2 (map Segment_2_bbox segments_2))
  = map (fun iedge => (iedge, (segment_2 d i iedge,
                               Segment_2_bbox (segment_2 d i iedge)))) iedges.
Proof.
  cbv zeta. induction (iedges_of d i) as [|e r IH]; cbn [map combine].
  - reflexivity.
  - rewrite IH. reflexivity.
Qed.

(** X4.  Events of a free vertex.  With the search structures of its
    support plane, [compute_events_of_vertex] returns [true] for a free
    vertex that is not frozen and pushes, after the events already queued,
    exactly one [pvertex_to_iedge] event for every intersection edge of the
    plane that is not the edge of one of its two neighbours, is active,
    whose box overlaps that of the motion segment and which the motion
    segment intersects; the time of the event is [m_min_time] plus the
    distance to the intersection point divided by the speed.  It pushes at
    most one event per intersection edge and nothing else. *)
Theorem free_vertex_iedge_events :
  forall pvertex i w,
    let d := m_data w in
    let sv := motion_segment d (m_min_time w) (m_max_time w) pvertex in
    is_frozen d pvertex = false ->
    has_iedge d pvertex = false ->
    exists evs,
      (let '(iedges, segments_2, segment_bboxes) := init_search_structures d i in
       compute_events_of_vertex pvertex iedges segments_2 segment_bboxes w)
      = Returned true (with_queue (m_queue w ++ evs) w)
      /\ (List.length evs <= List.length (iedges_of d i))%nat
      /\ forall e,
           In e evs <->
           exists iedge point,
             In iedge (iedges_of d i)
             /\ iedge_of d (prev d pvertex) <> iedge
             /\ iedge_of d (next d pvertex) <> iedge
             /\ is_active_iedge d iedge = true
             /\ do_overlap (Segment_2_bbox sv)
                           (Segment_2_bbox (segment_2 d i iedge)) = true
             /\ intersection sv (segment_2 d i iedge) = Some point
             /\ e = pvertex_to_iedge false pvertex iedge
                      (m_min_time w
                       + approximate_sqrt
                           (squared_distance_2 (point_2 d pvertex (m_min_time w)) point)
                         / speed d pvertex).
Proof.
  intros pvertex i w d sv Hfrozen Hedge.
  unfold init_search_structures. fold d.
  destruct (compute_events_of_free_vertex pvertex (iedges_of d i)
              (map (segment_2 d i) (iedges_of d i))
              (map Segment_2_bbox (map (segment_2 d i) (iedges_of d i)))
              w Hfrozen Hedge) as (evs & H & L & S).
  fold d in S, L. rewrite (combine_search_structures d i) in S, L.
  rewrite length_map in L.
  exists evs. split; [exact H|]. split; [exact L|].
  intro e. rewrite S. unfold crosses_iedge, time_at. cbv zeta. fold sv. split.
  - intros (j & Hj & H1 & H2 & H3 & H4 & point & H5 & H6).
    apply in_map_iff in Hj. destruct Hj as (iedge & <- & Hin).
    cbn [fst snd] in *. exists iedge, point. repeat split; assumption.
  - intros (iedge & point & Hin & H1 & H2 & H3 & H4 & H5 & H6).
    exists (iedge, (segment_2 d i iedge, Segment_2_bbox (segment_2 d i iedge))).
    split; [apply in_map_iff; exists iedge; split; [reflexivity | exact Hin]|].
    cbn [fst snd]. repeat split; try assumption.
    exists point. split; assumption.
Qed.

(** X5.  Events of a constrained vertex.  For a constrained vertex that is
    not frozen [compute_events_of_vertex] returns [true] and pushes at most
    four events, which are exactly: a [pvertex_to_pvertex] event for each
    of its two neighbours that exists, is active and free, and whose motion
    segment overlaps and intersects its own; and the [pvertex_to_ivertex]
    events of the ends of its intersection edge.  The intersection edges
    passed in are not looked at. *)
Theorem constrained_vertex_events :
  forall pvertex iedges segments_2 segment_bboxes w,
    let d := m_data w in
    is_frozen d pvertex = false ->
    has_iedge d pvertex = true ->
    exists evs,
      compute_events_of_vertex pvertex iedges segments_2 segment_bboxes w
      = Returned true (with_queue (m_queue w ++ evs) w)
      /\ compute_events_of_vertex pvertex [] [] [] w
         = Returned true (with_queue (m_queue w ++ evs) w)
      /\ (List.length evs <= 4)%nat
      /\ forall e,
           In e evs <->
           (exists pother,
               (pother = fst (prev_and_next d pvertex)
                \/ pother = snd (prev_and_next d pvertex))
               /\ meets_neighbour d (m_min_time w) (m_max_time w) pvertex pother e)
           \/ (exists ivertex,
                 (ivertex = source d (iedge_of d pvertex)
                  \/ ivertex = target d (iedge_of d pvertex))
                 /\ reaches_end_vertex d (m_min_time w) (m_max_time w)
                      pvertex ivertex e).
Proof.
  intros pvertex iedges segments_2 segment_bboxes w d Hfrozen Hedge.
  destruct (compute_events_of_constrained_vertex pvertex iedges segments_2
              segment_bboxes w Hfrozen Hedge) as (evs & H & L & S).
  exists evs. split; [exact H|]. split; [|split; [exact L|]].
  - unfold pushes in H. rewrite <- H. subst d.
    cbv [compute_events_of_vertex bind get].
    rewrite Hfrozen, Hedge. reflexivity.
  - intro e. rewrite S. fold d. cbn [In]. split.
    + intros [(po & [<- | [<- | []]] & Hm) | (iv & [<- | [<- | []]] & Hr)];
        [left; eexists; split; [left; reflexivity | exact Hm]
        | left; eexists; split; [right; reflexivity | exact Hm]
        | right; eexists; split; [left; reflexivity | exact Hr]
        | right; eexists; split; [right; reflexivity | exact Hr]].
    + intros [(po & [-> | ->] & Hm) | (iv & [-> | ->] & Hr)];
        [left; eexists; split; [left; reflexivity | exact Hm]
        | left; eexists; split; [right; left; reflexivity | exact Hm]
        | right; eexists; split; [left; reflexivity | exact Hr]
        | right; eexists; split; [right; left; reflexivity | exact Hr]].
Qed.

(** The events pushed for a vertex, whatever its state. *)
Lemma compute_events_of_vertex_cases pvertex iedges segments_2 segment_bboxes w :
  let d := m_data w in
  exists evs,
    pushes (compute_events_of_vertex pvertex iedges segments_2 segment_bboxes)
           w (negb (is_frozen d pvertex)) evs
    /\ (List.length evs <= if has_iedge d pvertex then 4 else List.length iedges)%nat
    /\ forall e,
         In e evs ->
         is_frozen d pvertex = false
         /\ ((has_iedge d pvertex = true
              /\ ((exists pother,
                      meets_neighbour d (m_min_time w) (m_max_time w) pvertex pother e)
                  \/ (exists ivertex,
                        reaches_end_vertex d (m_min_time w) (m_max_time w)
                          pvertex ivertex e)))
             \/ (has_iedge d pvertex = false
                 /\ exists j, crosses_iedge d (m_min_time w) (m_max_time w)
                                pvertex j e)).
Proof.
  intro d. destruct (is_frozen d pvertex) eqn:Hfrozen.
  - exists []. split; [|split].
    + unfold pushes. fold d in Hfrozen.
      rewrite (compute_events_of_vertex_frozen _ _ _ _ _ Hfrozen).
      rewrite app_nil_r, with_queue_same. reflexivity.
    + apply Nat.le_0_l.
    + intros e [].
  - destruct (has_iedge d pvertex) eqn:Hedge.
    + destruct (compute_events_of_constrained_vertex pvertex iedges segments_2
                  segment_bboxes w Hfrozen Hedge) as (evs & H & L & S).
      exists evs. split; [exact H|]. split; [exact L|].
      intros e He. split; [reflexivity|]. left. split; [reflexivity|].
      apply S in He. destruct He as [(po & _ & Hm) | (iv & _ & Hr)];
        [left; exists po; exact Hm | right; exists iv; exact Hr].
    + destruct (compute_events_of_free_vertex pvertex iedges segments_2
                  segment_bboxes w Hfrozen Hedge) as (evs & H & L & S).
      exists evs. split; [exact H|]. split.
      * eapply Nat.le_trans; [exact L|]. rewrite length_combine. apply Nat.le_min_l.
      * intros e He. split; [reflexivity|]. right. split; [reflexivity|].
        apply S in He. destruct He as (j & _ & Hc). exists j. exact Hc.
Qed.

(** X6.  What [compute_events_of_vertex] never pushes.  Every event it
    pushes is an event of the vertex it was called for, and its first
    argument tells whether that vertex is constrained.  A
    [pvertex_to_pvertex] event pairs a constrained vertex with an active,
    free neighbour (two constrained vertices are never paired when the
    event is computed); a [pvertex_to_ivertex] event is pushed only for a
    constrained vertex and an active intersection vertex; a
    [pvertex_to_iedge] event only for a free vertex and an active
    intersection edge.  At most four events are pushed for a constrained
    vertex and at most one per intersection edge for a free one. *)
Theorem pushed_events_are_well_formed :
  forall pvertex iedges segments_2 segment_bboxes w,
    let d := m_data w in
    exists evs,
      compute_events_of_vertex pvertex iedges segments_2 segment_bboxes w
      = Returned (negb (is_frozen d pvertex)) (with_queue (m_queue w ++ evs) w)
      /\ (List.length evs
          <= if has_iedge d pvertex then 4 else List.length iedges)%nat
      /\ forall e,
           In e evs ->
           ev_pvertex e = pvertex
           /\ ev_is_constrained e = has_iedge d pvertex
           /\ match e with
              | pvertex_to_pvertex _ _ pother _ =>
                  has_iedge d pvertex = true
                  /\ has_iedge d pother = false
                  /\ is_active d pother = true
                  /\ pother <> null_pvertex
              | pvertex_to_iedge _ _ iedge _ =>
                  has_iedge d pvertex = false /\ is_active_iedge d iedge = true
              | pvertex_to_ivertex _ _ ivertex _ =>
                  has_iedge d pvertex = true /\ is_active_ivertex d ivertex = true
              end.
Proof.
  intros pvertex iedges segments_2 segment_bboxes w d.
  destruct (compute_events_of_vertex_cases pvertex iedges segments_2
              segment_bboxes w) as (evs & H & L & S).
  exists evs. split; [exact H|]. split; [exact L|].
  intros e He. subst d.
  destruct (S e He) as (_ & [(Hc & [(po & Hm) | (iv & Hr)]) | (Hf & j & Hx)]).
  - destruct Hm as (Hnull & Hact & Hfree & _ & point & _ & ->).
    cbn [ev_pvertex ev_is_constrained]. rewrite Hc. repeat split; assumption.
  - destruct Hr as ((Hact & _) & ->).
    cbn [ev_pvertex ev_is_constrained]. rewrite Hc. repeat split; assumption.
  - destruct Hx as (_ & _ & Hact & _ & point & _ & ->).
    cbn [ev_pvertex ev_is_constrained]. rewrite Hf. repeat split; assumption.
Qed.

Lemma squared_distance_2_nonneg (p q : Point_2) : 0 <= squared_distance_2 p q.
Proof.
  unfold squared_distance_2, dot_2, Vector_2_of. cbn [v2x v2y].
  generalize (p2x q - p2x p) (p2y q - p2y p). unfold FT. intros a b.
  assert (Ha : 0 <= a * a) by (destruct (Qlt_le_dec a 0); nra).
  assert (Hb : 0 <= b * b) by (destruct (Qlt_le_dec b 0); nra).
  lra.
Qed.

Lemma time_at_after d tmin pvertex from point :
  (forall x, 0 <= x -> 0 <= approximate_sqrt x) ->
  0 < speed d pvertex ->
  tmin <= time_at d tmin pvertex from point.
Proof.
  intros Hsqrt Hspeed. unfold time_at.
  assert (H : 0 <= approximate_sqrt (squared_distance_2 from point) / speed d pvertex).
  { apply Qle_shift_div_l; [exact Hspeed|]. rewrite Qmult_0_l.
    apply Hsqrt. apply squared_distance_2_nonneg. }
  lra.
Qed.

(** X7.  Times of the events.  When the square root of the kernel is not
    negative and the vertex has a positive speed, no event pushed by
    [compute_events_of_vertex] is earlier than [m_min_time], and every
    [pvertex_to_ivertex] event is strictly earlier than [m_max_time]. *)
Theorem pushed_events_are_in_the_window :
  forall pvertex iedges segments_2 segment_bboxes w,
    (forall x, 0 <= x -> 0 <= approximate_sqrt x) ->
    0 < speed (m_data w) pvertex ->
    exists evs,
      compute_events_of_vertex pvertex iedges segments_2 segment_bboxes w
      = Returned (negb (is_frozen (m_data w) pvertex))
                 (with_queue (m_queue w ++ evs) w)
      /\ forall e,
           In e evs ->
           m_min_time w <= ev_time e
           /\ (is_pvertex_to_ivertex e = true -> ev_time e < m_max_time w).
Proof.
  intros pvertex iedges segments_2 segment_bboxes w Hsqrt Hspeed.
  destruct (compute_events_of_vertex_cases pvertex iedges segments_2
              segment_bboxes w) as (evs & H & _ & S).
  exists evs. split; [exact H|].
  intros e He.
  destruct (S e He) as (_ & [(_ & [(po & Hm) | (iv & Hr)]) | (_ & j & Hx)]).
  - destruct Hm as (_ & _ & _ & _ & point & _ & ->). cbn [ev_time is_pvertex_to_ivertex].
    split; [apply time_at_after; assumption | discriminate].
  - destruct Hr as ((_ & _ & Hlt) & ->). cbn [ev_time is_pvertex_to_ivertex].
    assert (Hpos : 0 <= arrival_time (m_data w) pvertex
                          (source_2 (motion_segment (m_data w) (m_min_time w)
                                       (m_max_time w) pvertex)) iv).
    { unfold arrival_time. apply Qle_shift_div_l; [exact Hspeed|].
      rewrite Qmult_0_l. apply Hsqrt. apply squared_distance_2_nonneg. }
    split; [lra | intros _; lra].
  - destruct Hx as (_ & _ & _ & _ & point & _ & ->). cbn [ev_time is_pvertex_to_ivertex].
    split; [apply time_at_after; assumption | discriminate].
Qed.

End Events.

(** The free vertex [(6, 0)] moves from [x = 0] to [x = 5/2] over a plane
    with the edges at [x = 1], [x = 2] and [x = 3]: it gets the events of
    the first two, at the times 1 and 2. *)
Lemma free_vertex_iedge_events_witness :
  let d := Toy.toy_scene 1 false (false, false) in
  let w := mkWorld (DS := Toy2.crossed) d [] 0 (5 # 2) false [] in
  let pvertex := (6%nat, O) in
  is_frozen (m_data w) pvertex = false
  /\ has_iedge (m_data w) pvertex = false
  /\ exists evs,
       compute_events_of_vertex (GT := Toy2.traits) pvertex
         [1; 2; 3]%nat
         (map (segment_2 (m_data w) 6%nat) [1; 2; 3]%nat)
         (map Segment_2_bbox (map (segment_2 (m_data w) 6%nat) [1; 2; 3]%nat)) w
       = Returned true (with_queue (m_queue w ++ evs) w)
       /\ In (pvertex_to_iedge false pvertex 1%nat (0 + 1 / 1)) evs
       /\ In (pvertex_to_iedge false pvertex 2%nat (0 + 2 / 1)) evs
       /\ forall t, ~ In (pvertex_to_iedge false pvertex 3%nat t) evs.
Proof.
  intros d w pvertex. split; [reflexivity|]. split; [reflexivity|].
  destruct (free_vertex_iedge_events (GT := Toy2.traits) (DS := Toy2.crossed)
              pvertex 6%nat w eq_refl eq_refl) as (evs & Hrun & _ & Hevs).
  exists evs. split; [exact Hrun|]. split; [|split].
  - apply Hevs. exists 1%nat, (mkPoint_2 1 0).
    repeat split; try reflexivity; try discriminate.
    left. reflexivity.
  - apply Hevs. exists 2%nat, (mkPoint_2 2 0).
    repeat split; try reflexivity; try discriminate.
    right. left. reflexivity.
  - intros t Hin. apply Hevs in Hin.
    destruct Hin as (ie & point & _ & _ & _ & _ & Hbox & _ & Heq).
    injection Heq as <- _. vm_compute in Hbox. discriminate Hbox.
Defined.

(** The constrained vertex [(6, 0)] of the small instance slides along edge
    1 over the window [[0, 2]]: it gets the event of the end vertex at
    [x = 1]. *)
Lemma constrained_vertex_events_witness :
  let d := Toy.toy_initial 1 (fun _ => 1%nat) (false, false) in
  let w := mkWorld (DS := Toy.toy_structure) d [] 0 2 false [] in
  let pvertex := (6%nat, O) in
  is_frozen (m_data w) pvertex = false
  /\ has_iedge (m_data w) pvertex = true
  /\ exists evs,
       compute_events_of_vertex (GT := Toy.toy_traits) pvertex [1%nat] [] [] w
       = Returned true (with_queue (m_queue w ++ evs) w)
       /\ (List.length evs <= 4)%nat
       /\ In (pvertex_to_ivertex true pvertex 1%nat (0 + 1 / 1)) evs.
Proof.
  intros d w pvertex. split; [reflexivity|]. split; [reflexivity|].
  destruct (constrained_vertex_events (GT := Toy.toy_traits)
              (DS := Toy.toy_structure) pvertex [1%nat] [] [] w eq_refl eq_refl)
    as (evs & Hrun & _ & Hlen & Hevs).
  exists evs. split; [exact Hrun|]. split; [exact Hlen|].
  apply Hevs. right. exists 1%nat. split; [left; reflexivity|].
  split; [|reflexivity].
  split; [reflexivity|]. split; [vm_compute; discriminate | vm_compute; reflexivity].
Defined.

Lemma pushed_events_are_well_formed_witness :
  let d := Toy.toy_scene 1 false (false, false) in
  let w := mkWorld (DS := Toy2.crossed) d [] 0 (5 # 2) false [] in
  let pvertex := (6%nat, O) in
  exists evs,
    compute_events_of_vertex (GT := Toy2.traits) pvertex [1; 2; 3]%nat
      (map (segment_2 (m_data w) 6%nat) [1; 2; 3]%nat)
      (map Segment_2_bbox (map (segment_2 (m_data w) 6%nat) [1; 2; 3]%nat)) w
    = Returned true (with_queue (m_queue w ++ evs) w)
    /\ (List.length evs <= 3)%nat
    /\ forall e, In e evs -> ev_pvertex e = pvertex /\ ev_is_constrained e = false.
Proof.
  intros d w pvertex.
  destruct (pushed_events_are_well_formed (GT := Toy2.traits) (DS := Toy2.crossed)
              pvertex [1; 2; 3]%nat
              (map (segment_2 (m_data w) 6%nat) [1; 2; 3]%nat)
              (map Segment_2_bbox (map (segment_2 (m_data w) 6%nat) [1; 2; 3]%nat)) w)
    as (evs & Hrun & Hlen & Hevs).
  exists evs. split; [exact Hrun|]. split; [exact Hlen|].
  intros e He. destruct (Hevs e He) as (Hv & Hc & _). split; [exact Hv | exact Hc].
Defined.

Lemma toy_sqrt_nonneg :
  forall x, 0 <= x -> 0 <= approximate_sqrt (Geom_traits := Toy2.traits) x.
Proof.
  intros x Hx. cbn. destruct (FT_eq x 4); [discriminate | exact Hx].
Qed.

Lemma pushed_events_are_in_the_window_witness :
  let d := Toy.toy_scene 1 false (false, false) in
  let w := mkWorld (DS := Toy2.crossed) d [] 0 (5 # 2) false [] in
  let pvertex := (6%nat, O) in
  0 < speed (m_data w) pvertex
  /\ exists evs,
       compute_events_of_vertex (GT := Toy2.traits) pvertex [1; 2; 3]%nat
         (map (segment_2 (m_data w) 6%nat) [1; 2; 3]%nat)
         (map Segment_2_bbox (map (segment_2 (m_data w) 6%nat) [1; 2; 3]%nat)) w
       = Returned true (with_queue (m_queue w ++ evs) w)
       /\ forall e, In e evs -> 0 <= ev_time e.
Proof.
  intros d w pvertex. split; [reflexivity|].
  destruct (pushed_events_are_in_the_window (GT := Toy2.traits) (DS := Toy2.crossed)
              pvertex [1; 2; 3]%nat
              (map (segment_2 (m_data w) 6%nat) [1; 2; 3]%nat)
              (map Segment_2_bbox (map (segment_2 (m_data w) 6%nat) [1; 2; 3]%nat)) w
              toy_sqrt_nonneg eq_refl)
    as (evs & Hrun & Hevs).
  exists evs. split; [exact Hrun|].
  intros e He. apply (Hevs e He).
Defined.

(** *** What event application leaves alone *)

Section Respects.

Context {GT : Geom_traits} {DS : Data_structure}.

Variable R : World -> World -> Prop.
Hypothesis R_refl : forall w, R w w.
Hypothesis R_trans : forall w1 w2 w3, R w1 w2 -> R w2 w3 -> R w1 w3.
Hypothesis R_data : forall d w, R w (with_data d w).
Hypothesis R_queue : forall q w, R w (with_queue q w).
Hypothesis R_min_time : forall t w, R w (with_min_time t w).

Lemma respects_ret {A : Type} (a : A) w : respects R (ret a) w.
Proof. intros w' H. injection H as <-. apply R_refl. Qed.

Lemma respects_bind {A B : Type} (m : M A) (f : A -> M B) w :
  respects R m w ->
  (forall a w1, m w = Returned a w1 -> respects R (f a) w1) ->
  respects R (bind m f) w.
Proof.
  intros Hm Hf w' H. unfold bind in H. unfold respects in Hm.
  destruct (m w) as [a w1 | s w1 | msg w1 |] eqn:E; cbn [final_world] in Hm.
  - eapply R_trans; [apply Hm; reflexivity|].
    eapply Hf; [reflexivity | exact H].
  - apply Hm. exact H.
  - apply Hm. exact H.
  - discriminate H.
Qed.

Lemma respects_get w : respects R get w.
Proof. intros w' H. injection H as <-. apply R_refl. Qed.

Lemma respects_assertion cond msg w : respects R (CGAL_assertion_msg cond msg) w.
Proof.
  intros w' H. unfold CGAL_assertion_msg in H.
  destruct cond; injection H as <-; apply R_refl.
Qed.

Lemma respects_data_do g w : respects R (data_do g) w.
Proof. intros w' H. injection H as <-. apply R_data. Qed.

Lemma respects_data_call {A : Type} (g : Data -> A * Data) w :
  respects R (data_call g) w.
Proof.
  intros w' H. unfold data_call in H. destruct (g (m_data w)) as (a, d).
  injection H as <-. apply R_data.
Qed.

Lemma respects_remove_events pv w : respects R (remove_events pv) w.
Proof. intros w' H. injection H as <-. apply R_queue. Qed.

Lemma respects_remove_events_of_iedge ie sp w :
  respects R (remove_events_of_iedge ie sp) w.
Proof. intros w' H. injection H as <-. apply R_queue. Qed.

Lemma respects_set_min_time t w : respects R (set_min_time t) w.
Proof. intros w' H. injection H as <-. apply R_min_time. Qed.

Lemma respects_for_each {A : Type} (l : list A) (body : A -> M unit) :
  (forall x w, respects R (body x) w) -> forall w, respects R (for_each l body) w.
Proof.
  intro Hbody. induction l as [|x r IH]; intro w; cbn [for_each].
  - apply respects_ret.
  - apply respects_bind; [apply Hbody | intros _ w1 _; apply IH].
Qed.

Lemma respects_pushes {A : Type} (m : M A) w a evs :
  pushes m w a evs -> respects R m w.
Proof.
  intros H w' Hw. rewrite H in Hw. injection Hw as <-. apply R_queue.
Qed.

Ltac respect_with extra :=
  repeat first
    [ extra
    | apply respects_ret
    | apply respects_get
    | apply respects_assertion
    | apply respects_data_do
    | apply respects_data_call
    | apply respects_remove_events
    | apply respects_remove_events_of_iedge
    | apply respects_set_min_time
    | apply respects_for_each; intros ? ?
    | match goal with
      | |- respects R (if ?c then _ else _) _ => destruct c
      | |- respects R (let '(_, _) := ?p in _) _ => destruct p
      | |- respects R (match ?p with (_, _) => _ end) _ => destruct p
      end
    | apply respects_bind; [|intros ? ? _] ].

Lemma respects_compute_events_of_vertex pv ies segs bbs w :
  respects R (compute_events_of_vertex pv ies segs bbs) w.
Proof.
  destruct (compute_events_of_vertex_pushes pv ies segs bbs w) as (evs & H).
  eapply respects_pushes. exact H.
Qed.

Lemma respects_compute_events_of_vertices time pvertices w :
  respects R (compute_events_of_vertices time pvertices) w.
Proof.
  unfold compute_events_of_vertices.
  respect_with ltac:(apply respects_compute_events_of_vertex).
Qed.

Lemma respects_check_integrity w : respects R check_integrity w.
Proof.
  intros w' Hw. unfold check_integrity in Hw.
  cbv [bind get ret CGAL_assertion_msg] in Hw.
  destruct (match first_violation _ _ with Some _ => _ | None => _ end).
  - destruct (m_verbose w); injection Hw as <-; apply R_refl.
  - injection Hw as <-. apply R_refl.
Qed.

Lemma respects_single_vertex_crossing time pvertex iedge pface w :
  respects R (single_vertex_crossing time pvertex iedge pface) w.
Proof.
  unfold single_vertex_crossing, CGAL_assertion.
  respect_with ltac:(apply respects_compute_events_of_vertices).
Qed.

Lemma respects_two_vertex_crossing time pvertex pother iedge pface w :
  respects R (two_vertex_crossing time pvertex pother iedge pface) w.
Proof.
  unfold two_vertex_crossing, CGAL_assertion.
  respect_with ltac:(apply respects_compute_events_of_vertices).
Qed.

Lemma respects_parallel_neighbour_loop d time pvertex iedge pface seg_edge pothers :
  forall w,
    respects R (parallel_neighbour_loop d time pvertex iedge pface seg_edge pothers) w.
Proof.
  induction pothers as [|pother rest IH]; intro w; cbn [parallel_neighbour_loop].
  - apply respects_ret.
  - apply respects_bind; [apply respects_assertion|]. intros _ w1 _.
    destruct (_ && are_parallel _ _).
    + apply respects_bind; [apply respects_two_vertex_crossing|].
      intros; apply respects_ret.
    + apply IH.
Qed.

Lemma respects_constrained_meets_free time pvertex pother w :
  respects R (constrained_meets_free time pvertex pother) w.
Proof.
  unfold constrained_meets_free, CGAL_assertion.
  respect_with ltac:(apply respects_compute_events_of_vertices).
Qed.

Lemma respects_apply k ev w : respects R (apply k ev) w.
Proof.
  destruct ev as [c pvertex pother time | c pvertex iedge time
                  | c pvertex ivertex time]; unfold apply, CGAL_assertion.
  - respect_with ltac:(apply respects_constrained_meets_free).
  - apply respects_bind; [apply respects_get|]. intros w0 w1 _.
    apply respects_bind; [apply respects_parallel_neighbour_loop|].
    intros done w2 _. destruct done; cbn [negb].
    + apply respects_ret.
    + apply respects_single_vertex_crossing.
  - respect_with ltac:(apply respects_compute_events_of_vertices).
Qed.

Lemma respects_run fuel k : forall w, respects R (run fuel k) w.
Proof.
  induction fuel as [|fuel IH]; intro w; cbn [run];
    (apply respects_bind; [apply respects_get|]); intros w0 w1 _;
    destruct (pop (m_queue w0)) as [(ev, q)|]; try apply respects_ret.
  - intros w' Hw. discriminate Hw.
  - apply respects_bind.
    { intros w' Hw. injection Hw as <-. apply R_queue. }
    intros _ w2 _.
    apply respects_bind; [apply respects_data_do|]. intros _ w3 _.
    apply respects_bind; [apply respects_apply|]. intros _ w4 _.
    apply respects_bind; [apply respects_check_integrity|]. intros _ w5 _.
    apply IH.
Qed.

End Respects.

(** *** [compute_events_of_vertices], [run] and the loop of [partition] *)

Section Loops.

Context {GT : Geom_traits} {DS : Data_structure}.

Lemma same_window_end_refl w : same_window_end w w.
Proof. repeat split. Qed.

Lemma same_window_end_trans w1 w2 w3 :
  same_window_end w1 w2 -> same_window_end w2 w3 -> same_window_end w1 w3.
Proof.
  unfold same_window_end. intros (A1 & B1 & C1) (A2 & B2 & C2).
  repeat split; congruence.
Qed.

Lemma bind_returned {A B : Type} (m : M A) (f : A -> M B) w b w' :
  bind m f w = Returned b w' ->
  exists a w1, m w = Returned a w1 /\ f a w1 = Returned b w'.
Proof.
  unfold bind. destruct (m w) as [a w1 | | |]; try discriminate.
  intro H. exists a, w1. split; [reflexivity | exact H].
Qed.

Lemma for_each_data_do {A : Type} (f : A -> Data -> Data) (l : list A) :
  forall w,
    for_each l (fun x => data_do (f x)) w
    = Returned tt (with_data (fold_left (fun d x => f x d) l (m_data w)) w).
Proof.
  induction l as [|x r IH]; intro w; cbn [for_each fold_left].
  - unfold ret. rewrite with_data_same. reflexivity.
  - unfold bind, data_do at 1, modify. rewrite IH. reflexivity.
Qed.

Lemma compute_events_of_vertex_owner pvertex iedges segments_2 segment_bboxes w :
  exists evs,
    pushes (compute_events_of_vertex pvertex iedges segments_2 segment_bboxes)
           w (negb (is_frozen (m_data w) pvertex)) evs
    /\ Forall (fun e => ev_pvertex e = pvertex) evs.
Proof.
  destruct (compute_events_of_vertex_cases pvertex iedges segments_2
              segment_bboxes w) as (evs & H & _ & S).
  exists evs. split; [exact H|]. apply Forall_forall. intros e He.
  destruct (S e He) as (_ & [(_ & [(po & Hm) | (iv & Hr)]) | (_ & j & Hx)]).
  - destruct Hm as (_ & _ & _ & _ & point & _ & ->). reflexivity.
  - destruct Hr as (_ & ->). reflexivity.
  - destruct Hx as (_ & _ & _ & _ & point & _ & ->). reflexivity.
Qed.

(** The loop of [compute_events_of_vertices] that computes the events. *)
Lemma events_loop time iedges segments_2 segment_bboxes pvertices :
  forall w,
  exists evs,
    for_each pvertices
      (fun pvertex =>
         data_do (set_last_event_time pvertex time) ;;
         _ <- compute_events_of_vertex pvertex iedges segments_2 segment_bboxes ;;
         ret tt) w
    = Returned tt
        (with_data
           (fold_left (fun d pvertex => set_last_event_time pvertex time d)
                      pvertices (m_data w))
           (with_queue (m_queue w ++ evs) w))
    /\ Forall (fun e => In (ev_pvertex e) pvertices) evs.
Proof.
  induction pvertices as [|pv r IH]; intro w; cbn [for_each fold_left].
  - exists []. split; [|constructor].
    unfold ret. rewrite app_nil_r, with_queue_same, with_data_same. reflexivity.
  - set (w1 := with_data (set_last_event_time pv time (m_data w)) w).
    destruct (compute_events_of_vertex_owner pv iedges segments_2 segment_bboxes w1)
      as (evs1 & H1 & O1).
    destruct (IH (with_queue (m_queue w1 ++ evs1) w1)) as (evs2 & H2 & O2).
    exists (evs1 ++ evs2). split.
    + unfold bind at 1. unfold bind at 1, data_do at 1, modify. fold w1.
      unfold bind at 1. unfold pushes in H1. rewrite H1. unfold ret at 1.
      rewrite H2. cbn [m_data m_queue with_queue with_data].
      rewrite app_assoc. reflexivity.
    + apply Forall_app. split.
      * eapply Forall_impl; [|exact O1]. intros e <-. left. reflexivity.
      * eapply Forall_impl; [|exact O2]. intros e He. right. exact He.
Qed.

(** X8.  [compute_events_of_vertices] always returns.  It moves the start
    of the window to the current time of the data structure
    ([m_min_time = m_data.current_time()]) and leaves [m_max_time] alone;
    it keeps the queued events and adds only events of the vertices it was
    given; and the data structure goes through [update_positions] to
    [m_max_time], the deactivation of the vertices, their new last event
    time, their reactivation and [update_positions] back to the new
    [m_min_time]. *)
Theorem compute_events_of_vertices_returns :
  forall last_event_time pvertices w,
  exists evs,
    compute_events_of_vertices last_event_time pvertices w
    = Returned tt (world_after_events last_event_time pvertices evs w)
    /\ Forall (fun e => In (ev_pvertex e) pvertices) evs.
Proof.
  intros time pvertices w. unfold compute_events_of_vertices.
  unfold bind at 1, get. cbv beta iota.
  unfold bind at 1, set_min_time, modify. 
  unfold bind at 1, data_do at 1, modify.
  unfold bind at 1. cbv beta iota.
  set (w1 := with_data (update_positions (m_max_time w) (m_data w))
                       (with_min_time (current_time (m_data w)) w)).
  change (with_data (update_positions (m_max_time w)
                       (m_data (with_min_time (current_time (m_data w)) w)))
                    (with_min_time (current_time (m_data w)) w)) with w1.
  destruct (init_search_structures (m_data w1) (fst (hd null_pvertex pvertices)))
    as ((ies & segs) & bbs).
  unfold bind at 1. rewrite for_each_data_do.
  set (w2 := with_data _ w1).
  destruct (events_loop time ies segs bbs pvertices w2) as (evs & H & O).
  exists evs. split; [|exact O].
  unfold bind at 1. rewrite H.
  unfold bind at 1. rewrite for_each_data_do.
  reflexivity.
Qed.

Lemma pop_none (q : Event_queue) : pop q = None <-> q = [].
Proof.
  destruct q as [|e r]; cbn [pop].
  - split; reflexivity.
  - split; discriminate.
Qed.

Lemma check_integrity_returned w b w' :
  check_integrity w = Returned b w' -> w' = w.
Proof.
  unfold check_integrity. cbv [bind get ret CGAL_assertion_msg].
  destruct (match first_violation _ _ with Some _ => _ | None => _ end).
  - destruct (m_verbose w); [discriminate|]. intro H. injection H as _ <-.
    reflexivity.
  - intro H. injection H as _ <-. reflexivity.
Qed.

Lemma run_returned fuel k :
  forall w w', run fuel k w = Returned tt w' -> m_queue w' = [].
Proof.
  induction fuel as [|fuel IH]; intros w w' H; cbn [run] in H;
    unfold bind at 1, get in H; cbv beta iota in H;
    destruct (pop (m_queue w)) as [(ev, q)|] eqn:Epop.
  - discriminate H.
  - injection H as <-. apply pop_none. exact Epop.
  - apply bind_returned in H. destruct H as (_ & w1 & _ & H).
    apply bind_returned in H. destruct H as (_ & w2 & _ & H).
    apply bind_returned in H. destruct H as (_ & w3 & _ & H).
    apply bind_returned in H. destruct H as (_ & w4 & _ & H).
    apply (IH _ _ H).
  - injection H as <-. apply pop_none. exact Epop.
Qed.

(** X9.  [run] unstacks the queue to the end: called with an empty queue
    it returns at once and changes nothing, and whenever it returns the
    queue is empty.  However it ends (also at an assertion), [apply] and
    [run] leave [m_max_time], the verbosity and the warnings as they
    were: only [m_data], the queue and [m_min_time] change. *)
Theorem run_empties_the_queue :
  (forall fuel k w, m_queue w = [] -> run fuel k w = Returned tt w)
  /\ (forall fuel k w w', run fuel k w = Returned tt w' -> m_queue w' = [])
  /\ (forall k ev w w',
         final_world (apply k ev w) = Some w' ->
         m_max_time w' = m_max_time w
         /\ m_verbose w' = m_verbose w
         /\ warnings w' = warnings w)
  /\ (forall fuel k w w',
         final_world (run fuel k w) = Some w' ->
         m_max_time w' = m_max_time w
         /\ m_verbose w' = m_verbose w
         /\ warnings w' = warnings w).
Proof.
  split; [|split; [|split]].
  - intros fuel k w Hq. destruct fuel; cbn [run]; unfold bind, get;
      rewrite Hq; reflexivity.
  - apply run_returned.
  - intros k ev w w'.
    apply (respects_apply same_window_end same_window_end_refl
             same_window_end_trans); intros; repeat split.
  - intros fuel k w w'.
    apply (respects_run same_window_end same_window_end_refl
             same_window_end_trans); intros; repeat split.
Qed.

(** [initialize_queue] when no vertex moves: nothing is pushed. *)
Lemma planes_loop_frozen planes :
  forall still_running w,
    existsb (fun i => existsb (fun pvertex => negb (is_frozen (m_data w) pvertex))
                              (pvertices (m_data w) i)) planes = false ->
    fold_each planes initialize_queue_of_plane still_running w
    = Returned still_running w.
Proof.
  induction planes as [|i r IH]; intros still_running w H; cbn [fold_each].
  - reflexivity.
  - cbn [existsb] in H. apply orb_false_iff in H. destruct H as (Hi & Hr).
    assert (Hplane : initialize_queue_of_plane i still_running w
                     = Returned still_running w).
    { unfold initialize_queue_of_plane, bind at 1, get. cbv beta iota.
      destruct (init_search_structures (m_data w) i) as ((ies & segs) & bbs).
      revert Hi. generalize (pvertices (m_data w) i) as pvs.
      induction pvs as [|pv pvs IHp]; intro Hi; cbn [fold_each].
      - reflexivity.
      - cbn [existsb] in Hi. apply orb_false_iff in Hi. destruct Hi as (Hpv & Hpvs).
        apply negb_false_iff in Hpv.
        unfold bind at 1. unfold bind at 1.
        rewrite (compute_events_of_vertex_frozen _ _ _ _ _ Hpv).
        unfold ret at 1. apply IHp. exact Hpvs. }
    unfold bind. rewrite Hplane. apply IH. exact Hr.
Qed.

Lemma initialize_queue_false w w' :
  initialize_queue w = Returned false w' ->
  some_vertex_moves (update_positions (m_max_time w) (m_data w)) = false
  /\ w' = with_data (update_positions (m_min_time w)
                       (update_positions (m_max_time w) (m_data w))) w.
Proof.
  intro H.
  set (d1 := update_positions (m_max_time w) (m_data w)).
  assert (Hmoves : some_vertex_moves d1 = false).
  { destruct (initialize_queue_returns w) as (evs & Hrun).
    cbv zeta in Hrun. fold d1 in Hrun. rewrite Hrun in H.
    injection H as -> _. reflexivity. }
  split; [exact Hmoves|].
  assert (Hloop := planes_loop_frozen (seq 0 (number_of_support_planes d1)) false
                     (with_data d1 w) Hmoves).
  assert (Hinit : initialize_queue w
                  = Returned false (with_data (update_positions (m_min_time w) d1) w)).
  { unfold initialize_queue. cbv [bind get data_do modify ret]. cbv beta iota.
    match goal with
    | |- match ?x with _ => _ end = _ =>
        replace x with (Returned false (with_data d1 w)) by (symmetry; exact Hloop)
    end.
    reflexivity. }
  rewrite Hinit in H. injection H as <-. reflexivity.
Qed.

Lemma iter_shift (n : nat) (f : FT -> FT) (x : FT) :
  Nat.iter n f (f x) = Nat.iter (S n) f x.
Proof. symmetry. apply Nat.iter_succ_r. Qed.

(** X10.  The time windows of the loop of [partition].  When the loop
    returns after [n] windows (at most as many as its bound), the last call
    of [initialize_queue] found no moving vertex, [m_max_time] has advanced
    by [n] times [time_step], and, when at least one window was run, the
    queue is empty and [m_min_time] is one [time_step] before
    [m_max_time]: each window starts where the one before it ended. *)
Theorem propagation_loop_windows :
  forall fuel k time_step w w',
    propagation_loop fuel k time_step w = Returned tt w' ->
    exists n w_last,
      (n <= fuel)%nat
      /\ initialize_queue w_last = Returned false w'
      /\ some_vertex_moves (update_positions (m_max_time w_last) (m_data w_last))
         = false
      /\ m_max_time w' = Nat.iter n (fun t => t + time_step) (m_max_time w)
      /\ (n = O -> w_last = w)
      /\ ((0 < n)%nat ->
          m_queue w' = []
          /\ m_min_time w'
             = Nat.iter (n - 1) (fun t => t + time_step) (m_max_time w)).
Proof.
  induction fuel as [|fuel IH]; intros k time_step w w' H;
    cbn [propagation_loop] in H;
    apply bind_returned in H; destruct H as (still & w1 & Hinit & H);
    destruct still.
  - discriminate H.
  - injection H as <-. destruct (initialize_queue_false _ _ Hinit) as (Hm & ->).
    exists O, w. repeat split; try assumption; try reflexivity; lia.
  - apply bind_returned in H. destruct H as ([] & w2 & Hrun & H).
    unfold bind at 1, get in H. cbv beta iota in H.
    unfold bind at 1, set_min_time, modify in H.
    unfold bind at 1, set_max_time, modify in H.
    apply bind_returned in H. destruct H as (b & w4 & Hcheck & H).
    apply check_integrity_returned in Hcheck. subst w4.
    set (w3 := with_max_time (m_max_time w2 + time_step)
                 (with_min_time (m_max_time w2) w2)) in H.
    destruct (IH _ _ _ _ H) as (n & w_last & Hn & Hlast & Hmoves & Hmax & Hzero & Hpos).
    assert (Hq2 : m_queue w2 = []) by (apply (run_returned _ _ _ _ Hrun)).
    assert (Hmax2 : m_max_time w2 = m_max_time w).
    { destruct (initialize_queue_returns w) as (evs & Hinit').
      cbv zeta in Hinit'. rewrite Hinit' in Hinit. injection Hinit as _ <-.
      assert (Hfinal : final_world (run (S fuel) k
                         (with_data
                            (update_positions (m_min_time w)
                               (update_positions (m_max_time w) (m_data w)))
                            (with_queue (m_queue w ++ evs) w))) = Some w2)
        by (rewrite Hrun; reflexivity).
      apply (respects_run same_window_end same_window_end_refl
               same_window_end_trans) in Hfinal;
        [apply Hfinal | intros; repeat split ..]. }
    exists (S n), w_last. split; [lia|]. split; [exact Hlast|].
    split; [exact Hmoves|]. split; [|split; [discriminate|]].
    + rewrite Hmax. subst w3. cbn [m_max_time with_max_time].
      rewrite Hmax2. apply (iter_shift n (fun t => t + time_step)).
    + intros _. destruct n as [|n'].
      * specialize (Hzero eq_refl). subst w_last.
        destruct (initialize_queue_false _ _ Hlast) as (_ & ->).
        subst w3. cbn [m_queue m_min_time with_data with_max_time with_min_time
                       Nat.sub Nat.iter nat_rect].
        split; [exact Hq2 | exact Hmax2].
      * destruct Hpos as (Hq & Hmin); [lia|]. split; [exact Hq|].
        rewrite Hmin. subst w3. cbn [m_max_time with_max_time Nat.sub].
        rewrite Nat.sub_0_r, Hmax2.
        apply (iter_shift n' (fun t => t + time_step)).
  - injection H as <-. destruct (initialize_queue_false _ _ Hinit) as (Hm & ->).
    exists O, w. repeat split; try assumption; try reflexivity; lia.
Qed.

End Loops.

(** The crossing of edge 3 by vertex [(6, 5)]: [run] returns with an empty
    queue and the same [m_max_time], and running again changes nothing. *)
Lemma run_empties_the_queue_witness :
  let d := Toy.toy_scene 2 true (true, false) in
  let w := Toy.toy_world d [pvertex_to_iedge false (6%nat, 5%nat) 3%nat 3] false in
  exists w',
    run (GT := Toy.toy_traits) 3 2 w = Returned tt w'
    /\ m_queue w' = []
    /\ m_max_time w' = m_max_time w
    /\ run (GT := Toy.toy_traits) 3 2 w' = Returned tt w'.
Proof.
  intros d w.
  destruct (run_empties_the_queue (GT := Toy.toy_traits) (DS := Toy.toy_structure))
    as (Hempty & Hqueue & _ & Hframe).
  destruct (run (GT := Toy.toy_traits) 3 2 w) as [[] w'| | |] eqn:E;
    try (vm_compute in E; discriminate E).
  exists w'. split; [reflexivity|]. split; [exact (Hqueue _ _ _ _ E)|].
  split.
  - apply (Hframe 3%nat 2%N w w'). rewrite E. reflexivity.
  - apply Hempty. exact (Hqueue _ _ _ _ E).
Defined.

(** Seven planes whose vertices stop at time 2, a first window from 0 to 1:
    the loop runs one window and returns with the window from 1 to 2. *)
Lemma propagation_loop_windows_witness :
  let d := Toy.toy_scene 1 false (false, false) in
  let w := mkWorld (DS := Toy2.stopping 2) d [] 0 1 false [] in
  exists w' n,
    propagation_loop (GT := Toy.toy_traits) 3 1 1 w = Returned tt w'
    /\ (0 < n <= 3)%nat
    /\ m_max_time w' = Nat.iter n (fun t => t + 1) 1
    /\ m_min_time w' = Nat.iter (n - 1) (fun t => t + 1) 1
    /\ m_queue w' = [].
Proof.
  intros d w.
  destruct (propagation_loop (GT := Toy.toy_traits) 3 1 1 w) as [[] w'| | |] eqn:E;
    try (vm_compute in E; discriminate E).
  destruct (propagation_loop_windows (GT := Toy.toy_traits) (DS := Toy2.stopping 2)
              3 1 1 w w' E)
    as (n & w_last & Hn & Hlast & Hmoves & Hmax & Hzero & Hpos).
  assert (Hn0 : (0 < n)%nat).
  { destruct n as [|n]; [|lia]. rewrite (Hzero eq_refl) in Hmoves.
    vm_compute in Hmoves. discriminate Hmoves. }
  exists w', n. split; [reflexivity|]. split; [lia|]. split; [exact Hmax|].
  destruct (Hpos Hn0) as (Hq & Hmin). split; [exact Hmin | exact Hq].
Defined.

(** *** Two vertices crossing an intersection edge together *)

Section Joint_crossing.

Context {GT : Geom_traits} {DS : Data_structure}.

(** X11.  The stop/continue policy of the joint crossing of an edge by a
    vertex and its neighbour, for a face whose budget is at least 1.  The
    events of both vertices are removed first.  When only one of the two
    has reached the bounding box the block stops at an assertion.  When
    both have, the polygon stops ([crop_polygon] on the pair).  When none
    has: a collision of either vertex stops the polygon when the budget is
    1, and costs one unit of budget and lets the polygon continue
    ([propagate_polygon] on the pair with the new budget) when it is above
    1; without any collision the polygon continues with its budget
    untouched, unless the two vertices have different intersection edges
    or the edge is occupied, where the block stops at an assertion. *)
Theorem two_vertex_stop_or_continue :
  forall time pvertex pother iedge pface w,
    let d := m_data w in
    let w1 := with_queue (erase_vertex_events pother
                            (erase_vertex_events pvertex (m_queue w))) w in
    let collision := fst (collision_occured d pvertex iedge)
                     || fst (collision_occured d pother iedge) in
    let bbox_reached := snd (collision_occured d pvertex iedge) in
    let bbox_reached_other := snd (collision_occured d pother iedge) in
    (1 <= pface_k d pface)%N ->
    (bbox_reached <> bbox_reached_other ->
     exists msg,
       two_vertex_crossing time pvertex pother iedge pface w
       = AssertionFailed msg w1)
    /\ (bbox_reached = true -> bbox_reached_other = true ->
        two_vertex_crossing time pvertex pother iedge pface w
        = pair_stops time pvertex pother iedge w1)
    /\ (bbox_reached = false -> bbox_reached_other = false ->
        (collision = true -> pface_k d pface = 1%N ->
         two_vertex_crossing time pvertex pother iedge pface w
         = pair_stops time pvertex pother iedge w1)
        /\ (collision = true -> (1 < pface_k d pface)%N ->
            pface_k (set_pface_k pface (pface_k d pface - 1) d) pface
            = (pface_k d pface - 1)%N ->
            two_vertex_crossing time pvertex pother iedge pface w
            = pair_continues time (pface_k d pface - 1) pvertex pother iedge
                (with_data (set_pface_k pface (pface_k d pface - 1) d) w1))
        /\ (collision = false ->
            iedge_of d pvertex <> iedge_of d pother ->
            two_vertex_crossing time pvertex pother iedge pface w
            = AssertionFailed "m_data.iedge(pvertex) == m_data.iedge(pother)" w1)
        /\ (collision = false ->
            iedge_of d pvertex = iedge_of d pother ->
            fst (is_occupied d pvertex iedge) = true ->
            two_vertex_crossing time pvertex pother iedge pface w
            = AssertionFailed
                "TODO: TWO PVERTICES SNEAK ON THE OTHER SIDE EVEN WHEN WE HAVE A POLYGON!"
                w1)
        /\ (collision = false ->
            iedge_of d pvertex = iedge_of d pother ->
            fst (is_occupied d pvertex iedge) = false ->
            two_vertex_crossing time pvertex pother iedge pface w
            = pair_continues time (pface_k d pface) pvertex pother iedge w1)).
Proof.
  intros time pvertex pother iedge pface w d w1 collision bbox_reached
         bbox_reached_other Hk.
  subst d w1 collision bbox_reached bbox_reached_other.
  assert (Hleb : N.leb 1 (pface_k (m_data w) pface) = true)
    by (apply N.leb_le; exact Hk).
  unfold two_vertex_crossing, pair_stops, pair_continues.
  cbv [bind remove_events modify get ret data_do CGAL_assertion CGAL_assertion_msg].
  rewrite !m_data_with_queue, !m_queue_with_queue, !with_queue_twice.
  destruct (collision_occured (m_data w) pvertex iedge) as (collision, bbox_reached).
  destruct (collision_occured (m_data w) pother iedge)
    as (collision_other, bbox_reached_other).
  cbn [fst snd].
  split; [|split].
  - intro Hdiff. destruct bbox_reached, bbox_reached_other;
      try (exfalso; apply Hdiff; reflexivity); cbv beta iota;
      eexists; reflexivity.
  - intros -> ->. cbv beta iota. rewrite ?m_data_with_queue, Hleb. reflexivity.
  - intros -> ->. cbv beta iota. repeat split.
    + intros -> Hone. rewrite Hone. cbn [andb N.eqb Pos.eqb]. cbv beta iota.
      rewrite ?m_data_with_queue, Hone. reflexivity.
    + intros -> Hlt Hset.
      assert (Hne : N.eqb (pface_k (m_data w) pface) 1 = false)
        by (apply N.eqb_neq; lia).
      assert (Hltb : N.ltb 1 (pface_k (m_data w) pface) = true)
        by (apply N.ltb_lt; exact Hlt).
      rewrite Hne, Hltb. cbn [andb]. cbv beta iota.
      rewrite ?m_data_with_data, ?m_data_with_queue.
      rewrite <- !N.sub_1_r. rewrite Hset.
      assert (Hleb' : N.leb 1 (pface_k (m_data w) pface - 1) = true)
        by (apply N.leb_le; lia).
      rewrite Hleb'. reflexivity.
    + intros -> Hne. cbn [andb]. cbv beta iota.
      assert (He : IEdge_eqb (iedge_of (m_data w) pvertex) (iedge_of (m_data w) pother)
                   = false) by (apply Nat.eqb_neq; exact Hne).
      rewrite He. reflexivity.
    + intros -> Heq Hocc. cbn [andb]. cbv beta iota.
      assert (He : IEdge_eqb (iedge_of (m_data w) pvertex) (iedge_of (m_data w) pother)
                   = true) by (apply Nat.eqb_eq; exact Heq).
      rewrite He, Hocc. reflexivity.
    + intros -> Heq Hocc. cbn [andb]. cbv beta iota.
      assert (He : IEdge_eqb (iedge_of (m_data w) pvertex) (iedge_of (m_data w) pother)
                   = true) by (apply Nat.eqb_eq; exact Heq).
      rewrite He, Hocc. cbv beta iota. rewrite ?m_data_with_queue, Hleb. reflexivity.
Qed.

End Joint_crossing.

(** Vertex [(6, 5)] has reached the bounding box and its neighbour
    [(6, 6)] has not: the joint crossing removes the events of both and
    stops at an assertion.  With a collision and a budget of 2 on the
    small instance, the budget becomes 1 and the polygon continues. *)
Lemma two_vertex_stop_or_continue_witness :
  let d := Toy.toy_scene 2 false (true, false) in
  let pvertex := (6%nat, 5%nat) in
  let pother := (6%nat, 6%nat) in
  let ev := pvertex_to_iedge false (5%nat, 5%nat) 3%nat 4 in
  let q := [pvertex_to_iedge false pvertex 3%nat 3;
            pvertex_to_iedge false pother 3%nat 3; ev] in
  let w := mkWorld (DS := Toy2.one_sided) d q 0 5 false [] in
  let w' := mkWorld (DS := Toy.toy_structure) d q 0 5 false [] in
  (exists msg,
      two_vertex_crossing (GT := Toy.toy_traits) 3 pvertex pother 3%nat (6%nat, O) w
      = AssertionFailed msg (with_queue [ev] w))
  /\ two_vertex_crossing (GT := Toy.toy_traits) 3 pvertex pother 3%nat (6%nat, O) w'
     = pair_continues (GT := Toy.toy_traits) 3 1 pvertex pother 3%nat
         (with_data (DS := Toy.toy_structure) (Toy.toy_set_k (6%nat, O) 1 d)
            (with_queue [ev] w')).
Proof.
  intros d pvertex pother ev q w w'. split.
  - destruct (two_vertex_stop_or_continue (GT := Toy.toy_traits)
                (DS := Toy2.one_sided) 3 pvertex pother 3%nat (6%nat, O) w)
      as (Hone & _); [cbn; lia|].
    destruct Hone as (msg & Hmsg); [cbn; discriminate|].
    exists msg. exact Hmsg.
  - destruct (two_vertex_stop_or_continue (GT := Toy.toy_traits)
                (DS := Toy.toy_structure) 3 pvertex pother 3%nat (6%nat, O) w')
      as (_ & _ & Hnone); [cbn; lia|].
    destruct (Hnone eq_refl eq_refl) as (_ & Hdec & _).
    apply Hdec; [reflexivity | cbn; lia | reflexivity].
Defined.

(** *** The transverse intersection lines *)

Lemma is_Idx_set_tail x s : is_Idx_set (x :: s) = true -> is_Idx_set s = true.
Proof.
  cbn [is_Idx_set]. intro H. apply andb_true_iff in H. apply H.
Qed.

Lemma is_Idx_set_above x s :
  is_Idx_set (x :: s) = true -> forall y, In y s -> (x < y)%nat.
Proof.
  revert x. induction s as [|z s IH]; intros x H y Hy; [destruct Hy|].
  cbn [is_Idx_set] in H. apply andb_true_iff in H. destruct H as (Hxz & Hs).
  apply Nat.ltb_lt in Hxz. destruct Hy as [<- | Hy]; [exact Hxz|].
  specialize (IH z Hs y Hy). lia.
Qed.

Lemma find_in_app {A : Type} (f : A -> bool) (l l' : list A) :
  find f (l ++ l') = match find f l with Some x => Some x | None => find f l' end.
Proof.
  induction l as [|x l IH]; cbn [app find]; [reflexivity|].
  destruct (f x); [reflexivity | exact IH].
Qed.

(** X12.  The common support plane of two lines.  The index that remains
    in [common_plane_idx] after [std::set_intersection] is the greatest
    index the two sets share, and [KSR::no_element()] remains exactly when
    they share none; so a line always has a plane in common with itself,
    its last one. *)
Theorem common_plane_idx_is_greatest :
  forall set_a set_b,
    is_Idx_set set_a = true ->
    (forall idx,
        common_plane_idx set_a set_b = Some idx <->
        In idx set_a /\ In idx set_b
        /\ forall j, In j set_a -> In j set_b -> (j <= idx)%nat)
    /\ (common_plane_idx set_a set_b = None <->
        forall j, In j set_a -> ~ In j set_b)
    /\ (set_a <> [] -> common_plane_idx set_a set_a = Some (last set_a O)).
Proof.
  intros set_a set_b.
  assert (Hfold : forall l acc,
             fold_left (fun acc idx =>
                          if existsb (Nat.eqb idx) set_b then Some idx else acc)
                       l acc
             = match find (fun idx => existsb (Nat.eqb idx) set_b) (rev l) with
               | Some idx => Some idx
               | None => acc
               end).
  { induction l as [|x l IH]; intro acc; [reflexivity|].
    cbn [fold_left rev]. rewrite IH. clear IH.
    induction (rev l) as [|y r IHr]; cbn [app find].
    - destruct (existsb (Nat.eqb x) set_b); reflexivity.
    - destruct (existsb (Nat.eqb y) set_b); [reflexivity | exact IHr]. }
  assert (Hcases : forall l : list nat,
             is_Idx_set l = true ->
             match find (fun idx => existsb (Nat.eqb idx) set_b) (rev l) with
             | Some idx => In idx l /\ In idx set_b
                           /\ forall j, In j l -> In j set_b -> (j <= idx)%nat
             | None => forall j, In j l -> ~ In j set_b
             end).
  { induction l as [|x l IH]; intro Hs.
    - cbn. intros j [].
    - specialize (IH (is_Idx_set_tail _ _ Hs)).
      pose proof (is_Idx_set_above _ _ Hs) as Habove.
      cbn [rev]. rewrite find_in_app.
      destruct (find (fun idx => existsb (Nat.eqb idx) set_b) (rev l)) as [idx|].
      + destruct IH as (Hin & Hb & Hmax). split; [right; exact Hin|].
        split; [exact Hb|]. intros j [<- | Hj] Hjb.
        * specialize (Habove idx Hin). lia.
        * apply Hmax; assumption.
      + cbn [find]. destruct (existsb (Nat.eqb x) set_b) eqn:E.
        * apply existsb_eqb_In in E. split; [left; reflexivity|].
          split; [exact E|]. intros j [<- | Hj] Hjb; [lia|].
          destruct (IH j Hj Hjb).
        * intros j [<- | Hj] Hjb.
          -- apply existsb_eqb_In in Hjb. congruence.
          -- exact (IH j Hj Hjb). }
  assert (Hspec : forall l : list nat,
             is_Idx_set l = true ->
             match common_plane_idx l set_b with
             | Some idx => In idx l /\ In idx set_b
                           /\ forall j, In j l -> In j set_b -> (j <= idx)%nat
             | None => forall j, In j l -> ~ In j set_b
             end).
  { intros l Hl. unfold common_plane_idx. rewrite Hfold.
    specialize (Hcases l Hl).
    destruct (find (fun idx => existsb (Nat.eqb idx) set_b) (rev l));
      exact Hcases. }
  intro Hs. specialize (Hspec set_a Hs).
  split; [|split].
  - intro idx.
    destruct (common_plane_idx set_a set_b) as [m|].
    + destruct Hspec as (Hin & Hb & Hmax). split.
      * intro E. injection E as <-. auto.
      * intros (Hin' & Hb' & Hmax'). f_equal.
        specialize (Hmax idx Hin' Hb'). specialize (Hmax' m Hin Hb). lia.
    + split; [discriminate|]. intros (Hin & Hb & _). destruct (Hspec idx Hin Hb).
  - destruct (common_plane_idx set_a set_b) as [m|].
    + destruct Hspec as (Hin & Hb & _). split; [discriminate|].
      intro H. destruct (H m Hin Hb).
    + split; [intros _; exact Hspec | reflexivity].
  - intro Hne. clear Hfold Hcases Hspec. unfold common_plane_idx.
    assert (Hfold' : forall l acc,
               l <> [] -> (forall x, In x l -> In x set_a) ->
               fold_left (fun acc idx =>
                            if existsb (Nat.eqb idx) set_a then Some idx else acc)
                         l acc
               = Some (last l O)).
    { induction l as [|x l IH]; intros acc Hl Hsub; [congruence|].
      cbn [fold_left].
      assert (Hx : existsb (Nat.eqb x) set_a = true)
        by (apply existsb_eqb_In; apply Hsub; left; reflexivity).
      rewrite Hx. destruct l as [|y l]; [reflexivity|].
      rewrite IH; [reflexivity | discriminate |].
      intros z Hz. apply Hsub. right. exact Hz. }
    apply Hfold'; [exact Hne | auto].
Qed.

Lemma common_plane_idx_is_greatest_witness :
  is_Idx_set [0; 2; 5; 7]%nat = true
  /\ common_plane_idx [0; 2; 5; 7]%nat [2; 3; 5; 6]%nat = Some 5%nat
  /\ (forall j, In j [0; 2; 5; 7]%nat -> In j [2; 3; 5; 6]%nat -> (j <= 5)%nat).
Proof.
  destruct (common_plane_idx_is_greatest [0; 2; 5; 7]%nat [2; 3; 5; 6]%nat eq_refl)
    as (Hsome & _ & _).
  split; [reflexivity|]. split; [reflexivity|].
  apply (Hsome 5%nat). reflexivity.
Defined.

(** The order of the keys of the map: equality, antisymmetry and
    transitivity of [Idx_set_compare]. *)
Lemma Idx_set_compare_eq (a b : Idx_set) : Idx_set_compare a b = Eq <-> a = b.
Proof.
  revert b. induction a as [|x a IH]; intros [|y b]; cbn [Idx_set_compare];
    try (split; [reflexivity || discriminate | reflexivity || discriminate]).
  destruct (Nat.compare x y) eqn:E.
  - apply Nat.compare_eq_iff in E. subst y. rewrite IH. split.
    + intros ->. reflexivity.
    + intro H. injection H as ->. reflexivity.
  - split; [discriminate|]. intro H. injection H as -> _.
    rewrite Nat.compare_refl in E. discriminate E.
  - split; [discriminate|]. intro H. injection H as -> _.
    rewrite Nat.compare_refl in E. discriminate E.
Qed.

Lemma Idx_set_compare_antisym (a b : Idx_set) :
  Idx_set_compare b a = CompOpp (Idx_set_compare a b).
Proof.
  revert b. induction a as [|x a IH]; intros [|y b]; cbn [Idx_set_compare];
    try reflexivity.
  rewrite (Nat.compare_antisym x y).
  destruct (Nat.compare x y); cbn [CompOpp]; [apply IH | reflexivity | reflexivity].
Qed.

Lemma Idx_set_compare_trans (a b c : Idx_set) :
  Idx_set_compare a b = Lt -> Idx_set_compare b c = Lt -> Idx_set_compare a c = Lt.
Proof.
  revert b c. induction a as [|x a IH]; intros [|y b] [|z c];
    cbn [Idx_set_compare]; try discriminate; try reflexivity.
  destruct (Nat.compare x y) eqn:Exy; try discriminate;
    destruct (Nat.compare y z) eqn:Eyz; try discriminate; intros Hab Hbc.
  - apply Nat.compare_eq_iff in Exy, Eyz. subst y z.
    rewrite Nat.compare_refl. exact (IH _ _ Hab Hbc).
  - apply Nat.compare_eq_iff in Exy. subst y. rewrite Eyz. reflexivity.
  - apply Nat.compare_eq_iff in Eyz. subst z. rewrite Exy. reflexivity.
  - apply Nat.compare_lt_iff in Exy, Eyz.
    assert (E : Nat.compare x z = Lt) by (apply Nat.compare_lt_iff; lia).
    rewrite E. reflexivity.
Qed.

Lemma Idx_set_eqb_eq (a b : Idx_set) : Idx_set_eqb a b = true <-> a = b.
Proof.
  unfold Idx_set_eqb. rewrite <- Idx_set_compare_eq.
  destruct (Idx_set_compare a b); split; congruence.
Qed.

Lemma Idx_set_eqb_neq (a b : Idx_set) : Idx_set_eqb a b = false <-> a <> b.
Proof.
  rewrite <- Idx_set_eqb_eq. destruct (Idx_set_eqb a b); split; congruence.
Qed.

Section Lines.

Context {GT : Geom_traits} {DS : Data_structure}.

Lemma Map_is_sorted_tail e (m : Map_p2vv) :
  Map_is_sorted (e :: m) = true -> Map_is_sorted m = true.
Proof.
  cbn [Map_is_sorted]. intro H. apply andb_true_iff in H. apply H.
Qed.

Lemma Map_is_sorted_cons e e' (m : Map_p2vv) :
  Map_is_sorted (e :: e' :: m) = true <->
  Idx_set_compare (fst e) (fst e') = Lt /\ Map_is_sorted (e' :: m) = true.
Proof.
  change (Map_is_sorted (e :: e' :: m))
    with (match Idx_set_compare (fst e) (fst e') with Lt => true | _ => false end
          && Map_is_sorted (e' :: m)).
  rewrite andb_true_iff.
  destruct (Idx_set_compare (fst e) (fst e')); intuition congruence.
Qed.

(** A key below the first key of a map is not in the map. *)
Lemma Map_find_below key (m : Map_p2vv) :
  Map_is_sorted m = true ->
  (forall e, hd_error m = Some e -> Idx_set_compare key (fst e) = Lt) ->
  Map_find key m = None.
Proof.
  revert key. induction m as [|e m IH]; intros key Hs Hlt; [reflexivity|].
  unfold Map_find. cbn [find].
  assert (He : Idx_set_compare key (fst e) = Lt) by (apply Hlt; reflexivity).
  unfold Idx_set_eqb at 1. rewrite He.
  apply (IH key (Map_is_sorted_tail _ _ Hs)).
  intros e' He'. destruct m as [|e'' m]; [discriminate He'|].
  cbn [hd_error] in He'. injection He' as <-.
  apply Map_is_sorted_cons in Hs.
  exact (Idx_set_compare_trans _ _ _ He (proj1 Hs)).
Qed.

Lemma register_ivertex_first key ivertex (m : Map_p2vv) e :
  hd_error (register_ivertex key ivertex m) = Some e ->
  fst e = key \/ exists e', hd_error m = Some e' /\ fst e' = fst e.
Proof.
  destruct m as [|(key', (v1, v2)) r]; cbn [register_ivertex hd_error].
  - intro H. injection H as <-. left. reflexivity.
  - destruct (Idx_set_compare key key'); cbn [hd_error]; intro H;
      injection H as <-.
    + right. eexists. split; reflexivity.
    + left. reflexivity.
    + right. eexists. split; reflexivity.
Qed.

Lemma register_ivertex_sorted key ivertex (m : Map_p2vv) :
  Map_is_sorted m = true -> Map_is_sorted (register_ivertex key ivertex m) = true.
Proof.
  induction m as [|(key', (v1, v2)) r IH]; intro Hs; [reflexivity|].
  cbn [register_ivertex]. destruct (Idx_set_compare key key') eqn:E.
  - destruct r as [|e r]; [reflexivity|].
    apply Map_is_sorted_cons in Hs. apply Map_is_sorted_cons. exact Hs.
  - apply Map_is_sorted_cons. split; [exact E | exact Hs].
  - specialize (IH (Map_is_sorted_tail _ _ Hs)).
    destruct (register_ivertex key ivertex r) as [|e r'] eqn:Er; [reflexivity|].
    apply Map_is_sorted_cons. split; [|exact IH].
    destruct (register_ivertex_first key ivertex r e) as [Hk | (e' & He' & Hk)].
    + rewrite Er. reflexivity.
    + cbn [fst]. rewrite Hk, (Idx_set_compare_antisym key key'), E. reflexivity.
    + destruct r as [|e'' r'']; [discriminate He'|].
      cbn [hd_error] in He'. injection He' as ->.
      apply Map_is_sorted_cons in Hs. cbn [fst] in *. rewrite <- Hk. apply Hs.
Qed.

Lemma register_ivertex_same key ivertex (m : Map_p2vv) :
  Map_is_sorted m = true ->
  Map_find key (register_ivertex key ivertex m)
  = Some (match Map_find key m with
          | None => (ivertex, null_ivertex)
          | Some (v1, _) => (v1, ivertex)
          end).
Proof.
  assert (Hrefl : Idx_set_eqb key key = true) by (apply Idx_set_eqb_eq; reflexivity).
  induction m as [|(key', (v1, v2)) r IH]; intro Hs.
  - unfold Map_find. cbn [register_ivertex find fst snd]. rewrite Hrefl. reflexivity.
  - cbn [register_ivertex]. destruct (Idx_set_compare key key') eqn:E.
    + apply Idx_set_compare_eq in E. subst key'.
      unfold Map_find. cbn [find fst snd]. rewrite Hrefl. reflexivity.
    + rewrite (Map_find_below key ((key', (v1, v2)) :: r) Hs).
      * unfold Map_find. cbn [find fst snd]. rewrite Hrefl. reflexivity.
      * intros e He. cbn [hd_error] in He. injection He as <-. exact E.
    + specialize (IH (Map_is_sorted_tail _ _ Hs)).
      unfold Map_find in *. cbn [find fst snd].
      unfold Idx_set_eqb at 1 3. rewrite E. exact IH.
Qed.

Lemma register_ivertex_other key key' ivertex (m : Map_p2vv) :
  key' <> key ->
  Map_find key' (register_ivertex key ivertex m) = Map_find key' m.
Proof.
  intro Hne. apply Idx_set_eqb_neq in Hne.
  induction m as [|(key0, (v1, v2)) r IH].
  - unfold Map_find. cbn [register_ivertex find fst snd]. rewrite Hne. reflexivity.
  - cbn [register_ivertex]. destruct (Idx_set_compare key key0) eqn:E.
    + apply Idx_set_compare_eq in E. subst key0.
      unfold Map_find. cbn [find fst snd]. rewrite Hne. reflexivity.
    + unfold Map_find at 1. cbn [find fst snd]. rewrite Hne. reflexivity.
    + unfold Map_find in *. cbn [find fst snd].
      destruct (Idx_set_eqb key' key0); [reflexivity | exact IH].
Qed.

(** X13.  [map_p2vv.insert] followed by the update of the second vertex.
    On a map with its keys in order, registering [ivertex] under [key]
    keeps the keys in order; a key that was absent gets the pair
    [(ivertex, IVertex())]; a key that was present keeps its first vertex
    and gets [ivertex] as its second, whatever the second was; no other
    key is touched. *)
Theorem register_ivertex_inserts_or_updates :
  forall key ivertex (m : Map_p2vv),
    Map_is_sorted m = true ->
    Map_is_sorted (register_ivertex key ivertex m) = true
    /\ Map_find key (register_ivertex key ivertex m)
       = Some (match Map_find key m with
               | None => (ivertex, null_ivertex)
               | Some (v1, _) => (v1, ivertex)
               end)
    /\ (forall key', key' <> key ->
        Map_find key' (register_ivertex key ivertex m) = Map_find key' m).
Proof.
  intros key ivertex m Hs. split; [|split].
  - exact (register_ivertex_sorted key ivertex m Hs).
  - exact (register_ivertex_same key ivertex m Hs).
  - intros key' Hne. exact (register_ivertex_other key key' ivertex m Hne).
Qed.

Lemma last_app_one {A : Type} (l : list A) (x d : A) : last (l ++ [x]) d = x.
Proof.
  induction l as [|y l IH]; [reflexivity|].
  cbn [app]. destruct (l ++ [x]) eqn:E.
  - destruct l; discriminate E.
  - exact IH.
Qed.

Lemma transverse_lines_loop (key_of : IVertex -> Idx_set) (l : list IVertex) :
  let m := fold_left (fun m ivertex =>
                        let key := key_of ivertex in
                        if Nat.ltb (List.length key) 2 then m
                        else register_ivertex key ivertex m) l [] in
  Map_is_sorted m = true
  /\ forall key,
       Map_find key m
       = if Nat.ltb (List.length key) 2 then None
         else match filter (fun ivertex => Idx_set_eqb (key_of ivertex) key) l with
              | [] => None
              | first :: rest => Some (first, last rest null_ivertex)
              end.
Proof.
  induction l as [|x l IH] using rev_ind.
  - cbv zeta. cbn [fold_left filter]. split; [reflexivity|]. intro key.
    destruct (Nat.ltb (List.length key) 2); reflexivity.
  - cbv zeta in *. rewrite fold_left_app. cbn [fold_left].
    destruct IH as (Hs & Hfind).
    match type of Hs with Map_is_sorted ?M = true => set (m := M) in * end.
    destruct (Nat.ltb (List.length (key_of x)) 2) eqn:Ex.
    + split; [exact Hs|]. intro key. rewrite Hfind, filter_app. cbn [filter].
      destruct (Nat.ltb (List.length key) 2) eqn:Ek; [reflexivity|].
      destruct (Idx_set_eqb (key_of x) key) eqn:E.
      * apply Idx_set_eqb_eq in E. subst key. congruence.
      * rewrite app_nil_r. reflexivity.
    + split; [apply register_ivertex_sorted; exact Hs|].
      intro key. rewrite filter_app. cbn [filter].
      destruct (Idx_set_eqb (key_of x) key) eqn:E.
      * apply Idx_set_eqb_eq in E. subst key.
        rewrite (register_ivertex_same (key_of x) x m Hs), Hfind, Ex.
        destruct (filter _ l) as [|first rest]; [reflexivity|].
        cbn [app]. rewrite last_app_one. reflexivity.
      * rewrite app_nil_r. rewrite register_ivertex_other; [apply Hfind|].
        apply Idx_set_eqb_neq in E. congruence.
Qed.

(** X14.  The lines that [make_polygons_intersection_free] intersects.
    The function is its second part run on the map of its first loop; the
    map has its keys in order and holds exactly the sets of two or more
    support planes that some intersection vertex meets.  Such a set is
    mapped to the first and the last of its vertices in the order of
    [ivertices]: the vertices in between are forgotten, and a set met by
    one vertex only keeps the default [IVertex()] as its second end. *)
Theorem transverse_lines_ends :
  forall d,
    (forall w, m_data w = d ->
               make_polygons_intersection_free w
               = Returned tt (with_data (refine_along (transverse_lines d) d) w))
    /\ Map_is_sorted (transverse_lines d) = true
    /\ forall key,
         Map_find key (transverse_lines d)
         = if Nat.ltb (List.length key) 2 then None
           else match vertices_of_line d key with
                | [] => None
                | first :: rest => Some (first, last rest null_ivertex)
                end.
Proof.
  intro d. split.
  - intros w <-. reflexivity.
  - exact (transverse_lines_loop
             (fun ivertex => intersected_planes_of_ivertex d ivertex false)
             (ivertices d)).
Qed.

End Lines.

End KSR_more_facts.
